(** * Harbourmaster: catalog sources, metadata normalisation, downloads

    A shallow embedding of [src/harbourmaster.py] and
    [src/pylibs/harbourmaster/info.py], with the properties of the
    specification stated and proved over it.

    Conventions of the embedding.
    - Python [str] values are Rocq [string]s holding ASCII text; [lower],
      [casefold], [\w] and [\s] are given on code points below 128.
    - A Python [dict] is an association list in insertion order; lookups
      return the first binding, assignments replace a binding in place or
      append a new one.
    - JSON-like values are the inductive [value]; JSON numbers are integers.
    - A function that can raise returns a [result]; a method that mutates
      its object returns the object's last state together with the outcome,
      so that the state at the moment an exception escapes can be observed. *)

From Stdlib Require Import String Ascii List ZArith Lia Bool Arith.
From Equations Require Import Equations.
Import ListNotations.
Local Open Scope string_scope.
Set Warnings "-register-all".

(** ** Python prelude *)

Module Py.

Inductive exn : Type :=
| KeyError | TypeError | AttributeError | NameError | UnboundLocalError
| AssertionError | ZeroDivisionError | ValueError | OSError | OverflowError.

Inductive result (A : Type) : Type :=
| Ok (a : A)
| Raise (e : exn).
Arguments Ok {A} a.
Arguments Raise {A} e.

Definition bind {A B} (c : result A) (k : A -> result B) : result B :=
  match c with
  | Ok a => k a
  | Raise e => Raise e
  end.

Notation "x <- c ;; k" := (bind c (fun x => k))
  (at level 61, c at next level, right associativity).

(** *** Characters and strings *)

Definition is_space (c : ascii) : bool :=
  let n := nat_of_ascii c in
  (((9 <=? n) && (n <=? 13)) || ((28 <=? n) && (n <=? 32)))%nat.

Definition is_word (c : ascii) : bool :=
  let n := nat_of_ascii c in
  (((48 <=? n) && (n <=? 57)) || ((65 <=? n) && (n <=? 90))
   || ((97 <=? n) && (n <=? 122)) || (n =? 95))%nat.

Definition lower_char (c : ascii) : ascii :=
  let n := nat_of_ascii c in
  if ((65 <=? n) && (n <=? 90))%nat then ascii_of_nat (n + 32) else c.

Fixpoint lower (s : string) : string :=
  match s with
  | EmptyString => EmptyString
  | String c s' => String (lower_char c) (lower s')
  end.

(** [str.casefold] coincides with [str.lower] on ASCII text. *)
Definition casefold (s : string) : string := lower s.

Fixpoint lstrip (s : string) : string :=
  match s with
  | EmptyString => EmptyString
  | String c s' => if is_space c then lstrip s' else s
  end.

Fixpoint rstrip (s : string) : string :=
  match s with
  | EmptyString => EmptyString
  | String c s' =>
      let r := rstrip s' in
      if (r =? "") && is_space c then EmptyString else String c r
  end.

Definition strip (s : string) : string := rstrip (lstrip s).

(** [s.startswith(p)] *)
Definition startswith (s p : string) : bool := prefix p s.

(** [s.endswith(p)] *)
Fixpoint endswith (s p : string) : bool :=
  (s =? p) ||
  match s with
  | EmptyString => false
  | String _ s' => endswith s' p
  end.

(** [sub in s] *)
Fixpoint contains (sub s : string) : bool :=
  prefix sub s ||
  match s with
  | EmptyString => false
  | String _ s' => contains sub s'
  end.

(** [s.replace(old, new)] for a non-empty [old]: occurrences are replaced
    from left to right without overlap.  [skip] counts the characters of an
    occurrence already replaced and still to be stepped over. *)
Fixpoint replace_from (old new : string) (skip : nat) (s : string) : string :=
  match s with
  | EmptyString => EmptyString
  | String c s' =>
      match skip with
      | S k => replace_from old new k s'
      | O =>
          if prefix old s
          then new ++ replace_from old new (String.length old - 1) s'
          else String c (replace_from old new 0 s')
      end
  end.

Definition replace (old new s : string) : string := replace_from old new 0 s.

(** [s.split(sep)] for a one-character separator; [cur] is the piece being
    read. *)
Fixpoint split_from (sep : ascii) (cur : string) (s : string) : list string :=
  match s with
  | EmptyString => [cur]
  | String c s' =>
      if Ascii.eqb c sep then cur :: split_from sep EmptyString s'
      else split_from sep (cur ++ String c EmptyString) s'
  end.

Definition split (sep : ascii) (s : string) : list string :=
  split_from sep EmptyString s.

(** [s.rsplit(sep, 1)[-1]]: what follows the last separator, the whole
    string when there is none. *)
Definition rsplit1_last (sep : ascii) (s : string) : string :=
  last (split sep s) EmptyString.

(** [s[:-2]] *)
Fixpoint drop_last2 (s : string) : string :=
  match s with
  | String c ((String _ (String _ _)) as s') => String c (drop_last2 s')
  | _ => EmptyString
  end.

(** [sep.join(parts)] *)
Fixpoint join_with (sep : string) (parts : list string) : string :=
  match parts with
  | [] => EmptyString
  | [part] => part
  | part :: rest => part ++ sep ++ join_with sep rest
  end.

(** *** Paths

    [pathlib] on a POSIX system.  A path object is kept as the text [str]
    gives for it. *)

(** [posixpath.join(a, b)]: an absolute [b] replaces [a]. *)
Definition posix_join (a b : string) : string :=
  if startswith b "/" then b
  else if (a =? "") || endswith a "/" then a ++ b
  else a ++ "/" ++ b.

(** [splitroot]: the root and what follows it.  Exactly two leading
    slashes are a root of their own; three or more count as one. *)
Definition splitroot (p : string) : string * string :=
  match p with
  | String c1 rest1 =>
      if Ascii.eqb c1 "/" then
        match rest1 with
        | String c2 rest2 =>
            if Ascii.eqb c2 "/" then
              match rest2 with
              | String c3 _ =>
                  if Ascii.eqb c3 "/" then ("/", rest1) else ("//", rest2)
              | EmptyString => ("//", rest2)
              end
            else ("/", rest1)
        | EmptyString => ("/", rest1)
        end
      else (EmptyString, p)
  | EmptyString => (EmptyString, p)
  end.

(** [str(PurePosixPath(p))]: empty components and [.] components are
    dropped, [..] components are kept, and the empty path is [.]. *)
Definition pure_path (p : string) : string :=
  let (root, rel) := splitroot p in
  let parts :=
    filter (fun x => negb (x =? "") && negb (x =? ".")) (split "/" rel) in
  let text := root ++ join_with "/" parts in
  if text =? "" then "." else text.

(** [str(directory / name)] for a path object [directory], given by its
    text, and a string [name]. *)
Definition truediv (directory name : string) : string :=
  pure_path (posix_join directory name).

(** *** Values *)

Inductive value : Type :=
| VNone
| VBool (b : bool)
| VInt (n : Z)
| VStr (s : string)
| VList (l : list value)
| VDict (d : list (string * value)).

Definition dict : Type := list (string * value).

Section Mapping.
Context {A : Type}.

(** [d.get(k)] *)
Fixpoint get (d : list (string * A)) (k : string) : option A :=
  match d with
  | [] => None
  | (k', v) :: d' => if k' =? k then Some v else get d' k
  end.

(** [k in d] *)
Definition has_key (d : list (string * A)) (k : string) : bool :=
  match get d k with Some _ => true | None => false end.

(** [d.get(k, default)] *)
Definition get_default (d : list (string * A)) (k : string) (default : A) : A :=
  match get d k with Some v => v | None => default end.

(** [d[k]] *)
Definition getitem (d : list (string * A)) (k : string) : result A :=
  match get d k with Some v => Ok v | None => Raise KeyError end.

(** [d[k] = v] *)
Fixpoint setitem (d : list (string * A)) (k : string) (v : A) : list (string * A) :=
  match d with
  | [] => [(k, v)]
  | (k', v') :: d' =>
      if k' =? k then (k, v) :: d' else (k', v') :: setitem d' k v
  end.

(** [del d[k]] for a key that is present *)
Fixpoint delitem (d : list (string * A)) (k : string) : list (string * A) :=
  match d with
  | [] => []
  | (k', v') :: d' => if k' =? k then d' else (k', v') :: delitem d' k
  end.

(** [del l[i]] on a list *)
Fixpoint del (l : list A) (i : nat) : list A :=
  match l, i with
  | [], _ => []
  | _ :: l', O => l'
  | x :: l', S j => x :: del l' j
  end.
End Mapping.

(** Python's [==] against literals.  [True == 1] and [False == 0] hold in
    Python, so a comparison with a boolean or an integer literal accepts
    both representations. *)
Definition is_none (v : value) : bool :=
  match v with VNone => true | _ => false end.

Definition eq_str (v : value) (s : string) : bool :=
  match v with VStr s' => s' =? s | _ => false end.

Definition eq_int (v : value) (n : Z) : bool :=
  match v with
  | VInt m => (m =? n)%Z
  | VBool b => ((if b then 1 else 0) =? n)%Z
  | _ => false
  end.

Definition eq_empty_list (v : value) : bool :=
  match v with VList [] => true | _ => false end.

Definition eq_empty_dict (v : value) : bool :=
  match v with VDict [] => true | _ => false end.

(** [v in (True, False)] *)
Definition in_true_false (v : value) : bool := eq_int v 1 || eq_int v 0.

(** [v in (True, False, None)] *)
Definition in_true_false_none (v : value) : bool := in_true_false v || is_none v.

(** [v in ("", None)] *)
Definition in_str_none (v : value) : bool := eq_str v "" || is_none v.

(** [v in ([], None)] *)
Definition in_list_none (v : value) : bool := eq_empty_list v || is_none v.

(** [v in ({}, None)] *)
Definition in_dict_none (v : value) : bool := eq_empty_dict v || is_none v.

Definition is_str (v : value) : bool :=
  match v with VStr _ => true | _ => false end.

Definition is_list (v : value) : bool :=
  match v with VList _ => true | _ => false end.

Definition is_dict (v : value) : bool :=
  match v with VDict _ => true | _ => false end.

(** [key in container] for a string key; only strings, lists and
    dictionaries support the test. *)
Definition py_in (key : string) (container : value) : result bool :=
  match container with
  | VStr s => Ok (contains key s)
  | VList l => Ok (existsb (fun x => eq_str x key) l)
  | VDict d => Ok (has_key d key)
  | _ => Raise TypeError
  end.

Definition inspect {A} (a : A) : {b : A | a = b} := exist _ a eq_refl.

End Py.

(** ** Port metadata: [pylibs/harbourmaster/info.py] *)

Module Info.
Import Py.

Definition PORT_INFO_ROOT_ATTRS : dict :=
  [ ("version", VInt 2);
    ("name", VNone);
    ("items", VNone);
    ("items_opt", VNone);
    ("attr", VDict []);
    ("status", VNone);
    ("files", VNone) ].

Definition PORT_INFO_ATTR_ATTRS : dict :=
  [ ("title", VStr "");
    ("desc", VStr "");
    ("inst", VStr "");
    ("genres", VList []);
    ("porter", VStr "");
    ("image", VDict []);
    ("rtr", VBool false);
    ("runtime", VNone);
    ("reqs", VList []) ].

(** What [port_info_load] is called with: a path object, a string, a
    dictionary, or anything else. *)
Inductive raw_info : Type :=
| RawPath (p : string)
| RawStr (s : string)
| RawDict (d : dict)
| RawOther.

(** [info.get('attr', {}).get(key, None)]: only a dictionary has [get]. *)
Definition attr_get (info : dict) (key : string) : result value :=
  match get info "attr" with
  | None => Ok VNone
  | Some (VDict a) => Ok (get_default a key VNone)
  | Some _ => Raise AttributeError
  end.

(** [info['attr'][key] = v] *)
Definition attr_set (info : dict) (key : string) (v : value) : result dict :=
  match get info "attr" with
  | None => Raise KeyError
  | Some (VDict a) => Ok (setitem info "attr" (VDict (setitem a key v)))
  | Some _ => Raise TypeError
  end.

(** Lines 98-115: a version-1 document is brought to version 2. *)
Definition migrate (info : dict) : result dict :=
  if (match get info "version" with Some v => eq_int v 1 | None => false end)
     || has_key info "source"
  then
    match get info "source" with
    | None => Raise KeyError
    | Some (VStr source) =>
        let info := setitem info "name" (VStr (rsplit1_last "/" source)) in
        let info := delitem info "source" in
        let info := setitem info "version" (VInt 2) in
        let info :=
          match get info "md5" with
          | None | Some VNone => info
          | Some md5 =>
              delitem
                (setitem info "status"
                   (VDict [ ("source", VStr "Unknown");
                            ("md5", md5);
                            ("status", VStr "Unknown") ]))
                "md5"
          end in
        runtime <- attr_get info "runtime" ;;
        if eq_str runtime "blank" then attr_set info "runtime" VNone
        else Ok info
    | Some _ => Raise AttributeError
    end
  else Ok info.

(** Lines 117-120: a [reqs] dictionary becomes the list of its keys. *)
Definition reqs_keys (info : dict) : result dict :=
  reqs <- attr_get info "reqs" ;;
  match reqs with
  | VDict r => attr_set info "reqs" (VList (map (fun kv => VStr (fst kv)) r))
  | _ => Ok info
  end.

(** Lines 125-129: the root fields, each from [info] or from its default. *)
Fixpoint fill_root (attrs : dict) (info port_info : dict) : dict :=
  match attrs with
  | [] => port_info
  | (attr, attr_default) :: rest =>
      fill_root rest info (setitem port_info attr (get_default info attr attr_default))
  end.

(** Lines 131-135: the attr fields.  When [info] has an ['attr'] it is the
    very dictionary stored in [port_info['attr']], so it is read in its
    current state; otherwise a fresh empty dictionary is read. *)
Fixpoint fill_attr (attrs : dict) (has_attr : bool) (port_attr : dict) : dict :=
  match attrs with
  | [] => port_attr
  | (attr, attr_default) :: rest =>
      let source := if has_attr then port_attr else [] in
      fill_attr rest has_attr
        (setitem port_attr attr (get_default source attr attr_default))
  end.

(** Lines 138-160 (and 163-185): the [while i < len(items)] loop. *)
Equations? sanitize (items : list value) (i : nat) : result (list value)
  by wf (length items - i) lt :=
  sanitize items i with inspect (nth_error items i) := {
    | exist _ None _ => Ok items
    | exist _ (Some (VStr item)) _ =>
        if startswith item "/" then sanitize (del items i) i
        else if startswith item "../" then sanitize (del items i) i
        else if contains "/../" item then sanitize (del items i) i
        else if item =? "" then sanitize (del items i) (S i)
        else sanitize items (S i)
    | exist _ (Some _) _ => Raise AttributeError }.
Proof.
  all: assert (Hi : i < length items)
    by (apply nth_error_Some; congruence).
  all: assert (Hd : length (del items i) = length items - 1)
    by (clear - Hi; revert i Hi; induction items as [|x l IH];
        intros [|j] Hj; simpl in *; try lia;
        rewrite IH by lia; lia).
  all: lia.
Qed.

Section Load.
(** [HM_GENRES], the allowed genre tags, comes from the package's [util]
    module; [read_json p] stands for opening the file at [p] and decoding
    it with that module's [json_safe_load] ([VNone] when the text does
    not decode). *)
Variable HM_GENRES : list string.
Variable read_json : string -> result value.

(** Lines 194-196: known genres are kept, case-folded. *)
Fixpoint filter_genres (genres kept : list value) : result (list value) :=
  match genres with
  | [] => Ok kept
  | VStr genre :: rest =>
      if existsb (String.eqb (casefold genre)) HM_GENRES
      then filter_genres rest (kept ++ [VStr (casefold genre)])
      else filter_genres rest kept
  | _ :: _ => Raise AttributeError
  end.

(** Lines 41-96: the raw input is decoded.  [Ok None] is the early
    [return None].  The string branches read names that are never bound
    ([info], [rawinfo], [raw_inf]) and the last branch reads [raw_in]. *)
Definition decode (raw : raw_info) (do_default : bool) : result (option dict) :=
  match raw with
  | RawPath p =>
      info <- read_json p ;;
      match info with
      | VDict d => Ok (Some d)
      | _ => if do_default then Ok (Some []) else Ok None
      end
  | RawStr s =>
      if startswith (strip s) "{" && endswith (strip s) "}"
      then Raise UnboundLocalError
      else Raise NameError
  | RawDict d => Ok (Some d)
  | RawOther => Raise NameError
  end.

(** Lines 137-160: [items] is sanitised when it is a list. *)
Definition clean_items (port_info : dict) : result dict :=
  match get port_info "items" with
  | Some (VList items) =>
      items' <- sanitize items 0 ;;
      Ok (setitem port_info "items" (VList items'))
  | _ => Ok port_info
  end.

(** Lines 162-188: the same for [items_opt], which becomes [None] when
    nothing is left. *)
Definition clean_items_opt (port_info : dict) : result dict :=
  match get port_info "items_opt" with
  | Some (VList items) =>
      items' <- sanitize items 0 ;;
      Ok (setitem port_info "items_opt"
            (if eq_empty_list (VList items') then VNone else VList items'))
  | _ => Ok port_info
  end.

(** Lines 190-196 *)
Definition clean_genres (port_info : dict) : result dict :=
  match get port_info "attr" with
  | Some (VDict a) =>
      match get a "genres" with
      | Some (VList genres) =>
          kept <- filter_genres genres [] ;;
          Ok (setitem port_info "attr" (VDict (setitem a "genres" (VList kept))))
      | _ => Ok port_info
      end
  | _ => Raise AttributeError
  end.

(** Lines 98-198, from the decoded [info] on. *)
Definition normalize (info : dict) : result dict :=
  info <- migrate info ;;
  info <- reqs_keys info ;;
  let port_info := fill_root PORT_INFO_ROOT_ATTRS info [] in
  match get port_info "attr" with
  | Some (VDict a) =>
      let port_info :=
        setitem port_info "attr"
          (VDict (fill_attr PORT_INFO_ATTR_ATTRS (has_key info "attr") a)) in
      port_info <- clean_items port_info ;;
      port_info <- clean_items_opt port_info ;;
      clean_genres port_info
  | _ => Raise TypeError
  end.

Definition port_info_load (raw : raw_info) (do_default : bool)
  : result (option dict) :=
  info <- decode raw do_default ;;
  match info with
  | None => Ok None
  | Some info => port_info <- normalize info ;; Ok (Some port_info)
  end.
End Load.

(** *** [port_info_merge] *)

(** The second argument of [port_info_merge]: a dictionary of its own, or
    the very object passed as first argument (the call [merge(R, R)]), in
    which case every read of [other_info] sees the writes made so far. *)
Inductive other_ref : Type :=
| Distinct (other_info : dict)
| SameObject.

Definition deref (other : other_ref) (port_info : dict) : dict :=
  match other with
  | Distinct other_info => other_info
  | SameObject => port_info
  end.

(** Lines 218-236: the value assigned to a root field, if any. *)
Definition merge_root_value (value_a value_b : value) : option value :=
  if is_none value_a || eq_str value_a "" || eq_empty_list value_a
  then Some value_b
  else if in_true_false value_b && in_true_false_none value_a
  then Some value_b
  else if is_str value_b && in_str_none value_a
  then Some value_b
  else if is_list value_b && in_list_none value_a
  then Some value_b
  else if is_dict value_b && in_dict_none value_a
  then Some value_b
  else None.

(** Lines 242-256: the value assigned to an attr field, if any. *)
Definition merge_attr_value (value_a value_b : value) : option value :=
  if in_true_false value_b && in_true_false_none value_a
  then Some value_b
  else if is_str value_b && in_str_none value_a
  then Some value_b
  else if is_list value_b && in_list_none value_a
  then Some value_b
  else if is_dict value_b && in_dict_none value_a
  then Some value_b
  else None.

(** Lines 211-236: the loop over the root fields stops at ['attr']. *)
Fixpoint merge_root (attrs : dict) (other : other_ref) (port_info : dict)
  : dict * result unit :=
  match attrs with
  | [] => (port_info, Ok tt)
  | (attr, _) :: rest =>
      if attr =? "attr" then (port_info, Ok tt)
      else
        match get port_info attr with
        | None => (port_info, Raise KeyError)
        | Some value_a =>
            match get (deref other port_info) attr with
            | None => (port_info, Raise KeyError)
            | Some value_b =>
                merge_root rest other
                  (match merge_root_value value_a value_b with
                   | Some v => setitem port_info attr v
                   | None => port_info
                   end)
            end
        end
  end.

(** Lines 239-256: one turn of the loop over [other_info['attr'].items()].
    When [port_info['attr']] is not a dictionary, a key found in it makes
    the subscript [port_info['attr'][key_b]] fail as soon as a condition
    evaluates it. *)
Definition merge_attr_step (key_b : string) (value_b : value) (port_info : dict)
  : dict * result unit :=
  match get port_info "attr" with
  | None => (port_info, Raise KeyError)
  | Some (VDict port_attr) =>
      match get port_attr key_b with
      | None => (port_info, Ok tt)
      | Some value_a =>
          match merge_attr_value value_a value_b with
          | Some v =>
              (setitem port_info "attr" (VDict (setitem port_attr key_b v)), Ok tt)
          | None => (port_info, Ok tt)
          end
      end
  | Some container =>
      (port_info,
       found <- py_in key_b container ;;
       if found && (in_true_false value_b || is_str value_b
                    || is_list value_b || is_dict value_b)
       then Raise TypeError
       else Ok tt)
  end.

(** The value an item of the iteration carries: the stored one, or, when
    the dictionary iterated over is [port_info['attr']] itself, the one it
    holds at that moment. *)
Definition item_value (other : other_ref) (key_b : string) (stored : value)
  (port_info : dict) : value :=
  match other with
  | Distinct _ => stored
  | SameObject =>
      match get port_info "attr" with
      | Some (VDict port_attr) => get_default port_attr key_b stored
      | _ => stored
      end
  end.

Fixpoint merge_attr (other : other_ref) (items : dict) (port_info : dict)
  : dict * result unit :=
  match items with
  | [] => (port_info, Ok tt)
  | (key_b, stored) :: rest =>
      match merge_attr_step key_b (item_value other key_b stored port_info) port_info with
      | (port_info, Ok _) => merge_attr other rest port_info
      | failed => failed
      end
  end.

(** [port_info_merge(port_info, other)] for a dictionary [other]: the
    state of [port_info] when the call ends, and how it ends ([Ok]: it
    returns [port_info]). *)
Definition port_info_merge (port_info : dict) (other : other_ref)
  : dict * result unit :=
  match merge_root PORT_INFO_ROOT_ATTRS other port_info with
  | (port_info, Ok _) =>
      match get (deref other port_info) "attr" with
      | None => (port_info, Raise KeyError)
      | Some (VDict other_attr) => merge_attr other other_attr port_info
      | Some _ => (port_info, Raise AttributeError)
      end
  | failed => failed
  end.

(** A record in the canonical schema: the four merged root fields are
    present and ['attr'] is a dictionary (whose keys, as in any Python
    dictionary, are distinct). *)
Definition canonical (r : dict) : Prop :=
  has_key r "version" = true /\ has_key r "name" = true /\
  has_key r "items" = true /\ has_key r "items_opt" = true /\
  exists a, get r "attr" = Some (VDict a) /\ NoDup (map fst a).

(** *** Notions used to state the properties *)

(** The root fields the first loop of [port_info_merge] reaches. *)
Fixpoint merged_keys (attrs : dict) : list string :=
  match attrs with
  | [] => []
  | (attr, _) :: rest => if attr =? "attr" then [] else attr :: merged_keys rest
  end.

(** [r['attr'][f]] *)
Definition attr_field (r : dict) (f : string) : option value :=
  match get r "attr" with
  | Some (VDict a) => get a f
  | _ => None
  end.

(** The empty sentinels of the schema: the empty string, sequence and
    record, the unset boolean, and null. *)
Definition at_sentinel (v : value) : bool :=
  match v with
  | VNone | VStr EmptyString | VList [] | VDict [] | VBool false => true
  | _ => false
  end.

(** A value no rule of [port_info_merge] replaces: neither null, nor
    empty, nor equal to [True] or [False]. *)
Definition sticky (v : value) : bool :=
  negb (is_none v || eq_str v "" || eq_empty_list v || eq_empty_dict v
        || in_true_false v).

(** The relative-path invariant of [items] and [items_opt]. *)
Definition safe_path (item : string) : bool :=
  negb (startswith item "/" || startswith item "../"
        || contains "/../" item || (item =? "")).

(** The loop of [sanitize] seen from the entry at index [i] on: an unsafe
    entry is deleted and the next one is examined; after an empty entry
    is deleted the next one is stepped over unexamined. *)
Fixpoint scan (rest : list value) : result (list value) :=
  match rest with
  | [] => Ok []
  | VStr item :: rest' =>
      if startswith item "/" || startswith item "../" || contains "/../" item
      then scan rest'
      else if item =? "" then
        match rest' with
        | [] => Ok []
        | next :: rest'' => kept <- scan rest'' ;; Ok (next :: kept)
        end
      else kept <- scan rest' ;; Ok (VStr item :: kept)
  | _ :: _ => Raise AttributeError
  end.

(** [item] is a string other than the empty one. *)
Definition nonempty_str (item : value) : bool :=
  match item with
  | VStr s => negb (s =? "")
  | _ => false
  end.

(** [item] is a string that satisfies the relative-path invariant. *)
Definition safe_item (item : value) : bool :=
  match item with
  | VStr s => safe_path s
  | _ => false
  end.

(** Two records that differ in [attr.rtr]. *)
Definition record_with_rtr (rtr : bool) : dict :=
  [ ("version", VInt 2); ("name", VStr "doom.zip");
    ("items", VNone); ("items_opt", VNone);
    ("attr",
     VDict [ ("title", VStr "Doom"); ("desc", VStr ""); ("inst", VStr "");
             ("genres", VList []); ("porter", VStr ""); ("image", VDict []);
             ("rtr", VBool rtr); ("runtime", VNone); ("reqs", VList []) ]);
    ("status", VNone); ("files", VNone) ].

(** The version-1 document of the migration example. *)
Definition quake_v1 : dict :=
  [ ("version", VInt 1);
    ("source", VStr "repo/Quake.zip");
    ("md5", VStr "abc123");
    ("attr", VDict [ ("runtime", VStr "blank") ]) ].

(** *** Notions used to state further properties *)

(** The fields of a dictionary, in order. *)
Definition fields (d : dict) : list string := map fst d.

(** [p'] has the fields of [p], at the root and in [attr]. *)
Definition same_fields (p p' : dict) : Prop :=
  fields p' = fields p /\
  forall a, get p "attr" = Some (VDict a) ->
            exists a', get p' "attr" = Some (VDict a') /\ fields a' = fields a.

(** A root field the first rule of [port_info_merge] fills: null, the
    empty string or the empty list. *)
Definition unset (v : value) : bool :=
  is_none v || eq_str v "" || eq_empty_list v.

(** A value the rules for the attr fields copy over a null field: a
    boolean, a string, a list or a dictionary. *)
Definition copied (v : value) : bool :=
  in_true_false v || is_str v || is_list v || is_dict v.

(** A record with nothing filled in. *)
Definition blank_record : dict :=
  [ ("version", VInt 2); ("name", VNone);
    ("items", VNone); ("items_opt", VNone);
    ("attr",
     VDict [ ("title", VNone); ("desc", VStr ""); ("inst", VStr "");
             ("genres", VList []); ("porter", VStr ""); ("image", VDict []);
             ("rtr", VBool false); ("runtime", VNone); ("reqs", VList []) ]);
    ("status", VNone); ("files", VNone) ].

(** A genre tag among the allowed ones. *)
Definition known (HM_GENRES : list string) (x : value) : Prop :=
  exists g, x = VStr g /\ In g HM_GENRES.

(** A genre entry the genre filter keeps as it is. *)
Definition settled (HM_GENRES : list string) (x : value) : Prop :=
  exists g, x = VStr g /\ casefold g = g /\
            existsb (String.eqb g) HM_GENRES = true.

(** The [items] and [items_opt] lists of [r] hold relative paths without
    a [..] step only. *)
Definition tidy (r : dict) : Prop :=
  forall k items,
    In k ["items"; "items_opt"] -> get r k = Some (VList items) ->
    forallb safe_item items = true.

(** The form of a normalised record: the root fields of the schema, a
    version other than 1, an [items_opt] that is not the empty list, and
    an [attr] dictionary with the attr fields of the schema, whose [reqs]
    is not a dictionary and whose [genres], when a list, is filtered. *)
Definition normal (HM_GENRES : list string) (r : dict) : Prop :=
  fields r = fields PORT_INFO_ROOT_ATTRS /\
  (forall v, get r "version" = Some v -> eq_int v 1 = false) /\
  get r "items_opt" <> Some (VList []) /\
  exists a,
    get r "attr" = Some (VDict a) /\
    (forall k, In k (fields PORT_INFO_ATTR_ATTRS) -> has_key a k = true) /\
    is_dict (get_default a "reqs" VNone) = false /\
    (forall l, get a "genres" = Some (VList l) ->
               forall x, In x l -> settled HM_GENRES x).

(** A document with a field and a genre the schema does not know, and
    with unsafe paths. *)
Definition untidy_record : dict :=
  [ ("name", VStr "doom.zip"); ("extra", VInt 1);
    ("items", VList [VStr "doom/"; VStr "/etc/passwd"; VStr "../x"]);
    ("items_opt", VList [VStr "/abs"]);
    ("attr", VDict [ ("genres", VList [VStr "RPG"; VStr "unknown"]);
                     ("note", VStr "x") ]) ].

End Info.

(** ** Catalog sources: [harbourmaster.py] *)

Module HarbourMaster.
Import Py.

(** *** The record grammar of [_parse_port_info]

    The pattern is [(?:^|\s)(\w+)=Q(.+?)Q(?=\s+\w+=|$)], where Q stands for
    the double-quote character.  [\w] and [\s] are disjoint and neither
    contains [=], so the greedy runs [\w+] and [\s+] can only succeed at
    their full length; the one real choice is the lazy group, which is
    tried at every length from one character on. *)

Definition quote : ascii := "034"%char.
Definition newline : ascii := "010"%char.

(** The longest prefix of characters satisfying [p], and what follows. *)
Fixpoint span (p : ascii -> bool) (s : string) : string * string :=
  match s with
  | EmptyString => (EmptyString, EmptyString)
  | String c s' =>
      if p c then let (run, rest) := span p s' in (String c run, rest)
      else (EmptyString, s)
  end.

(** [$]: the end of the text, or the newline that ends it. *)
Definition at_end (s : string) : bool :=
  match s with
  | EmptyString => true
  | String c EmptyString => Ascii.eqb c newline
  | _ => false
  end.

(** [(?=\s+\w+=|$)] *)
Definition lookahead (s : string) : bool :=
  (let (spaces, s1) := span is_space s in
   let (word, s2) := span is_word s1 in
   negb (spaces =? "") && negb (word =? "") && startswith s2 "=")
  || at_end s.

(** [(.+?)Q(?=...)]: [value] holds the characters taken so far; the result
    is the captured group and the text after the closing quote. *)
Fixpoint lazy_value (value : string) (s : string) : option (string * string) :=
  match s with
  | EmptyString => None
  | String c s' =>
      if Ascii.eqb c newline then None
      else
        let value := value ++ String c EmptyString in
        match s' with
        | String q rest =>
            if Ascii.eqb q quote && lookahead rest then Some (value, rest)
            else lazy_value value s'
        | EmptyString => None
        end
  end.

(** [(\w+)=Q(.+?)Q(?=...)] *)
Definition key_value (s : string) : option (string * string * string) :=
  let (key, s1) := span is_word s in
  if key =? "" then None
  else
    match s1 with
    | String e (String q s2) =>
        if Ascii.eqb e "="%char && Ascii.eqb q quote then
          match lazy_value EmptyString s2 with
          | Some (value, rest) => Some (key, value, rest)
          | None => None
          end
        else None
    | _ => None
    end.

(** One match attempt at a position: [^] is tried first and holds only at
    the start of the text, then [\s]. *)
Definition match_here (at_start : bool) (s : string)
  : option (string * string * string) :=
  match (if at_start then key_value s else None) with
  | Some m => Some m
  | None =>
      match s with
      | String c s' => if is_space c then key_value s' else None
      | EmptyString => None
      end
  end.

(** [re.findall]: matches are searched from left to right, each search
    starting where the previous match ended.  A match is never empty, so
    [String.length s + 1] units of [fuel] are enough for the text [s]. *)
Fixpoint findall_from (fuel : nat) (at_start : bool) (s : string)
  : list (string * string) :=
  match fuel with
  | O => []
  | S fuel' =>
      match match_here at_start s with
      | Some (key, value, rest) => (key, value) :: findall_from fuel' false rest
      | None =>
          match s with
          | EmptyString => []
          | String _ s' => findall_from fuel' false s'
          end
      end
  end.

Definition findall (s : string) : list (string * string) :=
  findall_from (S (String.length s)) true s.

(** The table [keys] of [_parse_port_info]: [keys.get(key, key)]. *)
Definition keys : list (string * string) :=
  [ ("title_f", "title"); ("title_p", "title"); ("locat", "file") ].

(** The body of the loop of [_parse_port_info], lines 228-249. *)
Definition parse_pair (info : dict) (kv : string * string) : dict :=
  let (key, value) := kv in
  let info := if lower key =? "title_f" then setitem info "opengl" (VBool true) else info in
  let info := if lower key =? "title_p" then setitem info "power" (VBool true) else info in
  let key := get_default keys (lower key) (lower key) in
  let value := if key =? "title" then replace "_" " " (drop_last2 value) else value in
  let value :=
    if contains "%20" value then replace ".." "." (replace "%20" "." value)
    else value in
  if key =? "runtype" then setitem info "rtr" (VBool true)
  else if key =? "genres" then
    setitem info key (VList (map VStr (split ","%char value)))
  else setitem info key (VStr value).

Definition _parse_port_info (text : string) : dict :=
  let info : dict :=
    [ ("title", VStr ""); ("desc", VStr ""); ("file", VStr "");
      ("porter", VStr ""); ("opengl", VBool false); ("power", VBool false);
      ("rtr", VBool false); ("genres", VList []) ] in
  fold_left parse_pair (findall (strip text)) info.

(** *** Time

    A naive [datetime] is a count of microseconds from a fixed origin; the
    ISO text stored in [last_checked] is kept in its decoded form.  A
    [timedelta] is normalised as Python does: [0 <= seconds < 86400] and
    [0 <= microseconds < 1000000], the sign being carried by [days]. *)

Local Open Scope Z_scope.

Definition datetime : Type := Z.

Record timedelta : Type := {
  days : Z;
  seconds : Z;
  microseconds : Z
}.

Definition DAY_US : Z := 86400 * 1000000.

(** [time_b - time_a] *)
Definition datetime_sub (time_b time_a : datetime) : timedelta :=
  let us := time_b - time_a in
  {| days := us / DAY_US;
     seconds := (us mod DAY_US) / 1000000;
     microseconds := us mod 1000000 |}.

(** [datetime_compare(time_a)], with [time_b] read from the clock. *)
Definition datetime_compare (time_a time_b : datetime) : Z :=
  seconds (datetime_sub time_b time_a).

Definition UPDATE_FREQUENCY : Z := 60 * 60 * 22.

Definition VERSION : Z := 2.

(** *** State *)

(** What [requests.get] answers. *)
Record Response : Type := {
  status_code : Z;
  json : result value;              (* r.json() *)
  text : string;                    (* r.text *)
  content_length : option string;   (* r.headers.get('content-length') *)
  iter_content : list string        (* the chunks of the body *)
}.

(** The persisted document of a source. *)
Record SourceConfig : Type := {
  cfg_prefix : string;
  cfg_api : string;
  cfg_name : string;
  cfg_url : string;
  cfg_last_checked : option datetime;
  cfg_version : Z;
  cfg_data : dict
}.

(** Everything outside the object: the network, the clock, the files. *)
Record World : Type := {
  http : string -> result Response;   (* [Raise]: no answer at all *)
  clock : nat -> datetime;            (* successive readings of now() *)
  ticks : nat;
  requested : list string;            (* URLs requested, oldest first *)
  documents : list (string * SourceConfig);
  disk : string -> option string      (* the files downloads are written to *)
}.

(** The attributes of a [PortMasterV1] object; [None] is an attribute not
    yet assigned. *)
Record Source : Type := {
  temp_dir : string;                (* self._hm.temp_dir *)
  _file_name : string;
  _config : SourceConfig;
  _prefix : string;
  _data : option value;
  _info : option value;
  ports : option value;
  utils : option value
}.

Record State : Type := {
  world : World;
  self : Source
}.

Definition with_world (f : World -> World) (st : State) : State :=
  {| world := f (world st); self := self st |}.

Definition with_self (f : Source -> Source) (st : State) : State :=
  {| world := world st; self := f (self st) |}.

Definition set_data (v : value) (s : Source) : Source :=
  {| temp_dir := temp_dir s; _file_name := _file_name s; _config := _config s;
     _prefix := _prefix s; _data := Some v; _info := _info s;
     ports := ports s; utils := utils s |}.

Definition set_info (v : value) (s : Source) : Source :=
  {| temp_dir := temp_dir s; _file_name := _file_name s; _config := _config s;
     _prefix := _prefix s; _data := _data s; _info := Some v;
     ports := ports s; utils := utils s |}.

Definition set_ports (v : value) (s : Source) : Source :=
  {| temp_dir := temp_dir s; _file_name := _file_name s; _config := _config s;
     _prefix := _prefix s; _data := _data s; _info := _info s;
     ports := Some v; utils := utils s |}.

Definition set_utils (v : value) (s : Source) : Source :=
  {| temp_dir := temp_dir s; _file_name := _file_name s; _config := _config s;
     _prefix := _prefix s; _data := _data s; _info := _info s;
     ports := ports s; utils := Some v |}.

Definition set_config (c : SourceConfig) (s : Source) : Source :=
  {| temp_dir := temp_dir s; _file_name := _file_name s; _config := c;
     _prefix := _prefix s; _data := _data s; _info := _info s;
     ports := ports s; utils := utils s |}.

Definition log_request (url : string) (w : World) : World :=
  {| http := http w; clock := clock w; ticks := ticks w;
     requested := requested w ++ [url];
     documents := documents w; disk := disk w |}.

Definition tick (w : World) : World :=
  {| http := http w; clock := clock w; ticks := S (ticks w);
     requested := requested w;
     documents := documents w; disk := disk w |}.

Definition set_documents (d : list (string * SourceConfig)) (w : World) : World :=
  {| http := http w; clock := clock w; ticks := ticks w;
     requested := requested w;
     documents := d; disk := disk w |}.

Definition set_disk (d : string -> option string) (w : World) : World :=
  {| http := http w; clock := clock w; ticks := ticks w;
     requested := requested w;
     documents := documents w; disk := d |}.

(** *** Methods as state transformers that may raise *)

Definition M (A : Type) : Type := State -> State * result A.

Definition ret {A} (a : A) : M A := fun st => (st, Ok a).

Definition raise {A} (e : exn) : M A := fun st => (st, Raise e).

Definition lift {A} (r : result A) : M A := fun st => (st, r).

Definition bindM {A B} (c : M A) (k : A -> M B) : M B :=
  fun st =>
    match c st with
    | (st', Ok a) => k a st'
    | (st', Raise e) => (st', Raise e)
    end.

Definition gets {A} (f : State -> A) : M A := fun st => (st, Ok (f st)).

Definition modify (f : State -> State) : M unit := fun st => (f st, Ok tt).

Notation "x <~ c ;; k" := (bindM c (fun x => k))
  (at level 61, c at next level, right associativity).
Notation "' pat <~ c ;; k" :=
  (bindM c (fun x => match x with pat => k end))
  (at level 61, pat pattern, c at next level, right associativity).
Notation "c ;;; k" := (bindM c (fun _ => k))
  (at level 61, right associativity).

Fixpoint for_each {A} (l : list A) (body : A -> M unit) : M unit :=
  match l with
  | [] => ret tt
  | x :: l' => body x ;;; for_each l' body
  end.

(** [datetime.datetime.now()] *)
Definition now : M datetime :=
  fun st => (with_world tick st, Ok (clock (world st) (ticks (world st)))).

(** [container[key]] for a string key: only a dictionary accepts it. *)
Definition py_getitem (container : value) (key : string) : result value :=
  match container with
  | VDict d => getitem d key
  | _ => Raise TypeError
  end.

(** [for x in v]: a list gives its elements, a dictionary its keys, a
    string its characters. *)
Definition py_iter (v : value) : result (list value) :=
  match v with
  | VList l => Ok l
  | VDict d => Ok (map (fun kv => VStr (fst kv)) d)
  | VStr s => Ok (map (fun c => VStr (String c EmptyString)) (list_ascii_of_string s))
  | _ => Raise TypeError
  end.

(** [requests.get(url)].  A URL that is not a string is refused by
    [requests] before anything is sent. *)
Definition request (url : value) : M Response :=
  match url with
  | VStr u =>
      modify (with_world (log_request u)) ;;;
      answer <~ gets (fun st => http (world st) u) ;;
      lift answer
  | _ => raise ValueError
  end.

Definition fetch (url : value) : M (option Response) :=
  r <~ request url ;;
  if status_code r =? 200 then ret (Some r) else ret None.

Definition fetch_json (url : value) : M (option value) :=
  r <~ fetch url ;;
  match r with
  | None => ret None
  | Some r => v <~ lift (json r) ;; ret (Some v)
  end.

Definition fetch_text (url : value) : M (option string) :=
  r <~ fetch url ;;
  match r with
  | None => ret None
  | Some r => ret (Some (text r))
  end.

(** [self.clean_name(text)] *)
Definition clean_name (v : value) : result string :=
  match v with
  | VStr s => Ok (lower s)
  | _ => Raise AttributeError
  end.

(** Reading an attribute of [self]; an unassigned one raises. *)
Definition attribute (f : Source -> option value) : M value :=
  fun st =>
    match f (self st) with
    | Some v => (st, Ok v)
    | None => (st, Raise AttributeError)
    end.

(** [container[key] = v] *)
Definition py_setitem (container : value) (key : string) (v : value) : result value :=
  match container with
  | VDict d => Ok (VDict (setitem d key v))
  | _ => Raise TypeError
  end.

(** [container.append(v)] *)
Definition py_append (container : value) (v : value) : result value :=
  match container with
  | VList l => Ok (VList (l ++ [v]))
  | _ => Raise AttributeError
  end.

(** Lines 167-177: the body of the loop over the assets. *)
Definition load_asset (asset : value) : M unit :=
  name <~ lift (py_getitem asset "name") ;;
  size <~ lift (py_getitem asset "size") ;;
  url <~ lift (py_getitem asset "browser_download_url") ;;
  let result := VDict [ ("name", name); ("size", size); ("url", url) ] in
  key <~ lift (clean_name name) ;;
  data <~ attribute _data ;;
  data <~ lift (py_setitem data key result) ;;
  modify (with_self (set_data data)) ;;;
  if endswith key ".squashfs" then
    utils <~ attribute utils ;;
    utils <~ lift (py_append utils (VStr key)) ;;
    modify (with_self (set_utils utils))
  else ret tt.

(** Lines 180-190: the body of the loop over the lines of [ports.md]. *)
Definition load_line (line : string) : M unit :=
  let line := strip line in
  if (line =? "")%string then ret tt
  else
    let info := _parse_port_info line in
    file <~ lift (getitem info "file") ;;
    info_key <~ lift (clean_name file) ;;
    infos <~ attribute _info ;;
    infos <~ lift (py_setitem infos info_key (VDict info)) ;;
    modify (with_self (set_info infos)) ;;;
    ports <~ attribute ports ;;
    ports <~ lift (py_append ports (VStr info_key)) ;;
    modify (with_self (set_ports ports)).

(** Lines 204-206 *)
Definition _save : M unit :=
  modify (fun st =>
    with_world
      (fun w => set_documents
                  (setitem (documents w) (_file_name (self st)) (_config (self st))) w)
      st).

(** Lines 192-199: the document is brought up to date in memory. *)
Definition stamp (ports utils info data : value) (last_checked : datetime)
  (c : SourceConfig) : SourceConfig :=
  {| cfg_prefix := cfg_prefix c;
     cfg_api := cfg_api c;
     cfg_name := cfg_name c;
     cfg_url := cfg_url c;
     cfg_last_checked := Some last_checked;
     cfg_version := VERSION;
     cfg_data :=
       setitem (setitem (setitem (setitem (cfg_data c)
         "ports" ports) "utils" utils) "info" info) "data" data |}.

(** Lines 159-177: the manifest is fetched and the catalog rebuilt.  A
    failed [fetch_json] hands back [None], which the subscript
    [data['assets']] rejects. *)
Definition fetch_catalog : M unit :=
  url <~ gets (fun st => cfg_url (_config (self st))) ;;
  data <~ fetch_json (VStr url) ;;
  modify (with_self (fun s =>
    set_utils (VList []) (set_ports (VList []) (set_info (VDict []) (set_data (VDict []) s))))) ;;;
  assets <~ lift (py_getitem (match data with Some d => d | None => VNone end) "assets") ;;
  assets <~ lift (py_iter assets) ;;
  for_each assets load_asset.

(** Lines 180-190: the metadata document is fetched and parsed.  A failed
    [fetch_text] hands back [None], which has no [split]. *)
Definition fetch_infos : M unit :=
  catalog <~ attribute _data ;;
  entry <~ lift (py_getitem catalog "ports.md") ;;
  url <~ lift (py_getitem entry "url") ;;
  text <~ fetch_text url ;;
  lines <~ lift (match text with
                 | Some t => Ok (split newline t)
                 | None => Raise AttributeError
                 end) ;;
  for_each lines load_line.

(** Lines 192-201: the document is stamped and written. *)
Definition persist : M unit :=
  ports <~ attribute ports ;;
  utils <~ attribute utils ;;
  info <~ attribute _info ;;
  data <~ attribute _data ;;
  t <~ now ;;
  modify (with_self (fun s => set_config (stamp ports utils info data t (_config s)) s)) ;;;
  _save.

(** [update()], lines 157-202 *)
Definition update : M unit :=
  fetch_catalog ;;; fetch_infos ;;; persist.

(** The object before [__init__] has assigned the catalog attributes. *)
Definition new_source (hm_temp_dir file_name : string) (config : SourceConfig) : Source :=
  {| temp_dir := hm_temp_dir;
     _file_name := file_name;
     _config := config;
     _prefix := cfg_prefix config;
     _data := None;
     _info := None;
     ports := None;
     utils := None |}.

(** Lines 149-152: the cached payload becomes the catalog. *)
Definition load_cache : M unit :=
  cache <~ gets (fun st => cfg_data (_config (self st))) ;;
  data <~ lift (getitem cache "data") ;;
  modify (with_self (set_data data)) ;;;
  info <~ lift (getitem cache "info") ;;
  modify (with_self (set_info info)) ;;;
  ports <~ lift (getitem cache "ports") ;;
  modify (with_self (set_ports ports)) ;;;
  utils <~ lift (getitem cache "utils") ;;
  modify (with_self (set_utils utils)).

(** [PortMasterV1.__init__], lines 133-152, after the four assignments
    that [new_source] makes. *)
Definition __init__ : M unit :=
  config <~ gets (fun st => _config (self st)) ;;
  if negb (cfg_version config =? VERSION) then update
  else
    match cfg_last_checked config with
    | None => update
    | Some last_checked =>
        t <~ now ;;
        if datetime_compare last_checked t >? UPDATE_FREQUENCY then update
        else load_cache
    end.

(** [port_info(port_name)], lines 254-257 *)
Definition port_info (port_name : string) : M value :=
  ports <~ attribute ports ;;
  found <~ lift (py_in port_name ports) ;;
  if negb found then raise AssertionError
  else
    info <~ attribute _info ;;
    lift (py_getitem info port_name).

(** *** [download] *)

(** The largest magnitude below which a quotient still rounds to a finite
    [float]: half a unit in the last place above the largest double. *)
Definition DBL_ROUNDS_TO_INF : Z := 2 ^ 1024 - 2 ^ 970.

(** [n / d] on two [int]s, [d] not zero, raises [OverflowError]: the
    quotient is rounded to the nearest double, ties to even, and the
    division fails when that is not a finite number. *)
Definition true_div_overflows (n d : Z) : bool :=
  DBL_ROUNDS_TO_INF * Z.abs d <=? Z.abs n.

Section Download.
(** [hashlib.md5] as the function from the bytes fed to the hex digest,
    and the builtin [int] on a string.  [locate] gives the file a path
    names once the operating system has resolved it ([..] steps, links);
    the files of the [disk] are told apart by it.  [progress_bar length
    total_length] stands for lines 293-295 once the ratio
    [length / total_length] has a divisor: the rounding of the ratio, its
    conversion back to an [int], and the bar of that many characters that
    is built and written, which can fail for want of range or of
    memory. *)
Variable md5_hexdigest : string -> string.
Variable int_of_str : string -> result Z.
Variable locate : string -> string.
Variable progress_bar : Z -> Z -> result unit.

(** A number usable in [total_length / 1024]. *)
Definition number (v : value) : result Z :=
  match v with
  | VInt n => Ok n
  | VBool b => Ok (if b then 1 else 0)
  | _ => Raise TypeError
  end.

Definition store (path : string) (content : option string)
  (d : string -> option string) : string -> option string :=
  fun p => if (p =? path)%string then content else d p.

(** [fh.write(data)] on the file [path] *)
Definition write (path data : string) (w : World) : World :=
  set_disk
    (store path
       (Some (match disk w path with Some c => c | None => EmptyString end ++ data))
       (disk w))
    w.

(** [zip_file.open('wb')]: the file is created or emptied. *)
Definition create (path : string) (w : World) : World :=
  set_disk (store path (Some EmptyString) (disk w)) w.

(** [zip_file.unlink()] *)
Definition unlink (path : string) (w : World) : World :=
  set_disk (store path None (disk w)) w.

(** Line 284: the size is shown in megabytes, [total_length / 1024 / 1024].
    The first division is one of two [int]s; the second divides a finite
    [float] and cannot fail. *)
Definition announce (total_length : Z) : result unit :=
  if true_div_overflows total_length 1024 then Raise OverflowError else Ok tt.

(** Lines 293-295, after a chunk: [length / total_length] is a division
    of two [int]s. *)
Definition progress (length total_length : Z) : result unit :=
  if total_length =? 0 then Raise ZeroDivisionError
  else progress_bar length total_length.

(** The progress display raises nothing at any chunk of [chunks], the
    count being [length] before the first. *)
Fixpoint shown (total_length : Z) (chunks : list string) (length : Z) : Prop :=
  match chunks with
  | [] => True
  | data :: rest =>
      progress (length + Z.of_nat (String.length data)) total_length = Ok tt /\
      shown total_length rest (length + Z.of_nat (String.length data))
  end.

(** Lines 288-295: [file] is the file the path was opened as, [fed] is
    what the digest object has been given, [length] the running byte
    count. *)
Fixpoint receive (file : string) (total_length : Z) (chunks : list string)
  (fed : string) (length : Z) : M (string * Z) :=
  match chunks with
  | [] => ret (fed, length)
  | data :: rest =>
      let fed := fed ++ data in
      modify (with_world (write file data)) ;;;
      let length := length + Z.of_nat (String.length data) in
      lift (progress length total_length) ;;;
      receive file total_length rest fed length
  end.

(** [download(port_name)], lines 260-307: [Some path] is the returned
    path, [None] the returned [None]. *)
Definition download (port_name : string) : M (option string) :=
  hm_temp_dir <~ gets (fun st => temp_dir (self st)) ;;
  let zip_file := truediv hm_temp_dir port_name in
  catalog <~ attribute _data ;;
  md5_entry <~ lift (py_getitem catalog (port_name ++ ".md5")) ;;
  md5_url <~ lift (py_getitem md5_entry "url") ;;
  md5_source <~ fetch_text md5_url ;;
  match md5_source with
  | None => ret None
  | Some md5_source =>
      let md5_source := strip md5_source in
      entry <~ lift (py_getitem catalog port_name) ;;
      url <~ lift (py_getitem entry "url") ;;
      r <~ request url ;;
      if negb (status_code r =? 200) then ret None
      else
        total_length <~ lift (match content_length r with
                              | None => size <- py_getitem entry "size" ;; number size
                              | Some s => int_of_str s
                              end) ;;
        lift (announce total_length) ;;;
        modify (with_world (create (locate zip_file))) ;;;
        '(fed, _) <~ receive (locate zip_file) total_length (iter_content r) "" 0 ;;
        let md5_file := md5_hexdigest fed in
        if negb (md5_file =? md5_source)%string then
          modify (with_world (unlink (locate zip_file))) ;;;
          ret None
        else ret (Some zip_file)
  end.
End Download.

(** *** Values used to state the properties *)

(** A string holding one double-quote character. *)
Definition dq : string := String quote EmptyString.

(** The line [Title_F=Q..Q Desc=Q..Q locat=Q..Q] of the parsing example,
    Q being the double quote. *)
Definition half_life_line : string :=
  ("Title_F=" ++ dq ++ "Half_Life ." ++ dq ++
   " Desc=" ++ dq ++ "A game" ++ dq ++
   " locat=" ++ dq ++ "halflife.zip" ++ dq)%string.

(** The bytes a download has received: the sum of the chunk lengths, as
    the loop of [download] counts them. *)
Definition received_bytes (chunks : list string) : Z :=
  fold_left (fun n data => n + Z.of_nat (String.length data)) chunks 0.

(** The catalog attributes of an object. *)
Definition catalog_of (s : Source) : option value * option value * option value * option value :=
  (_data s, _info s, ports s, utils s).

(** Every key of [ports] has a record in [_info]. *)
Definition ports_have_info (st : State) : Prop :=
  exists l d,
    ports (self st) = Some (VList l) /\ _info (self st) = Some (VDict d) /\
    forall key, In (VStr key) l -> has_key d key = true.

(** A cached document of schema version 2, last checked at [last_checked],
    whose payload lists one port. *)
Definition doom_info : value :=
  VDict [ ("title", VStr "Doom"); ("desc", VStr "A shooter"); ("file", VStr "doom.zip");
          ("porter", VStr ""); ("opengl", VBool false); ("power", VBool false);
          ("rtr", VBool false); ("genres", VList []) ].

Definition doom_catalog : value :=
  VDict [ ("doom.zip",
           VDict [ ("name", VStr "doom.zip"); ("size", VInt 3);
                   ("url", VStr "https://example.org/doom.zip") ]);
          ("doom.zip.md5",
           VDict [ ("name", VStr "doom.zip.md5"); ("size", VInt 4);
                   ("url", VStr "https://example.org/doom.zip.md5") ]) ].

Definition cached_config (last_checked : datetime) : SourceConfig :=
  {| cfg_prefix := "pm";
     cfg_api := "PortMasterV1";
     cfg_name := "PortMaster";
     cfg_url := "https://example.org/latest";
     cfg_last_checked := Some last_checked;
     cfg_version := 2;
     cfg_data :=
       [ ("ports", VList [VStr "doom.zip"]);
         ("utils", VList []);
         ("info", VDict [ ("doom.zip", doom_info) ]);
         ("data", doom_catalog) ] |}.

Definition respond (code : Z) (body : string) (length : option string)
  (chunks : list string) : Response :=
  {| status_code := code;
     json := Raise ValueError;
     text := body;
     content_length := length;
     iter_content := chunks |}.

(** A network on which every request is answered 404, and one that serves
    the archive of the port in two chunks next to its checksum file. *)
Definition nothing_served (url : string) : result Response :=
  Ok (respond 404 "" None []).

Definition doom_served (url : string) : result Response :=
  if (url =? "https://example.org/doom.zip.md5")%string
  then Ok (respond 200 ("abc" ++ String newline EmptyString) None [])
  else if (url =? "https://example.org/doom.zip")%string
  then Ok (respond 200 "" (Some "3") ["ab"; "c"]%string)
  else Ok (respond 404 "" None []).

(** A catalog that gives [doom.zip] the size 0, and a network that
    serves the archive in two chunks without a [content-length] header. *)
Definition zero_size_catalog : value :=
  VDict [ ("doom.zip",
           VDict [ ("name", VStr "doom.zip"); ("size", VInt 0);
                   ("url", VStr "https://example.org/doom.zip") ]);
          ("doom.zip.md5",
           VDict [ ("name", VStr "doom.zip.md5"); ("size", VInt 4);
                   ("url", VStr "https://example.org/doom.zip.md5") ]) ].

Definition unsized_served (url : string) : result Response :=
  if (url =? "https://example.org/doom.zip.md5")%string
  then Ok (respond 200 ("abc" ++ String newline EmptyString) None [])
  else if (url =? "https://example.org/doom.zip")%string
  then Ok (respond 200 "" None ["ab"; "c"]%string)
  else Ok (respond 404 "" None []).

(** A world whose clock reads [t] and whose only document was last
    checked at time 0. *)
Definition world_at (net : string -> result Response) (t : datetime) : World :=
  {| http := net;
     clock := fun _ => t;
     ticks := 0;
     requested := [];
     documents := [ ("pm.source.json", cached_config 0) ];
     disk := fun _ => None |}.

(** The object at the start of [__init__], and once the cache is loaded. *)
Definition starting (net : string -> result Response) (t : datetime) : State :=
  {| world := world_at net t;
     self := new_source "/tmp/hm" "pm.source.json" (cached_config 0) |}.

Definition loaded (net : string -> result Response) (t : datetime) : State :=
  {| world := world_at net t;
     self :=
       set_utils (VList [])
         (set_ports (VList [VStr "doom.zip"])
            (set_info (VDict [ ("doom.zip", doom_info) ])
               (set_data doom_catalog
                  (new_source "/tmp/hm" "pm.source.json" (cached_config 0))))) |}.

(** The object of [loaded] with the catalog [zero_size_catalog]. *)
Definition zero_sized : State :=
  with_self (set_data zero_size_catalog) (loaded unsized_served 0).

(** *** Relations between the state before and after a method *)

(** What a method run from [st] leaves in [st']: a request log that has
    only grown; or the same document, in memory and persisted, with the
    same network and files. *)
Definition requests_grow (st st' : State) : Prop :=
  exists more, requested (world st') = (requested (world st) ++ more)%list.

Definition same_document (st st' : State) : Prop :=
  _config (self st') = _config (self st) /\
  documents (world st') = documents (world st) /\
  http (world st') = http (world st) /\
  disk (world st') = disk (world st).

Definition keeps_ports_have_info (st st' : State) : Prop :=
  ports_have_info st -> ports_have_info st'.

(** [c] takes every state to one related to it by [R], however it ends. *)
Definition respects {A} (R : State -> State -> Prop) (c : M A) : Prop :=
  forall st, R st (fst (c st)).

(** All the bytes of a body. *)
Definition all_bytes (chunks : list string) : string :=
  fold_right String.append EmptyString chunks.

(** A network that serves a manifest whose metadata document is missing. *)
Definition manifest_served (url : string) : result Response :=
  if (url =? "https://example.org/latest")%string
  then Ok {| status_code := 200;
             json := Ok (VDict [ ("assets", VList [
                       VDict [ ("name", VStr "ports.md"); ("size", VInt 120);
                               ("browser_download_url",
                                VStr "https://example.org/ports.md") ];
                       VDict [ ("name", VStr "Mono.squashfs"); ("size", VInt 9);
                               ("browser_download_url",
                                VStr "https://example.org/mono.squashfs") ] ]) ]);
             text := EmptyString;
             content_length := None;
             iter_content := [] |}
  else Ok (respond 404 "" None []).

(** *** [portmd] *)

(** The truth value [if v:] tests. *)
Definition truthy (v : value) : bool :=
  match v with
  | VNone => false
  | VBool b => b
  | VInt n => negb (n =? 0)
  | VStr s => negb (s =? "")%string
  | VList l => match l with [] => false | _ :: _ => true end
  | VDict d => match d with [] => false | _ :: _ => true end
  end.

(** [' '.join(output)] *)
Fixpoint join_spaces (output : list string) : string :=
  match output with
  | [] => EmptyString
  | [piece] => piece
  | piece :: rest => (piece ++ " " ++ join_spaces rest)%string
  end.

(** [key=Qvalue Q], Q being the double quote. *)
Definition quoted (key value : string) : string :=
  (key ++ "=" ++ dq ++ value ++ dq)%string.

Section Portmd.
(** What an f-string prints for a value that is not a [str]. *)
Variable format : value -> string.

Definition formatted (v : value) : string :=
  match v with
  | VStr s => s
  | _ => format v
  end.

(** [info["title"].replace(" ", "_")] *)
Definition title_text (v : value) : result string :=
  match v with
  | VStr s => Ok (replace " " "_" s)
  | _ => Raise AttributeError
  end.

(** Lines 312-327, on the record [port_info] returned. *)
Definition render (info : value) : result string :=
  opengl <- py_getitem info "opengl" ;;
  head <- (if truthy opengl then Ok "Title_P"%string
           else power <- py_getitem info "power" ;;
                Ok (if truthy power then "Title_F" else "Title")%string) ;;
  title <- py_getitem info "title" ;;
  title <- title_text title ;;
  desc <- py_getitem info "desc" ;;
  porter <- py_getitem info "porter" ;;
  file <- py_getitem info "file" ;;
  rtr <- py_getitem info "rtr" ;;
  Ok (join_spaces
        ([ quoted head (title ++ " .");
           quoted "Desc" (formatted desc);
           quoted "porter" (formatted porter);
           quoted "locat" (formatted file) ]
         ++ (if truthy rtr then [ quoted "runtype" "rtr" ] else []))%list).

(** [portmd(port_name)], lines 310-327 *)
Definition portmd (port_name : string) : M string :=
  info <~ port_info port_name ;;
  lift (render info).
End Portmd.

(** *** Notions used to state further properties *)

(** No character of [s] is a double quote or a newline. *)
Fixpoint unquoted (s : string) : bool :=
  match s with
  | EmptyString => true
  | String c s' =>
      negb (Ascii.eqb c quote) && negb (Ascii.eqb c newline) && unquoted s'
  end.

(** A value [portmd] can print and [_parse_port_info] read back as it
    was: not empty, without double quote or newline, and without the
    escape the parser rewrites. *)
Definition printable (s : string) : bool :=
  negb (s =? "")%string && unquoted s && negb (contains "%20" s).

(** A title that survives the exchange of spaces and underscores. *)
Definition printable_title (s : string) : bool :=
  unquoted s && negb (contains "%20" s) && negb (contains "_" s).

(** The record [_parse_port_info] builds from these fields. *)
Definition port_record (title desc file porter : string)
  (opengl power rtr : bool) (genres : list value) : dict :=
  [ ("title", VStr title); ("desc", VStr desc); ("file", VStr file);
    ("porter", VStr porter); ("opengl", VBool opengl); ("power", VBool power);
    ("rtr", VBool rtr); ("genres", VList genres) ].

(** Requests and files are as before. *)
Definition same_requests (st st' : State) : Prop :=
  requested (world st') = requested (world st).


(** Every key of a dictionary value is in lower case. *)
Definition lower_keys (v : option value) : Prop :=
  exists d, v = Some (VDict d) /\ forall k, In k (map fst d) -> lower k = k.

(** Every entry of a list value is a lower-case string. *)
Definition lower_entries (v : option value) : Prop :=
  exists l, v = Some (VList l) /\
            forall x, In x l -> exists k, x = VStr k /\ lower k = k.

(** The catalog attributes name their entries in lower case, and every
    entry of [utils] is a key of the catalog that ends in [.squashfs]. *)
Definition catalog_named (st : State) : Prop :=
  lower_keys (_data (self st)) /\ lower_keys (_info (self st)) /\
  lower_entries (ports (self st)) /\ lower_entries (utils (self st)) /\
  forall d l k, _data (self st) = Some (VDict d) -> utils (self st) = Some (VList l) ->
                In (VStr k) l -> has_key d k = true /\ endswith k ".squashfs" = true.

Definition keeps_catalog_named (st st' : State) : Prop :=
  catalog_named st -> catalog_named st'.

(** The clock is as before. *)
Definition same_clock (st st' : State) : Prop :=
  ticks (world st') = ticks (world st) /\ clock (world st') = clock (world st).

(** *** What [_parse_port_info] always returns *)

(** The text fields are strings, [genres] is a list, and the three flags
    are present. *)
Definition parsed_shape (info : dict) : Prop :=
  (forall k, In k ["title"; "desc"; "file"; "porter"]%string ->
             exists s, get info k = Some (VStr s)) /\
  (exists l, get info "genres" = Some (VList l)) /\
  (forall k, In k ["opengl"; "power"; "rtr"]%string -> has_key info k = true).

(** The catalog index is as before. *)
Definition same_data (st st' : State) : Prop :=
  _data (self st') = _data (self st).

(** The object is still at the same place. *)
Definition same_names (st st' : State) : Prop :=
  temp_dir (self st') = temp_dir (self st) /\
  _file_name (self st') = _file_name (self st).

(** A network that serves the manifest and, as its metadata document, the
    one line of the parsing example; and an object about to be refreshed
    from it. *)
Definition metadata_served (url : string) : result Response :=
  if (url =? "https://example.org/ports.md")%string
  then Ok (respond 200 half_life_line None [])
  else manifest_served url.

Definition refreshing : State := starting metadata_served 0.



(** Every character of [s] satisfies [p]. *)
Fixpoint every (p : ascii -> bool) (s : string) : bool :=
  match s with
  | EmptyString => true
  | String c s' => p c && every p s'
  end.

(** [key=QvalueQ] followed by [rest], Q being the double quote. *)
Definition pair_text (key value rest : string) : string :=
  (key ++ String "="%char (String quote (value ++ String quote rest)))%string.

(** A text that [strip] leaves as it is on the right: it does not end in
    white space. *)
Definition solid (s : string) : Prop := rstrip s = s /\ s <> EmptyString.

(** An object whose catalog lists the one port [name], with the record
    [record]. *)
Definition listing (name : string) (record : dict) : State :=
  with_self (fun s => set_ports (VList [VStr name])
                        (set_info (VDict [(name, VDict record)]) s))
    (starting nothing_served 0).

End HarbourMaster.

(** * Properties *)

(** ** Dictionaries *)

Module DictFacts.
Import Py.

Section Mapping.
Context {A : Type}.
Implicit Types (d : list (string * A)) (k : string) (v : A).

Lemma get_setitem_same d k v : get (setitem d k v) k = Some v.
Proof.
  induction d as [|[k' v'] d IH]; simpl.
  - now rewrite String.eqb_refl.
  - destruct (k' =? k) eqn:E; simpl.
    + now rewrite String.eqb_refl.
    + now rewrite E.
Qed.

Lemma get_setitem_other d k k' v :
  k <> k' -> get (setitem d k' v) k = get d k.
Proof.
  intros Hne. induction d as [|[k0 v0] d IH]; simpl.
  - destruct (k' =? k) eqn:E; [apply String.eqb_eq in E; congruence | reflexivity].
  - destruct (k0 =? k') eqn:E; simpl.
    + apply String.eqb_eq in E; subst k0.
      destruct (k' =? k) eqn:E'; [apply String.eqb_eq in E'; congruence | reflexivity].
    + destruct (k0 =? k); [reflexivity | exact IH].
Qed.

Lemma setitem_unchanged d k v : get d k = Some v -> setitem d k v = d.
Proof.
  induction d as [|[k' v'] d IH]; simpl; [discriminate|].
  destruct (k' =? k) eqn:E.
  - apply String.eqb_eq in E; subst k'. now intros [= ->].
  - intros H. now rewrite IH.
Qed.

Lemma get_of_NoDup d k v :
  NoDup (map fst d) -> In (k, v) d -> get d k = Some v.
Proof.
  induction d as [|[k' v'] d IH]; simpl; [contradiction|].
  intros Hnd [Heq | Hin].
  - injection Heq as -> ->. now rewrite String.eqb_refl.
  - inversion Hnd as [|? ? Hnotin Hnd']; subst.
    destruct (k' =? k) eqn:E.
    + apply String.eqb_eq in E; subst k'.
      exfalso; apply Hnotin. change k with (fst (k, v)). now apply in_map.
    + now apply IH.
Qed.

Lemma has_key_get d k : has_key d k = true -> exists v, get d k = Some v.
Proof.
  unfold has_key. destruct (get d k) as [v|]; [eauto | discriminate].
Qed.
End Mapping.

End DictFacts.

(** ** Port metadata *)

Module InfoSpec.
Import Py Info DictFacts.

(** *** Frame of [port_info_merge] *)

Lemma merge_root_frame attrs other port_info k :
  ~ In k (merged_keys attrs) ->
  get (fst (merge_root attrs other port_info)) k = get port_info k.
Proof.
  revert port_info.
  induction attrs as [|[attr attr_default] rest IH]; intros port_info Hk; simpl in *.
  - reflexivity.
  - destruct (attr =? "attr"); [reflexivity|].
    simpl in Hk.
    destruct (get port_info attr) as [value_a|]; [|reflexivity].
    destruct (get (deref other port_info) attr) as [value_b|]; [|reflexivity].
    rewrite IH by tauto.
    destruct (merge_root_value value_a value_b); [|reflexivity].
    apply get_setitem_other. intros ->. tauto.
Qed.

Lemma merge_attr_step_frame key_b value_b port_info k :
  k <> "attr" ->
  get (fst (merge_attr_step key_b value_b port_info)) k = get port_info k.
Proof.
  intros Hk. unfold merge_attr_step.
  destruct (get port_info "attr") as [[| | | | |port_attr]|]; try reflexivity.
  destruct (get port_attr key_b) as [value_a|]; [|reflexivity].
  destruct (merge_attr_value value_a value_b); [|reflexivity].
  simpl. now apply get_setitem_other.
Qed.

Lemma merge_attr_frame other items port_info k :
  k <> "attr" ->
  get (fst (merge_attr other items port_info)) k = get port_info k.
Proof.
  intros Hk. revert port_info.
  induction items as [|[key_b stored] rest IH]; intros port_info; simpl.
  - reflexivity.
  - pose proof (merge_attr_step_frame key_b
                  (item_value other key_b stored port_info) port_info k Hk) as Hs.
    destruct (merge_attr_step key_b (item_value other key_b stored port_info) port_info)
      as [p [[]|e]]; simpl in *.
    + now rewrite IH.
    + exact Hs.
Qed.

Lemma port_info_merge_frame port_info other k :
  k <> "attr" -> ~ In k (merged_keys PORT_INFO_ROOT_ATTRS) ->
  get (fst (port_info_merge port_info other)) k = get port_info k.
Proof.
  intros Hk Hm. unfold port_info_merge.
  pose proof (merge_root_frame PORT_INFO_ROOT_ATTRS other port_info k Hm) as Hr.
  destruct (merge_root PORT_INFO_ROOT_ATTRS other port_info) as [p [[]|e]];
    simpl in *; [|exact Hr].
  destruct (get (deref other p) "attr") as [[| | | | |other_attr]|]; simpl; try exact Hr.
  now rewrite merge_attr_frame.
Qed.

(** C10.  Whatever [port_info] and [other] hold, and however the call
    ends, [port_info_merge] leaves the root fields [status] and [files] of
    [port_info] as they were: the loop over the root fields stops at
    [attr], which comes before them. *)
Theorem merge_keeps_status_and_files (port_info : dict) (other : other_ref) :
  get (fst (port_info_merge port_info other)) "status" = get port_info "status" /\
  get (fst (port_info_merge port_info other)) "files" = get port_info "files".
Proof.
  split; apply port_info_merge_frame; try discriminate;
    simpl; intuition discriminate.
Qed.

(** *** Populated fields *)

Lemma sticky_root value_a value_b :
  sticky value_a = true -> merge_root_value value_a value_b = None.
Proof.
  unfold sticky, merge_root_value, in_true_false_none, in_str_none,
    in_list_none, in_dict_none.
  destruct (is_none value_a), (eq_str value_a ""), (eq_empty_list value_a),
    (eq_empty_dict value_a), (in_true_false value_a); simpl; try discriminate.
  intros _. now rewrite !andb_false_r.
Qed.

Lemma sticky_attr value_a value_b :
  sticky value_a = true -> merge_attr_value value_a value_b = None.
Proof.
  unfold sticky, merge_attr_value, in_true_false_none, in_str_none,
    in_list_none, in_dict_none.
  destruct (is_none value_a), (eq_str value_a ""), (eq_empty_list value_a),
    (eq_empty_dict value_a), (in_true_false value_a); simpl; try discriminate.
  intros _. now rewrite !andb_false_r.
Qed.

Lemma merge_root_keeps attrs other port_info f v :
  get port_info f = Some v -> sticky v = true ->
  get (fst (merge_root attrs other port_info)) f = Some v.
Proof.
  revert port_info.
  induction attrs as [|[attr attr_default] rest IH]; intros port_info Hf Hv; simpl.
  - exact Hf.
  - destruct (attr =? "attr"); [exact Hf|].
    destruct (get port_info attr) as [value_a|] eqn:Ha; [|exact Hf].
    destruct (get (deref other port_info) attr) as [value_b|]; [|exact Hf].
    apply IH; [|exact Hv].
    destruct (merge_root_value value_a value_b) as [w|] eqn:Hm; [|exact Hf].
    destruct (String.eqb_spec f attr) as [->|Hne].
    + rewrite Hf in Ha. injection Ha as <-.
      rewrite sticky_root in Hm by exact Hv. discriminate.
    + now rewrite get_setitem_other.
Qed.

Lemma merge_attr_step_keeps key_b value_b port_info f v :
  attr_field port_info f = Some v -> sticky v = true ->
  attr_field (fst (merge_attr_step key_b value_b port_info)) f = Some v.
Proof.
  unfold attr_field, merge_attr_step. intros Hf Hv.
  destruct (get port_info "attr") as [[| | | | |port_attr]|] eqn:Ha;
    try discriminate.
  destruct (get port_attr key_b) as [value_a|] eqn:Hk; simpl;
    [|now rewrite Ha].
  destruct (merge_attr_value value_a value_b) as [w|] eqn:Hm; simpl;
    [|now rewrite Ha].
  rewrite get_setitem_same.
  destruct (String.eqb_spec f key_b) as [->|Hne].
  - rewrite Hf in Hk. injection Hk as <-.
    rewrite sticky_attr in Hm by exact Hv. discriminate.
  - now rewrite get_setitem_other.
Qed.

Lemma merge_attr_keeps other items port_info f v :
  attr_field port_info f = Some v -> sticky v = true ->
  attr_field (fst (merge_attr other items port_info)) f = Some v.
Proof.
  intros Hf Hv. revert port_info Hf.
  induction items as [|[key_b stored] rest IH]; intros port_info Hf; simpl.
  - exact Hf.
  - pose proof (merge_attr_step_keeps key_b
                  (item_value other key_b stored port_info) port_info f v Hf Hv) as Hs.
    destruct (merge_attr_step key_b (item_value other key_b stored port_info) port_info)
      as [p [[]|e]]; simpl in *.
    + now apply IH.
    + exact Hs.
Qed.

Lemma attr_field_frame (p q : dict) f :
  get p "attr" = get q "attr" -> attr_field p f = attr_field q f.
Proof. unfold attr_field. now intros ->. Qed.

(** A field of [port_info], root or attr, that holds a populated value
    other than a boolean (not null, not an empty string, sequence or
    record, and not equal to [True] or [False]) holds the same value after
    [port_info_merge], whatever [other] holds. *)
Lemma merge_keeps_populated_fields
  (port_info : dict) (other : other_ref) (f : string) (v : value) :
  sticky v = true ->
  (f <> "attr" -> get port_info f = Some v ->
   get (fst (port_info_merge port_info other)) f = Some v) /\
  (attr_field port_info f = Some v ->
   attr_field (fst (port_info_merge port_info other)) f = Some v).
Proof.
  intros Hv. split.
  - intros Hf Hget. unfold port_info_merge.
    pose proof (merge_root_keeps PORT_INFO_ROOT_ATTRS other port_info f v Hget Hv) as Hr.
    destruct (merge_root PORT_INFO_ROOT_ATTRS other port_info) as [p [[]|e]];
      simpl in *; [|exact Hr].
    destruct (get (deref other p) "attr") as [[| | | | |other_attr]|];
      simpl; try exact Hr.
    now rewrite merge_attr_frame.
  - intros Hget. unfold port_info_merge.
    assert (Hr : attr_field (fst (merge_root PORT_INFO_ROOT_ATTRS other port_info)) f
                 = Some v).
    { rewrite (attr_field_frame _ port_info); [exact Hget|].
      apply merge_root_frame. simpl. intuition discriminate. }
    destruct (merge_root PORT_INFO_ROOT_ATTRS other port_info) as [p [[]|e]];
      simpl in *; [|exact Hr].
    destruct (get (deref other p) "attr") as [[| | | | |other_attr]|];
      simpl; try exact Hr.
    now apply merge_attr_keeps.
Qed.

(** C2, as stated, fails: a boolean of [port_info] that is set is not at
    its sentinel, yet a boolean in [other] overwrites it.  Here [attr.rtr]
    is [True] in [port_info] and [False] in [other]. *)
Lemma merge_overwrites_set_boolean :
  ~ (forall (port_info other : dict) (f : string) (v : value),
       attr_field port_info f = Some v -> at_sentinel v = false ->
       attr_field (fst (port_info_merge port_info (Distinct other))) f = Some v).
Proof.
  intros claim.
  specialize (claim (record_with_rtr true) (record_with_rtr false)
                "rtr" (VBool true) eq_refl eq_refl).
  vm_compute in claim. discriminate.
Qed.

(** *** Merging a record with itself *)

Lemma merge_root_value_self v w : merge_root_value v v = Some w -> w = v.
Proof.
  unfold merge_root_value.
  repeat match goal with |- context [if ?c then _ else _] => destruct c end;
    congruence.
Qed.

Lemma merge_attr_value_self v w : merge_attr_value v v = Some w -> w = v.
Proof.
  unfold merge_attr_value.
  repeat match goal with |- context [if ?c then _ else _] => destruct c end;
    congruence.
Qed.

Lemma merge_root_self attrs other r :
  deref other r = r ->
  (forall k, In k (merged_keys attrs) -> has_key r k = true) ->
  merge_root attrs other r = (r, Ok tt).
Proof.
  intros Hd. induction attrs as [|[attr attr_default] rest IH]; intros Hk; simpl.
  - reflexivity.
  - simpl in Hk. destruct (attr =? "attr"); [reflexivity|].
    destruct (has_key_get r attr (Hk attr (or_introl eq_refl))) as [v Hv].
    rewrite Hd, Hv. cbv beta iota.
    assert (Hrest : forall k, In k (merged_keys rest) -> has_key r k = true)
      by (intros k Hin; apply Hk; now right).
    destruct (merge_root_value v v) as [w|] eqn:Hm; [|now apply IH].
    apply merge_root_value_self in Hm; subst w.
    rewrite (setitem_unchanged r attr v Hv). now apply IH.
Qed.

Lemma merge_attr_step_self r a key_b v :
  get r "attr" = Some (VDict a) -> get a key_b = Some v ->
  merge_attr_step key_b v r = (r, Ok tt).
Proof.
  intros Ha Hk. unfold merge_attr_step. rewrite Ha, Hk.
  destruct (merge_attr_value v v) as [w|] eqn:Hm; [|reflexivity].
  apply merge_attr_value_self in Hm; subst w.
  rewrite (setitem_unchanged a key_b v Hk).
  now rewrite (setitem_unchanged r "attr" (VDict a) Ha).
Qed.

Lemma merge_attr_self other r a items :
  get r "attr" = Some (VDict a) ->
  (forall k v, In (k, v) items -> get a k = Some v) ->
  merge_attr other items r = (r, Ok tt).
Proof.
  intros Ha. induction items as [|[key_b stored] rest IH]; intros Hin; simpl.
  - reflexivity.
  - assert (Hk : get a key_b = Some stored) by (apply Hin; now left).
    assert (Hv : item_value other key_b stored r = stored).
    { unfold item_value. destruct other; [reflexivity|].
      rewrite Ha. unfold get_default. now rewrite Hk. }
    rewrite Hv, (merge_attr_step_self r a key_b stored Ha Hk).
    apply IH. intros k v H. apply Hin. now right.
Qed.

(** C5.  For a record [r] in the canonical schema, [merge(r, r)] returns
    [r] unchanged, root fields and attr fields alike: both when the second
    argument is an equal record of its own and when it is the object [r]
    itself. *)
Theorem merge_idempotent (r : dict) :
  canonical r ->
  port_info_merge r (Distinct r) = (r, Ok tt) /\
  port_info_merge r SameObject = (r, Ok tt).
Proof.
  intros (Hv & Hn & Hi & Ho & a & Ha & Hnd).
  assert (Hkeys : forall k, In k (merged_keys PORT_INFO_ROOT_ATTRS) ->
                            has_key r k = true).
  { simpl. intros k [<-|[<-|[<-|[<-|[]]]]]; assumption. }
  assert (Hitems : forall k v, In (k, v) a -> get a k = Some v)
    by (intros k v; now apply get_of_NoDup).
  split; unfold port_info_merge.
  - rewrite (merge_root_self _ (Distinct r) r eq_refl Hkeys). simpl.
    rewrite Ha. now apply (merge_attr_self _ r a).
  - rewrite (merge_root_self _ SameObject r eq_refl Hkeys). simpl.
    rewrite Ha. now apply (merge_attr_self _ r a).
Qed.

Lemma merge_idempotent_witness :
  port_info_merge (record_with_rtr true) (Distinct (record_with_rtr true))
    = (record_with_rtr true, Ok tt) /\
  port_info_merge (record_with_rtr true) SameObject
    = (record_with_rtr true, Ok tt).
Proof.
  apply (merge_idempotent (record_with_rtr true)).
  unfold canonical. repeat (split; [reflexivity|]).
  eexists. split; [reflexivity|].
  simpl. repeat constructor; simpl; intuition discriminate.
Defined.

(** *** The sanitising loop *)

Local Open Scope list_scope.

Lemma nth_error_middle {A} (pre : list A) x post :
  nth_error (pre ++ x :: post) (List.length pre) = Some x.
Proof. induction pre; simpl; auto. Qed.

Lemma del_middle {A} (pre : list A) x post :
  del (pre ++ x :: post) (List.length pre) = pre ++ post.
Proof. induction pre; simpl; [reflexivity | now f_equal]. Qed.

Lemma sanitize_past_end items i :
  List.length items <= i -> sanitize items i = Ok items.
Proof.
  intros Hi. rewrite sanitize_equation_1.
  destruct (inspect (nth_error items i)) as [[v|] e].
  - exfalso. apply nth_error_None in Hi. congruence.
  - reflexivity.
Qed.

Lemma sanitize_step pre item post :
  sanitize (pre ++ VStr item :: post) (List.length pre) =
    if startswith item "/" then sanitize (pre ++ post) (List.length pre)
    else if startswith item "../" then sanitize (pre ++ post) (List.length pre)
    else if contains "/../" item then sanitize (pre ++ post) (List.length pre)
    else if item =? "" then sanitize (pre ++ post) (S (List.length pre))
    else sanitize (pre ++ VStr item :: post) (S (List.length pre)).
Proof.
  rewrite sanitize_equation_1 at 1.
  destruct (inspect (nth_error (pre ++ VStr item :: post) (List.length pre)))
    as [[v|] e]; pose proof e as e'; rewrite nth_error_middle in e';
    [|discriminate].
  injection e' as <-.
  simp sanitize. now rewrite del_middle.
Qed.

Lemma sanitize_step_other pre x post :
  is_str x = false ->
  sanitize (pre ++ x :: post) (List.length pre) = Raise AttributeError.
Proof.
  intros Hx. rewrite sanitize_equation_1.
  destruct (inspect (nth_error (pre ++ x :: post) (List.length pre)))
    as [[v|] e]; pose proof e as e'; rewrite nth_error_middle in e';
    [|discriminate].
  injection e' as <-.
  destruct x; try discriminate; now simp sanitize.
Qed.

(** The loop, started at index [List.length pre] of [pre ++ rest], leaves [pre]
    in place and does to [rest] what [scan] says. *)
Lemma sanitize_scan rest :
  forall pre,
    sanitize (pre ++ rest) (List.length pre) = (kept <- scan rest ;; Ok (pre ++ kept)).
Proof.
  induction rest as [rest IH] using (induction_ltof1 _ (@List.length value)).
  unfold ltof in IH. intros pre.
  destruct rest as [|x post].
  - simpl. apply sanitize_past_end. rewrite length_app. simpl. lia.
  - destruct x as [| | |item| |];
      try (rewrite sanitize_step_other by reflexivity; reflexivity).
    rewrite sanitize_step. simpl.
    destruct (startswith item "/"); [apply IH; simpl; lia|].
    destruct (startswith item "../"); [apply IH; simpl; lia|].
    destruct (contains "/../" item); [apply IH; simpl; lia|].
    simpl. destruct (item =? "").
    + destruct post as [|next post'].
      * apply sanitize_past_end. rewrite length_app. simpl. lia.
      * replace (pre ++ next :: post') with ((pre ++ [next]) ++ post')
          by (now rewrite <- app_assoc).
        replace (S (List.length pre)) with (List.length (pre ++ [next]))
          by (rewrite length_app; simpl; lia).
        rewrite IH by (simpl; lia).
        destruct (scan post'); simpl; [|reflexivity].
        now rewrite <- app_assoc.
    + replace (pre ++ VStr item :: post) with ((pre ++ [VStr item]) ++ post)
        by (now rewrite <- app_assoc).
      replace (S (List.length pre)) with (List.length (pre ++ [VStr item]))
        by (rewrite length_app; simpl; lia).
      rewrite IH by (simpl; lia).
      destruct (scan post); simpl; [|reflexivity].
      now rewrite <- app_assoc.
Qed.

(** Where no entry is the empty string, the loop keeps exactly the safe
    entries, in order. *)
Lemma scan_without_empty items :
  forallb nonempty_str items = true ->
  scan items = Ok (filter safe_item items).
Proof.
  induction items as [|x rest IH]; simpl; [reflexivity|].
  intros H. apply andb_true_iff in H as [Hx Hrest].
  destruct x as [| | |item| |]; try discriminate. simpl in Hx.
  destruct (item =? "") eqn:He; [discriminate|].
  change (safe_item (VStr item)) with (safe_path item).
  unfold safe_path. rewrite He, orb_false_r.
  destruct (startswith item "/" || startswith item "../" || contains "/../" item);
    simpl.
  - now apply IH.
  - now rewrite IH.
Qed.

Lemma sanitize_without_empty items :
  forallb nonempty_str items = true ->
  sanitize items 0 = Ok (filter safe_item items).
Proof.
  intros H. change (sanitize items 0) with (sanitize ([] ++ items) (List.length (@nil value))).
  rewrite sanitize_scan, scan_without_empty by exact H. reflexivity.
Qed.

(** *** Loading *)

Section Load.
Variable HM_GENRES : list string.
Variable read_json : string -> result value.

(** C7.  Loading the version-1 document [quake_v1] yields a record
    whose [name] is the trailing segment of the dropped [source], whose
    [status.md5] is the legacy top-level [md5], whose [attr.runtime] is
    null, and whose [version] is 2. *)
Theorem load_migrates_version_1 :
  exists r status,
    port_info_load HM_GENRES read_json (RawDict quake_v1) false = Ok (Some r) /\
    get r "name" = Some (VStr "Quake.zip") /\
    get r "source" = None /\
    get r "status" = Some (VDict status) /\
    get status "md5" = Some (VStr "abc123") /\
    attr_field r "runtime" = Some VNone /\
    get r "version" = Some (VInt 2).
Proof.
  eexists. eexists.
  split; [vm_compute; reflexivity|].
  repeat split; reflexivity.
Qed.

(** C3 on the inputs the specification lists: each of the four unsafe
    entries alone is dropped, and the safe one is retained. *)
Lemma sanitize_listed_examples :
  sanitize [VStr "/etc/passwd"] 0 = Ok [] /\
  sanitize [VStr "../secret"] 0 = Ok [] /\
  sanitize [VStr "a/../b"] 0 = Ok [] /\
  sanitize [VStr ""] 0 = Ok [] /\
  sanitize [VStr "sub/dir/file.txt"] 0 = Ok [VStr "sub/dir/file.txt"].
Proof. repeat split; reflexivity. Qed.

(** C3 fails on the code: the branch that deletes an empty entry goes on
    to [i += 1] where the three other branches [continue], so the entry
    that moves into the freed slot is never examined.  An absolute path
    placed after an empty string survives [port_info_load], in [items]
    and in [items_opt]. *)
Theorem load_keeps_unsafe_entry_after_empty :
  exists r,
    port_info_load HM_GENRES read_json
      (RawDict [ ("items", VList [VStr ""; VStr "/etc/passwd"]);
                 ("items_opt", VList [VStr ""; VStr "../secret"]) ])
      false = Ok (Some r) /\
    get r "items" = Some (VList [VStr "/etc/passwd"]) /\
    get r "items_opt" = Some (VList [VStr "../secret"]) /\
    safe_path "/etc/passwd" = false /\
    safe_path "../secret" = false.
Proof.
  eexists. split; [vm_compute; reflexivity|].
  repeat split; reflexivity.
Qed.
End Load.

End InfoSpec.

(** ** Catalog sources *)

Module HarbourMasterSpec.
Import Py HarbourMaster DictFacts.

(** *** The record grammar *)

Lemma span_shorter p s run rest :
  span p s = (run, rest) -> String.length rest <= String.length s.
Proof.
  revert run rest. induction s as [|c s IH]; simpl; intros run rest.
  - intros [= <- <-]. simpl. lia.
  - destruct (p c).
    + destruct (span p s) as [run' rest'] eqn:E. intros [= <- <-].
      specialize (IH _ _ eq_refl). lia.
    + intros [= <- <-]. simpl. lia.
Qed.

Lemma lazy_value_shorter s :
  forall value v rest,
    lazy_value value s = Some (v, rest) -> String.length rest < String.length s.
Proof.
  induction s as [|c s IH]; simpl; intros value v rest; [discriminate|].
  destruct (Ascii.eqb c newline); [discriminate|].
  destruct s as [|q s']; [discriminate|].
  destruct (Ascii.eqb q quote && lookahead s').
  - intros [= <- <-]. simpl. lia.
  - intros H. apply IH in H. simpl in *. lia.
Qed.

Lemma key_value_shorter s key value rest :
  key_value s = Some (key, value, rest) -> String.length rest < String.length s.
Proof.
  unfold key_value. destruct (span is_word s) as [k s1] eqn:Hspan.
  apply span_shorter in Hspan.
  destruct (String.eqb k ""); [discriminate|].
  destruct s1 as [|e [|q s2]]; try discriminate.
  destruct (Ascii.eqb e "=" && Ascii.eqb q quote); [|discriminate].
  destruct (lazy_value EmptyString s2) as [[v r]|] eqn:Hl; [|discriminate].
  intros [= <- <- <-]. apply lazy_value_shorter in Hl. simpl in *. lia.
Qed.

Lemma match_here_shorter at_start s key value rest :
  match_here at_start s = Some (key, value, rest) ->
  String.length rest < String.length s.
Proof.
  unfold match_here.
  destruct (if at_start then key_value s else None) as [[[k v] r]|] eqn:E.
  - intros [= <- <- <-]. destruct at_start; [|discriminate].
    now apply key_value_shorter in E.
  - destruct s as [|c s']; [discriminate|].
    destruct (is_space c); [|discriminate].
    intros H. apply key_value_shorter in H. simpl. lia.
Qed.

(** [findall] never runs out of fuel: with any amount above the length of
    the text the result is the same. *)
Lemma findall_from_enough fuel1 :
  forall fuel2 at_start s,
    String.length s < fuel1 -> String.length s < fuel2 ->
    findall_from fuel1 at_start s = findall_from fuel2 at_start s.
Proof.
  induction fuel1 as [|fuel1 IH]; intros [|fuel2] at_start s H1 H2; try lia.
  simpl.
  destruct (match_here at_start s) as [[[k v] r]|] eqn:E.
  - apply match_here_shorter in E. f_equal. apply IH; lia.
  - destruct s as [|c s']; [reflexivity|]. simpl in *. apply IH; lia.
Qed.

(** C6.  Parsing the line [half_life_line] yields the title with its two
    trailing characters dropped and underscores turned into spaces, the
    [opengl] flag set by the key [Title_F], the description, and the file
    named by [locat]. *)
Theorem parse_half_life_line :
  findall half_life_line =
    [ ("Title_F", "Half_Life ."); ("Desc", "A game"); ("locat", "halflife.zip") ]%string /\
  get (_parse_port_info half_life_line) "title" = Some (VStr "Half Life") /\
  get (_parse_port_info half_life_line) "opengl" = Some (VBool true) /\
  get (_parse_port_info half_life_line) "desc" = Some (VStr "A game") /\
  get (_parse_port_info half_life_line) "file" = Some (VStr "halflife.zip").
Proof. repeat split; vm_compute; reflexivity. Qed.

(** *** Methods and relations on states *)

Local Open Scope Z_scope.

Section Respects.
Variable R : State -> State -> Prop.
Hypothesis R_refl : forall st, R st st.
Hypothesis R_trans : forall a b c, R a b -> R b c -> R a c.

Lemma respects_ret {A} (a : A) : respects R (ret a).
Proof. intros st. apply R_refl. Qed.

Lemma respects_raise {A} e : respects R (@raise A e).
Proof. intros st. apply R_refl. Qed.

Lemma respects_lift {A} (r : result A) : respects R (lift r).
Proof. intros st. apply R_refl. Qed.

Lemma respects_gets {A} (f : State -> A) : respects R (gets f).
Proof. intros st. apply R_refl. Qed.

Lemma respects_attribute f : respects R (attribute f).
Proof.
  intros st. unfold attribute. destruct (f (self st)); apply R_refl.
Qed.

Lemma respects_modify f : (forall st, R st (f st)) -> respects R (modify f).
Proof. intros H st. apply H. Qed.

Lemma respects_now : (forall st, R st (with_world tick st)) -> respects R now.
Proof. intros H st. apply H. Qed.

Lemma respects_bind {A B} (c : M A) (k : A -> M B) :
  respects R c -> (forall a, respects R (k a)) -> respects R (bindM c k).
Proof.
  intros Hc Hk st. unfold bindM.
  specialize (Hc st). destruct (c st) as [st' [a|e]]; simpl in *.
  - eapply R_trans; [exact Hc | apply Hk].
  - exact Hc.
Qed.

Lemma respects_for_each {A} (l : list A) (body : A -> M unit) :
  (forall x, respects R (body x)) -> respects R (for_each l body).
Proof.
  intros Hb. induction l as [|x l IH]; simpl.
  - apply respects_ret.
  - apply respects_bind; [apply Hb | intros _; exact IH].
Qed.
End Respects.

(** Splits a method into its primitive steps, for a relation whose
    reflexivity and transitivity are [Hrefl] and [Htrans]. *)
Ltac respects_steps Hrefl Htrans :=
  repeat first
    [ apply (respects_bind _ Htrans); [ | intros]
    | apply (respects_ret _ Hrefl)
    | apply (respects_raise _ Hrefl)
    | apply (respects_lift _ Hrefl)
    | apply (respects_gets _ Hrefl)
    | apply (respects_attribute _ Hrefl)
    | apply (respects_for_each _ Hrefl Htrans); intros
    | match goal with
      | |- respects _ (match ?x with _ => _ end) => destruct x
      | |- respects _ (if ?b then _ else _) => destruct b
      | |- respects _ (let _ := _ in _) => cbv zeta
      end ].

(** **** The request log only grows *)

Lemma requests_grow_refl st : requests_grow st st.
Proof. exists []. now rewrite app_nil_r. Qed.

Lemma requests_grow_trans a b c :
  requests_grow a b -> requests_grow b c -> requests_grow a c.
Proof.
  intros [m1 H1] [m2 H2]. exists (m1 ++ m2)%list.
  now rewrite H2, H1, app_assoc.
Qed.

Ltac grows_steps := respects_steps requests_grow_refl requests_grow_trans.

Lemma modify_self_grows f : respects requests_grow (modify (with_self f)).
Proof. intros st. exists []. simpl. now rewrite app_nil_r. Qed.

Lemma log_request_grows u :
  respects requests_grow (modify (with_world (log_request u))).
Proof. intros st. now exists [u]. Qed.

Lemma tick_grows st : requests_grow st (with_world tick st).
Proof. exists []. simpl. now rewrite app_nil_r. Qed.

Lemma save_grows : respects requests_grow _save.
Proof. intros st. exists []. simpl. now rewrite app_nil_r. Qed.

Ltac grows_prims :=
  first [ apply modify_self_grows | apply log_request_grows
        | apply save_grows | apply respects_now; exact tick_grows ].

Lemma request_grows url : respects requests_grow (request url).
Proof. unfold request. destruct url; grows_steps; grows_prims. Qed.

Lemma load_asset_grows asset : respects requests_grow (load_asset asset).
Proof. unfold load_asset. grows_steps; grows_prims. Qed.

Lemma load_line_grows line : respects requests_grow (load_line line).
Proof. unfold load_line. grows_steps; grows_prims. Qed.

Ltac grows :=
  grows_steps;
  first [ grows_prims | apply request_grows
        | apply load_asset_grows | apply load_line_grows ].

Lemma fetch_catalog_grows : respects requests_grow fetch_catalog.
Proof. unfold fetch_catalog. grows. Qed.

Lemma fetch_infos_grows : respects requests_grow fetch_infos.
Proof. unfold fetch_infos. grows. Qed.

Lemma persist_grows : respects requests_grow persist.
Proof. unfold persist. grows. Qed.

(** **** The document is touched by [persist] only *)

Lemma same_document_refl st : same_document st st.
Proof. repeat split. Qed.

Lemma same_document_trans a b c :
  same_document a b -> same_document b c -> same_document a c.
Proof.
  intros (H1 & H2 & H3 & H4) (K1 & K2 & K3 & K4).
  repeat split; congruence.
Qed.

Ltac same_steps := respects_steps same_document_refl same_document_trans.

Lemma set_data_same v : respects same_document (modify (with_self (set_data v))).
Proof. intros st. repeat split. Qed.

Lemma set_info_same v : respects same_document (modify (with_self (set_info v))).
Proof. intros st. repeat split. Qed.

Lemma set_ports_same v : respects same_document (modify (with_self (set_ports v))).
Proof. intros st. repeat split. Qed.

Lemma set_utils_same v : respects same_document (modify (with_self (set_utils v))).
Proof. intros st. repeat split. Qed.

Lemma reset_same :
  respects same_document
    (modify (with_self (fun s =>
       set_utils (VList []) (set_ports (VList [])
         (set_info (VDict []) (set_data (VDict []) s)))))).
Proof. intros st. repeat split. Qed.

Lemma log_request_same u :
  respects same_document (modify (with_world (log_request u))).
Proof. intros st. repeat split. Qed.

Ltac same_prims :=
  first [ apply set_data_same | apply set_info_same | apply set_ports_same
        | apply set_utils_same | apply reset_same | apply log_request_same ].

Lemma request_same url : respects same_document (request url).
Proof. unfold request. destruct url; same_steps; same_prims. Qed.

Lemma load_asset_same asset : respects same_document (load_asset asset).
Proof. unfold load_asset. same_steps; same_prims. Qed.

Lemma load_line_same line : respects same_document (load_line line).
Proof. unfold load_line. same_steps; same_prims. Qed.

Ltac same :=
  same_steps;
  first [ same_prims | apply request_same
        | apply load_asset_same | apply load_line_same ].

Lemma fetch_catalog_same : respects same_document fetch_catalog.
Proof. unfold fetch_catalog. same. Qed.

Lemma fetch_infos_same : respects same_document fetch_infos.
Proof. unfold fetch_infos. same. Qed.

(** [persist] cannot fail once it has started to write. *)
Lemma persist_raises st st' e :
  persist st = (st', Raise e) -> st' = st.
Proof.
  unfold persist, bindM, attribute.
  destruct (ports (self st)); [|now intros [= <-]].
  destruct (utils (self st)); [|now intros [= <-]].
  destruct (_info (self st)); [|now intros [= <-]].
  destruct (_data (self st)); [|now intros [= <-]].
  discriminate.
Qed.

(** However [update] fails, the document is as before, in memory and on
    disk. *)
Lemma update_failure_keeps_document st st' e :
  update st = (st', Raise e) -> same_document st st'.
Proof.
  unfold update, bindM.
  pose proof (fetch_catalog_same st) as H1.
  destruct (fetch_catalog st) as [st1 [[]|e1]]; simpl in H1.
  - pose proof (fetch_infos_same st1) as H2.
    destruct (fetch_infos st1) as [st2 [[]|e2]]; simpl in H2.
    + intros H. apply persist_raises in H. subst st'.
      eapply same_document_trans; eassumption.
    + intros [= <- _]. eapply same_document_trans; eassumption.
  - now intros [= <- _].
Qed.

(** *** [update] when a fetch fails *)

Lemma update_manifest_failure st r :
  http (world st) (cfg_url (_config (self st))) = Ok r ->
  status_code r <> 200 ->
  exists st',
    update st = (st', Raise TypeError) /\
    catalog_of (self st')
      = (Some (VDict []), Some (VDict []), Some (VList []), Some (VList [])).
Proof.
  intros Hr Hs. apply Z.eqb_neq in Hs.
  eexists. split.
  - unfold update, fetch_catalog, fetch_json, fetch, request, bindM, gets,
      modify, lift, ret. simpl. rewrite Hr, Hs. simpl. reflexivity.
  - reflexivity.
Qed.

Lemma update_metadata_failure st st1 catalog entry u r :
  fetch_catalog st = (st1, Ok tt) ->
  _data (self st1) = Some catalog ->
  py_getitem catalog "ports.md" = Ok entry ->
  py_getitem entry "url" = Ok (VStr u) ->
  http (world st) u = Ok r ->
  status_code r <> 200 ->
  update st = (with_world (log_request u) st1, Raise AttributeError).
Proof.
  intros Hc Hd He Hu Hr Hs. apply Z.eqb_neq in Hs.
  pose proof (fetch_catalog_same st) as (_ & _ & Hhttp & _).
  rewrite Hc in Hhttp. simpl in Hhttp.
  unfold update, bindM at 1 2. rewrite Hc.
  unfold fetch_infos, fetch_text, fetch, request, attribute, bindM, gets,
    modify, lift, ret.
  rewrite Hd, He, Hu. simpl. rewrite Hhttp, Hr, Hs. reflexivity.
Qed.

(** What a failed fetch leads to, in general.  When the manifest fetch or
    the fetch of the metadata document fails, [update] ends with an
    exception and the document of the source is as before, in memory and
    persisted; the catalog index, the info index and the ports and utils
    lists have by then been emptied (and, for the second fetch, the
    catalog index and utils list rebuilt). *)
Lemma update_failed_fetch (st : State) :
  (forall st' e, update st = (st', Raise e) -> same_document st st') /\
  (forall r,
     http (world st) (cfg_url (_config (self st))) = Ok r ->
     status_code r <> 200 ->
     exists st',
       update st = (st', Raise TypeError) /\
       catalog_of (self st')
         = (Some (VDict []), Some (VDict []), Some (VList []), Some (VList []))) /\
  (forall st1 catalog entry u r,
     fetch_catalog st = (st1, Ok tt) ->
     _data (self st1) = Some catalog ->
     py_getitem catalog "ports.md" = Ok entry ->
     py_getitem entry "url" = Ok (VStr u) ->
     http (world st) u = Ok r ->
     status_code r <> 200 ->
     update st = (with_world (log_request u) st1, Raise AttributeError)).
Proof.
  split; [|split].
  - apply update_failure_keeps_document.
  - apply update_manifest_failure.
  - apply update_metadata_failure.
Qed.

Lemma update_failed_fetch_witness :
  same_document (loaded nothing_served 0) (fst (update (loaded nothing_served 0))) /\
  snd (update (loaded nothing_served 0)) = Raise TypeError /\
  snd (update (loaded manifest_served 0)) = Raise AttributeError.
Proof.
  split; [|split].
  - apply (proj1 (update_failed_fetch (loaded nothing_served 0))
             _ TypeError).
    vm_compute. reflexivity.
  - destruct (proj1 (proj2 (update_failed_fetch (loaded nothing_served 0)))
                (respond 404 "" None []) eq_refl) as (st' & Hu & _).
    + discriminate.
    + now rewrite Hu.
  - pose proof (proj2 (proj2 (update_failed_fetch (loaded manifest_served 0))))
      as Hmeta.
    erewrite Hmeta with (u := "https://example.org/ports.md"%string)
                        (r := respond 404 "" None []);
      [reflexivity | vm_compute; reflexivity .. | discriminate].
Defined.

(** C8.  The claim fails on the code at a failed manifest fetch.  With
    the catalog of [loaded] in memory and the manifest request answered
    404, [fetch_json] returns [None].  [update] does not test for it, as
    [download] does for [fetch_text]: it first empties the catalog index,
    the info index and both lists, and then fails with [TypeError] on
    [data['assets']].  The persisted document is as before; the catalog
    the object held is lost. *)
Theorem update_failed_fetch_loses_catalog :
  exists st',
    update (loaded nothing_served 0) = (st', Raise TypeError) /\
    catalog_of (self (loaded nothing_served 0))
      = (Some doom_catalog, Some (VDict [ ("doom.zip", doom_info) ]),
         Some (VList [VStr "doom.zip"]), Some (VList [])) /\
    catalog_of (self st')
      = (Some (VDict []), Some (VDict []), Some (VList []), Some (VList [])) /\
    documents (world st') = documents (world (loaded nothing_served 0)).
Proof.
  eexists. split; [vm_compute; reflexivity|].
  repeat split.
Qed.

(** *** [port_info] *)

Lemma in_ports_iff key l :
  existsb (fun x => eq_str x key) l = true <-> In (VStr key) l.
Proof.
  rewrite existsb_exists. split.
  - intros (x & Hin & Hx). destruct x; try discriminate.
    simpl in Hx. apply String.eqb_eq in Hx. now subst.
  - intros Hin. exists (VStr key). split; [exact Hin|].
    simpl. apply String.eqb_refl.
Qed.

(** C9.  With [ports] a list and [_info] a dictionary, [port_info(key)]
    fails, by its assertion, for a key that is not in [ports], and for a
    key in [ports] returns the record stored under it in [_info]; the
    object is left as it was. *)
Theorem port_info_found_or_fails (st : State) (l : list value) (d : dict)
  (key : string) :
  ports (self st) = Some (VList l) ->
  _info (self st) = Some (VDict d) ->
  (~ In (VStr key) l -> port_info key st = (st, Raise AssertionError)) /\
  (forall record, In (VStr key) l -> get d key = Some record ->
                  port_info key st = (st, Ok record)).
Proof.
  intros Hp Hi. split.
  - intros Hnot. unfold port_info, bindM, attribute, lift, raise.
    rewrite Hp. simpl.
    destruct (existsb (fun x => eq_str x key) l) eqn:E; [|reflexivity].
    apply in_ports_iff in E. contradiction.
  - intros record Hin Hget. unfold port_info, bindM, attribute, lift, raise.
    rewrite Hp. simpl.
    apply in_ports_iff in Hin. rewrite Hin. simpl.
    rewrite Hi. simpl. unfold getitem. now rewrite Hget.
Qed.

Lemma port_info_found_or_fails_witness :
  port_info "quake.zip" (loaded nothing_served 0)
    = (loaded nothing_served 0, Raise AssertionError) /\
  port_info "doom.zip" (loaded nothing_served 0)
    = (loaded nothing_served 0, Ok doom_info).
Proof.
  split.
  - apply (proj1 (port_info_found_or_fails (loaded nothing_served 0)
                    [VStr "doom.zip"] [("doom.zip", doom_info)] "quake.zip"
                    eq_refl eq_refl)).
    simpl. intros [H|[]]. discriminate.
  - apply (proj2 (port_info_found_or_fails (loaded nothing_served 0)
                    [VStr "doom.zip"] [("doom.zip", doom_info)] "doom.zip"
                    eq_refl eq_refl)).
    + simpl. now left.
    + reflexivity.
Defined.

(** **** Every listed port has a record *)

Lemma keeps_refl st : keeps_ports_have_info st st.
Proof. intros H. exact H. Qed.

Lemma keeps_trans a b c :
  keeps_ports_have_info a b -> keeps_ports_have_info b c ->
  keeps_ports_have_info a c.
Proof. unfold keeps_ports_have_info. auto. Qed.

Ltac keeps_steps := respects_steps keeps_refl keeps_trans.

Lemma set_data_keeps v :
  respects keeps_ports_have_info (modify (with_self (set_data v))).
Proof. intros st H. exact H. Qed.

Lemma set_utils_keeps v :
  respects keeps_ports_have_info (modify (with_self (set_utils v))).
Proof. intros st H. exact H. Qed.

Lemma log_request_keeps u :
  respects keeps_ports_have_info (modify (with_world (log_request u))).
Proof. intros st H. exact H. Qed.

Lemma tick_keeps st : keeps_ports_have_info st (with_world tick st).
Proof. intros H. exact H. Qed.

Lemma save_keeps : respects keeps_ports_have_info _save.
Proof. intros st H. exact H. Qed.

Lemma set_config_keeps f :
  respects keeps_ports_have_info
    (modify (with_self (fun s => set_config (f s) s))).
Proof. intros st H. exact H. Qed.

Ltac keeps_prims :=
  first [ apply set_data_keeps | apply set_utils_keeps | apply log_request_keeps
        | apply save_keeps | apply set_config_keeps
        | apply respects_now; exact tick_keeps ].

Lemma request_keeps url : respects keeps_ports_have_info (request url).
Proof. unfold request. destruct url; keeps_steps; keeps_prims. Qed.

Lemma load_asset_keeps asset : respects keeps_ports_have_info (load_asset asset).
Proof. unfold load_asset. keeps_steps; keeps_prims. Qed.

(** A line adds its key to [ports] after storing its record. *)
Lemma load_line_keeps line : respects keeps_ports_have_info (load_line line).
Proof.
  intros st (l & d & Hp & Hi & Hall).
  unfold load_line.
  destruct (strip line =? "")%string; [now exists l, d|].
  unfold bindM, lift, attribute, modify.
  destruct (getitem (_parse_port_info (strip line)) "file") as [file|e];
    [|now exists l, d].
  destruct (clean_name file) as [info_key|e]; [|now exists l, d].
  rewrite Hi. simpl. rewrite Hp. simpl.
  exists (l ++ [VStr info_key])%list, (setitem d info_key (VDict (_parse_port_info (strip line)))).
  repeat split.
  intros key Hin. apply in_app_or in Hin as [Hin|[Heq|[]]].
  - unfold has_key. destruct (String.eqb_spec key info_key) as [->|Hne].
    + now rewrite get_setitem_same.
    + rewrite get_setitem_other by exact Hne. now apply Hall.
  - injection Heq as <-. unfold has_key. now rewrite get_setitem_same.
Qed.

Lemma for_each_load_asset_keeps assets :
  respects keeps_ports_have_info (for_each assets load_asset).
Proof.
  apply (respects_for_each _ keeps_refl keeps_trans), load_asset_keeps.
Qed.

Lemma for_each_load_line_keeps lines :
  respects keeps_ports_have_info (for_each lines load_line).
Proof.
  apply (respects_for_each _ keeps_refl keeps_trans), load_line_keeps.
Qed.

Lemma fetch_infos_keeps : respects keeps_ports_have_info fetch_infos.
Proof.
  unfold fetch_infos. keeps_steps;
    first [keeps_prims | apply request_keeps | apply load_line_keeps].
Qed.

Lemma persist_keeps : respects keeps_ports_have_info persist.
Proof. unfold persist. keeps_steps; keeps_prims. Qed.

(** After [fetch_catalog] has run to its end, [ports] and [_info] are
    empty. *)
Lemma fetch_catalog_establishes st st1 :
  fetch_catalog st = (st1, Ok tt) -> ports_have_info st1.
Proof.
  unfold fetch_catalog.
  unfold bindM at 1 2 3. unfold gets at 1.
  destruct (fetch_json _ st) as [st0 [data|e]]; [|discriminate].
  unfold modify at 1.
  set (st0' := with_self _ st0).
  assert (H0 : ports_have_info st0').
  { exists [], []. repeat split. intros key []. }
  unfold bindM at 1. unfold lift at 1.
  destruct (py_getitem _ "assets") as [assets|e]; [|discriminate].
  unfold bindM at 1. unfold lift at 1.
  destruct (py_iter assets) as [assets'|e]; [|discriminate].
  intros H. pose proof (for_each_load_asset_keeps assets' st0' H0) as Hk.
  now rewrite H in Hk.
Qed.

(** A successful [update] leaves a record in [_info] for every key of
    [ports], so that [port_info] returns for each of them. *)
Lemma update_ports_have_info st st' :
  update st = (st', Ok tt) -> ports_have_info st'.
Proof.
  unfold update, bindM.
  destruct (fetch_catalog st) as [st1 [[]|e]] eqn:H1; [|discriminate].
  apply fetch_catalog_establishes in H1.
  pose proof (fetch_infos_keeps st1 H1) as H2.
  destruct (fetch_infos st1) as [st2 [[]|e]]; [|discriminate].
  simpl in H2. intros H. pose proof (persist_keeps st2 H2) as H3.
  now rewrite H in H3.
Qed.

(** *** The refresh decision of [__init__] *)

Lemma datetime_compare_within_a_day time_a time_b :
  0 <= time_b - time_a < DAY_US ->
  datetime_compare time_a time_b = (time_b - time_a) / 1000000.
Proof.
  intros H. unfold datetime_compare, datetime_sub. simpl.
  now rewrite Z.mod_small.
Qed.

(** [fetch_catalog] starts by requesting the URL of the source. *)
Lemma fetch_catalog_requests_manifest st :
  exists more,
    requested (world (fst (fetch_catalog st)))
    = (requested (world st) ++ cfg_url (_config (self st)) :: more)%list.
Proof.
  unfold fetch_catalog, fetch_json, fetch, request.
  unfold bindM, gets, modify, lift, ret. simpl.
  destruct (http (world st) (cfg_url (_config (self st)))) as [r|e];
    [|now exists []].
  destruct (status_code r =? 200).
  - destruct (json r) as [data|e]; [|now exists []].
    destruct (py_getitem data "assets") as [assets|e]; [|now exists []].
    destruct (py_iter assets) as [assets'|e]; [|now exists []].
    match goal with
    | |- context [for_each assets' load_asset ?s] =>
        destruct (respects_for_each _ requests_grow_refl requests_grow_trans
                    assets' load_asset load_asset_grows s) as [more Hmore];
        destruct (for_each assets' load_asset s) as [s' [[]|e]];
        simpl in *; rewrite Hmore; exists more;
        now rewrite <- app_assoc
    end.
  - now exists [].
Qed.

Lemma update_requests_manifest st :
  exists more,
    requested (world (fst (update st)))
    = (requested (world st) ++ cfg_url (_config (self st)) :: more)%list.
Proof.
  destruct (fetch_catalog_requests_manifest st) as [m1 H1].
  unfold update. unfold bindM at 1.
  destruct (fetch_catalog st) as [st1 [[]|e]]; simpl in H1; [|now exists m1].
  assert (Hrest : respects requests_grow (fetch_infos ;;; persist)).
  { apply (respects_bind _ requests_grow_trans);
      [apply fetch_infos_grows | intros _; apply persist_grows]. }
  destruct (Hrest st1) as [m2 H2].
  exists (m1 ++ m2)%list. rewrite H2, H1, <- app_assoc. reflexivity.
Qed.

Lemma load_cache_requests_nothing st :
  requested (world (fst (load_cache st))) = requested (world st).
Proof.
  unfold load_cache, bindM, gets, lift, modify.
  repeat match goal with
         | |- context [getitem ?d ?k] => destruct (getitem d k)
         end; reflexivity.
Qed.

Lemma load_cache_loads st data info ports utils :
  get (cfg_data (_config (self st))) "data" = Some data ->
  get (cfg_data (_config (self st))) "info" = Some info ->
  get (cfg_data (_config (self st))) "ports" = Some ports ->
  get (cfg_data (_config (self st))) "utils" = Some utils ->
  snd (load_cache st) = Ok tt /\
  catalog_of (self (fst (load_cache st)))
    = (Some data, Some info, Some ports, Some utils).
Proof.
  intros Hd Hi Hp Hu.
  unfold load_cache, bindM, gets, lift, modify, getitem. simpl.
  rewrite Hd. simpl. rewrite Hi. simpl. rewrite Hp. simpl. rewrite Hu.
  split; reflexivity.
Qed.

(** C1, as the code has it.  For a cached document of the current schema
    version whose [last_checked] lies less than a day back: when the
    whole seconds elapsed exceed the refresh threshold, construction runs
    [update], which requests the manifest; when they are at most the
    threshold, construction requests nothing and loads the cached
    payload. *)
Theorem init_refresh_decision (st : State) (last_checked : datetime) :
  cfg_version (_config (self st)) = VERSION ->
  cfg_last_checked (_config (self st)) = Some last_checked ->
  0 <= clock (world st) (ticks (world st)) - last_checked < DAY_US ->
  (UPDATE_FREQUENCY < (clock (world st) (ticks (world st)) - last_checked) / 1000000 ->
   __init__ st = update (with_world tick st) /\
   exists more,
     requested (world (fst (__init__ st)))
     = (requested (world st) ++ cfg_url (_config (self st)) :: more)%list) /\
  ((clock (world st) (ticks (world st)) - last_checked) / 1000000 <= UPDATE_FREQUENCY ->
   __init__ st = load_cache (with_world tick st) /\
   requested (world (fst (__init__ st))) = requested (world st) /\
   forall data info ports utils,
     get (cfg_data (_config (self st))) "data" = Some data ->
     get (cfg_data (_config (self st))) "info" = Some info ->
     get (cfg_data (_config (self st))) "ports" = Some ports ->
     get (cfg_data (_config (self st))) "utils" = Some utils ->
     snd (__init__ st) = Ok tt /\
     catalog_of (self (fst (__init__ st)))
       = (Some data, Some info, Some ports, Some utils)).
Proof.
  intros Hv Hl Hday.
  assert (Hinit : __init__ st =
                  if ((clock (world st) (ticks (world st)) - last_checked) / 1000000
                      >? UPDATE_FREQUENCY)
                  then update (with_world tick st)
                  else load_cache (with_world tick st)).
  { unfold __init__. unfold bindM at 1. unfold gets at 1.
    rewrite Hv, Hl. simpl. unfold bindM at 1. unfold now at 1.
    rewrite datetime_compare_within_a_day by exact Hday.
    now destruct (_ >? _). }
  split.
  - intros Hstale. apply Z.gtb_lt in Hstale. rewrite Hinit, Hstale.
    split; [reflexivity|].
    apply (update_requests_manifest (with_world tick st)).
  - intros Hfresh.
    assert (Hf : ((clock (world st) (ticks (world st)) - last_checked) / 1000000
                  >? UPDATE_FREQUENCY) = false).
    { destruct (_ >? _) eqn:E; [|reflexivity]. apply Z.gtb_lt in E. lia. }
    rewrite Hinit, Hf. split; [reflexivity|]. split.
    + apply (load_cache_requests_nothing (with_world tick st)).
    + intros data info ports utils. apply (load_cache_loads (with_world tick st)).
Qed.

Lemma init_refresh_decision_witness :
  __init__ (starting nothing_served 79201000000)
    = update (with_world tick (starting nothing_served 79201000000)) /\
  requested (world (fst (__init__ (starting nothing_served 79200000000)))) = [].
Proof.
  split.
  - apply (proj1 (init_refresh_decision (starting nothing_served 79201000000) 0
                    eq_refl eq_refl ltac:(vm_compute; split; congruence))).
    vm_compute. reflexivity.
  - apply (proj2 (init_refresh_decision (starting nothing_served 79200000000) 0
                    eq_refl eq_refl ltac:(vm_compute; split; congruence))).
    vm_compute. congruence.
Defined.

(** C1, as stated, fails at the threshold: a document last checked
    exactly [UPDATE_FREQUENCY] seconds ago is loaded from the cache, with
    no request, where [update] would have asked for the manifest. *)
Lemma init_at_threshold_loads_cache :
  ~ (forall st last_checked,
       cfg_version (_config (self st)) = VERSION ->
       cfg_last_checked (_config (self st)) = Some last_checked ->
       UPDATE_FREQUENCY * 1000000
         <= clock (world st) (ticks (world st)) - last_checked ->
       __init__ st = update (with_world tick st)).
Proof.
  intros claim.
  specialize (claim (starting nothing_served 79200000000) 0 eq_refl eq_refl
                ltac:(vm_compute; congruence)).
  apply (f_equal (fun r => requested (world (fst r)))) in claim.
  vm_compute in claim. discriminate.
Qed.

(** The elapsed time is read from the [seconds] field of the difference,
    which starts again from zero every day: a document last checked a day
    and an hour ago is taken for fresh. *)
Lemma init_after_a_day_loads_cache :
  datetime_compare 0 (90000 * 1000000) = 3600 /\
  requested (world (fst (__init__ (starting nothing_served (90000 * 1000000))))) = [].
Proof. split; vm_compute; reflexivity. Qed.

(** *** [download] *)

Lemma length_append (a b : string) :
  String.length (a ++ b) = (String.length a + String.length b)%nat.
Proof. induction a as [|c a IH]; simpl; [reflexivity | now rewrite IH]. Qed.

Lemma append_assoc (a b c : string) : ((a ++ b) ++ c = a ++ (b ++ c))%string.
Proof. induction a as [|x a IH]; simpl; [reflexivity | now rewrite IH]. Qed.

Lemma append_empty (a : string) : (a ++ "" = a)%string.
Proof. induction a as [|x a IH]; simpl; [reflexivity | now rewrite IH]. Qed.

Lemma received_bytes_from chunks n :
  fold_left (fun n data => n + Z.of_nat (String.length data)) chunks n
  = n + received_bytes chunks.
Proof.
  unfold received_bytes. revert n.
  induction chunks as [|data rest IH]; intros n; simpl; [lia|].
  rewrite IH, (IH (Z.of_nat _)). lia.
Qed.

Lemma received_bytes_cons data rest :
  received_bytes (data :: rest)
  = Z.of_nat (String.length data) + received_bytes rest.
Proof. unfold received_bytes. simpl. now rewrite received_bytes_from. Qed.

(** The size of what was written is the count of the bytes received. *)
Lemma all_bytes_length chunks :
  Z.of_nat (String.length (all_bytes chunks)) = received_bytes chunks.
Proof.
  induction chunks as [|data rest IH]; [reflexivity|].
  rewrite received_bytes_cons. simpl. rewrite length_append. lia.
Qed.

Section Download.
Variable md5_hexdigest : string -> string.
Variable int_of_str : string -> result Z.
Variable locate : string -> string.
Variable progress_bar : Z -> Z -> result unit.

(** The loop of [download] runs to its end when the progress display
    raises nothing: the file then holds what it held followed by the whole
    body, the digest has been fed the same bytes, and the count is their
    number. *)
Lemma receive_all file total_length chunks :
  forall fed length st content,
    shown progress_bar total_length chunks length ->
    disk (world st) file = Some content ->
    exists st',
      receive progress_bar file total_length chunks fed length st
        = (st', Ok ((fed ++ all_bytes chunks)%string,
                    length + received_bytes chunks)) /\
      disk (world st') file = Some (content ++ all_bytes chunks)%string /\
      self st' = self st.
Proof.
  induction chunks as [|data rest IH]; intros fed length st content Hshown Hfile.
  - exists st. simpl. rewrite !append_empty, Z.add_0_r. auto.
  - destruct Hshown as [Hnow Hrest].
    cbn [receive]. unfold bindM at 1. unfold modify at 1.
    unfold bindM at 1. unfold lift at 1. rewrite Hnow.
    destruct (IH (fed ++ data)%string (length + Z.of_nat (String.length data))
                (with_world (write file data) st)
                (content ++ data)%string Hrest) as (st' & Hrun & Hdisk & Hself).
    { simpl. unfold store. rewrite String.eqb_refl. now rewrite Hfile. }
    exists st'. rewrite Hrun, Hdisk, Hself, received_bytes_cons.
    cbn [all_bytes fold_right]. rewrite !append_assoc, Z.add_assoc.
    repeat split.
Qed.

(** The loop of [download] stops at the first chunk when the size to
    divide by is zero: the chunk has been written, and the division
    raises. *)
Lemma receive_zero_size file data rest fed length st :
  receive progress_bar file 0 (data :: rest) fed length st
  = (with_world (write file data) st, Raise ZeroDivisionError).
Proof. reflexivity. Qed.

(** The calls of [download] that reach the comparison.  When the checksum
    file and the archive are both served with status 200, the size can be
    shown and the progress display raises nothing, [download] compares the
    digest of the bytes received with the stripped text of the checksum
    file: if they differ the call returns [None] and the file is gone; if
    they are equal it returns the path, and the file there holds the bytes
    received, its size being their count. *)
Lemma download_verifies_checksum
  (st : State) (port_name : string) (catalog md5_entry entry : value)
  (md5_url url : string) (md5_response response : Response)
  (total_length : Z) :
  _data (self st) = Some catalog ->
  py_getitem catalog (port_name ++ ".md5") = Ok md5_entry ->
  py_getitem md5_entry "url" = Ok (VStr md5_url) ->
  http (world st) md5_url = Ok md5_response ->
  status_code md5_response = 200 ->
  py_getitem catalog port_name = Ok entry ->
  py_getitem entry "url" = Ok (VStr url) ->
  http (world st) url = Ok response ->
  status_code response = 200 ->
  match content_length response with
  | None => size <- py_getitem entry "size" ;; number size
  | Some s => int_of_str s
  end = Ok total_length ->
  announce total_length = Ok tt ->
  shown progress_bar total_length (iter_content response) 0 ->
  exists st',
    download md5_hexdigest int_of_str locate progress_bar port_name st
      = (st',
         Ok (if (md5_hexdigest (all_bytes (iter_content response))
                 =? strip (text md5_response))%string
             then Some (truediv (temp_dir (self st)) port_name)
             else None)) /\
    disk (world st') (locate (truediv (temp_dir (self st)) port_name))
      = (if (md5_hexdigest (all_bytes (iter_content response))
             =? strip (text md5_response))%string
         then Some (all_bytes (iter_content response))
         else None) /\
    Z.of_nat (String.length (all_bytes (iter_content response)))
      = received_bytes (iter_content response).
Proof.
  intros Hd Hme Hmu Hmr Hms He Hu Hr Hs Htotal Hannounce Hshown.
  set (zip_file := truediv (temp_dir (self st)) port_name).
  set (st1 := with_world (log_request md5_url) st).
  set (st2 := with_world (log_request url) st1).
  set (st3 := with_world (create (locate zip_file)) st2).
  destruct (receive_all (locate zip_file) total_length (iter_content response)
              EmptyString 0 st3 EmptyString Hshown) as (st4 & Hrun & Hdisk & Hself).
  { simpl. unfold store. now rewrite String.eqb_refl. }
  simpl in Hrun, Hdisk.
  assert (Hdl : download md5_hexdigest int_of_str locate progress_bar port_name st =
                if negb (md5_hexdigest (all_bytes (iter_content response))
                         =? strip (text md5_response))%string
                then (with_world (unlink (locate zip_file)) st4, Ok None)
                else (st4, Ok (Some zip_file))).
  { unfold download.
    unfold bindM at 1. unfold gets at 1.
    unfold bindM at 1. unfold attribute at 1. rewrite Hd.
    unfold bindM at 1. unfold lift at 1. rewrite Hme.
    unfold bindM at 1. unfold lift at 1. rewrite Hmu.
    unfold bindM at 1.
    assert (Hf1 : fetch_text (VStr md5_url) st = (st1, Ok (Some (text md5_response)))).
    { unfold fetch_text, fetch, request, bindM, modify, gets, lift, ret.
      simpl. rewrite Hmr, Hms. reflexivity. }
    rewrite Hf1.
    unfold bindM at 1. unfold lift at 1. rewrite He.
    unfold bindM at 1. unfold lift at 1. rewrite Hu.
    unfold bindM at 1.
    assert (Hf2 : request (VStr url) st1 = (st2, Ok response)).
    { unfold request, bindM, modify, gets, lift. simpl. now rewrite Hr. }
    rewrite Hf2, Hs.
    change (negb (200 =? 200)) with false. cbv iota.
    unfold bindM at 1. unfold lift at 1. rewrite Htotal.
    unfold bindM at 1. unfold lift at 1. rewrite Hannounce.
    unfold bindM at 1. unfold modify at 1.
    unfold bindM at 1.
    fold zip_file. fold st3. rewrite Hrun.
    unfold bindM, modify, ret.
    destruct (negb _); reflexivity. }
  destruct (md5_hexdigest (all_bytes (iter_content response))
            =? strip (text md5_response))%string; simpl in Hdl.
  - exists st4. rewrite Hdl. repeat split; [exact Hdisk|].
    apply all_bytes_length.
  - exists (with_world (unlink (locate zip_file)) st4). rewrite Hdl. repeat split.
    + simpl. unfold store. now rewrite String.eqb_refl.
    + apply all_bytes_length.
Qed.

(** C4.  The claim fails on the code where the size to divide by is zero.
    The catalog gives [doom.zip] the size 0 and the archive is served in
    two chunks without a [content-length] header: whatever the digest
    function, and so whether the digests would match or differ, [download]
    raises [ZeroDivisionError] at the first chunk.  It neither returns the
    path nor signals the failure of the comparison, which it never
    reaches, and the chunk written so far stays in the file, which is not
    deleted. *)
Theorem download_zero_size_keeps_partial_file :
  exists st',
    download md5_hexdigest int_of_str locate progress_bar "doom.zip" zero_sized
      = (st', Raise ZeroDivisionError) /\
    disk (world st') (locate "/tmp/hm/doom.zip") = Some "ab"%string.
Proof.
  exists (with_world (write (locate "/tmp/hm/doom.zip") "ab")
            (with_world (create (locate "/tmp/hm/doom.zip"))
               (with_world (log_request "https://example.org/doom.zip")
                  (with_world (log_request "https://example.org/doom.zip.md5")
                     zero_sized)))).
  split.
  - vm_compute. reflexivity.
  - cbn [with_world write create set_disk disk world]. unfold store.
    now rewrite !String.eqb_refl.
Qed.
End Download.

(** The archive of [doom_served] arrives in two chunks: with a matching
    digest the path is returned and the file holds the three bytes; with
    another digest [None] is returned and the file is gone. *)
Lemma download_verifies_checksum_example :
  (exists st',
     download (fun bytes => bytes) (fun _ => Ok 3) (fun path => path)
       (fun _ _ => Ok tt) "doom.zip" (loaded doom_served 0)
     = (st', Ok (Some "/tmp/hm/doom.zip"%string)) /\
     disk (world st') "/tmp/hm/doom.zip" = Some "abc"%string) /\
  (exists st',
     download (fun _ => "d41d8cd9"%string) (fun _ => Ok 3) (fun path => path)
       (fun _ _ => Ok tt) "doom.zip" (loaded doom_served 0)
     = (st', Ok None) /\
     disk (world st') "/tmp/hm/doom.zip" = None).
Proof.
  split.
  - destruct (download_verifies_checksum (fun bytes => bytes) (fun _ => Ok 3)
                (fun path => path) (fun _ _ => Ok tt)
                (loaded doom_served 0) "doom.zip" doom_catalog
                (VDict [ ("name", VStr "doom.zip.md5"); ("size", VInt 4);
                         ("url", VStr "https://example.org/doom.zip.md5") ])
                (VDict [ ("name", VStr "doom.zip"); ("size", VInt 3);
                         ("url", VStr "https://example.org/doom.zip") ])
                "https://example.org/doom.zip.md5" "https://example.org/doom.zip"
                (respond 200 ("abc" ++ String newline EmptyString) None [])
                (respond 200 "" (Some "3"%string) ["ab"; "c"]%string)
                3)
      as (st' & Hrun & Hdisk & _);
      try (vm_compute; reflexivity).
    + vm_compute. auto.
    + exists st'. split; [exact Hrun | exact Hdisk].
  - destruct (download_verifies_checksum (fun _ => "d41d8cd9"%string) (fun _ => Ok 3)
                (fun path => path) (fun _ _ => Ok tt)
                (loaded doom_served 0) "doom.zip" doom_catalog
                (VDict [ ("name", VStr "doom.zip.md5"); ("size", VInt 4);
                         ("url", VStr "https://example.org/doom.zip.md5") ])
                (VDict [ ("name", VStr "doom.zip"); ("size", VInt 3);
                         ("url", VStr "https://example.org/doom.zip") ])
                "https://example.org/doom.zip.md5" "https://example.org/doom.zip"
                (respond 200 ("abc" ++ String newline EmptyString) None [])
                (respond 200 "" (Some "3"%string) ["ab"; "c"]%string)
                3)
      as (st' & Hrun & Hdisk & _);
      try (vm_compute; reflexivity).
    + vm_compute. auto.
    + exists st'. split; [exact Hrun | exact Hdisk].
Qed.

(** An announced size beyond the range of a float stops [download] before
    the file is opened. *)
Lemma download_size_out_of_range :
  announce (2 ^ 1034) = Raise OverflowError /\
  announce (2 ^ 1034 - 2 ^ 980 - 1) = Ok tt.
Proof. split; vm_compute; reflexivity. Qed.

End HarbourMasterSpec.


(** ** Further properties of the catalog sources *)

Module HarbourMasterMore.
Import Py HarbourMaster DictFacts HarbourMasterSpec.
Local Open Scope Z_scope.

(** *** The age of a cached document *)

Lemma init_unfolded st last_checked :
  cfg_version (_config (self st)) = VERSION ->
  cfg_last_checked (_config (self st)) = Some last_checked ->
  __init__ st =
    if (datetime_compare last_checked (clock (world st) (ticks (world st)))
        >? UPDATE_FREQUENCY)
    then update (with_world tick st)
    else load_cache (with_world tick st).
Proof.
  intros Hv Hl. unfold __init__. unfold bindM at 1. unfold gets at 1.
  rewrite Hv, Hl. simpl. unfold bindM at 1. unfold now at 1.
  now destruct (_ >? _).
Qed.

Lemma datetime_compare_days time_a time_b k :
  datetime_compare time_a (time_b + k * DAY_US) = datetime_compare time_a time_b.
Proof.
  unfold datetime_compare, datetime_sub. simpl.
  replace (time_b + k * DAY_US - time_a) with (time_b - time_a + k * DAY_US) by lia.
  now rewrite Z.mod_add by (unfold DAY_US; lia).
Qed.

(** X1.  The age [__init__] looks at is the age modulo one day.  A cached
    document of the current schema version that was last checked any
    whole number of days, plus at most the refresh threshold, ago is
    loaded from the cache, and nothing is requested. *)
Theorem init_age_wraps_every_day (st : State) (last_checked : datetime) (k : Z) :
  cfg_version (_config (self st)) = VERSION ->
  cfg_last_checked (_config (self st)) = Some last_checked ->
  k * DAY_US <= clock (world st) (ticks (world st)) - last_checked
              <= k * DAY_US + UPDATE_FREQUENCY * 1000000 ->
  __init__ st = load_cache (with_world tick st) /\
  requested (world (fst (__init__ st))) = requested (world st).
Proof.
  intros Hv Hl Hage.
  rewrite (init_unfolded st last_checked Hv Hl).
  set (t := clock (world st) (ticks (world st))) in *.
  assert (Hc : datetime_compare last_checked t <= UPDATE_FREQUENCY).
  { replace t with ((t - k * DAY_US) + k * DAY_US) by lia.
    rewrite datetime_compare_days, datetime_compare_within_a_day
      by (unfold DAY_US, UPDATE_FREQUENCY in *; lia).
    apply Z.div_le_upper_bound; lia. }
  destruct (_ >? _) eqn:E; [apply Z.gtb_lt in E; lia|].
  split; [reflexivity|].
  apply (load_cache_requests_nothing (with_world tick st)).
Qed.

Lemma init_age_wraps_every_day_witness :
  requested (world (fst (__init__ (starting nothing_served (30 * 86400 * 1000000)))))
  = [].
Proof.
  apply (init_age_wraps_every_day (starting nothing_served (30 * 86400 * 1000000))
           0 30 eq_refl eq_refl).
  vm_compute. split; congruence.
Defined.

(** *** What [_parse_port_info] always returns *)

Lemma has_key_setitem (d : dict) k k' v :
  has_key d k = true -> has_key (setitem d k' v) k = true.
Proof.
  unfold has_key. intros H.
  destruct (String.eqb_spec k k') as [->|Hne].
  - now rewrite get_setitem_same.
  - now rewrite get_setitem_other.
Qed.

Lemma get_setitem_str (d : dict) k k' v :
  (exists s, get d k = Some (VStr s)) ->
  k <> k' \/ is_str v = true ->
  exists s, get (setitem d k' v) k = Some (VStr s).
Proof.
  intros Hs Hv. destruct (String.eqb_spec k k') as [->|Hne].
  - rewrite get_setitem_same. destruct Hv as [Hv|Hv]; [congruence|].
    destruct v; try discriminate. eauto.
  - now rewrite get_setitem_other.
Qed.

Lemma get_setitem_list (d : dict) k k' v :
  (exists l, get d k = Some (VList l)) ->
  k <> k' \/ is_list v = true ->
  exists l, get (setitem d k' v) k = Some (VList l).
Proof.
  intros Hs Hv. destruct (String.eqb_spec k k') as [->|Hne].
  - rewrite get_setitem_same. destruct Hv as [Hv|Hv]; [congruence|].
    destruct v; try discriminate. eauto.
  - now rewrite get_setitem_other.
Qed.

Lemma parsed_shape_setitem info k v :
  parsed_shape info ->
  (In k ["title"; "desc"; "file"; "porter"]%string -> is_str v = true) ->
  (k = "genres"%string -> is_list v = true) ->
  parsed_shape (setitem info k v).
Proof.
  intros (Hs & Hg & Hf) Hstr Hlist. repeat split.
  - intros k0 Hk0. apply get_setitem_str; [now apply Hs|].
    destruct (String.eqb_spec k0 k) as [->|Hne]; [right; now apply Hstr | now left].
  - apply get_setitem_list; [exact Hg|].
    destruct (String.eqb_spec "genres" k) as [<-|Hne]; [right; now apply Hlist | now left].
  - intros k0 Hk0. apply has_key_setitem. now apply Hf.
Qed.

Lemma parsed_shape_flag info k b :
  In k ["opengl"; "power"; "rtr"]%string ->
  parsed_shape info -> parsed_shape (setitem info k (VBool b)).
Proof.
  intros Hk H. apply parsed_shape_setitem; [exact H| |].
  - simpl in *. intros [E|[E|[E|[E|[]]]]]; subst k;
      destruct Hk as [E|[E|[E|[]]]]; discriminate.
  - intros ->. simpl in Hk. destruct Hk as [E|[E|[E|[]]]]; discriminate.
Qed.

Lemma parse_pair_shape info kv :
  parsed_shape info -> parsed_shape (parse_pair info kv).
Proof.
  intros H. destruct kv as [key value]. unfold parse_pair. cbv zeta.
  assert (H2 : parsed_shape
                 (if (lower key =? "title_p")%string
                  then setitem
                         (if (lower key =? "title_f")%string
                          then setitem info "opengl" (VBool true) else info)
                         "power" (VBool true)
                  else if (lower key =? "title_f")%string
                       then setitem info "opengl" (VBool true) else info)).
  { destruct (lower key =? "title_p")%string, (lower key =? "title_f")%string;
      repeat apply parsed_shape_flag; simpl; auto. }
  match goal with
  | |- parsed_shape (if _ then setitem ?i _ _ else _) =>
      assert (H2' : parsed_shape i) by exact H2;
      clear H2; revert H2'; generalize i
  end.
  intros info2 H2.
  generalize (get_default keys (lower key) (lower key)). intros key'.
  match goal with
  | |- parsed_shape (if _ then _ else if _ then _ else setitem _ _ (VStr ?v)) =>
      generalize v
  end.
  intros value2.
  match goal with
  | |- parsed_shape (if _ then _ else if _ then setitem _ _ (VList ?l) else _) =>
      generalize l
  end.
  intros genres.
  destruct (String.eqb_spec key' "runtype") as [->|Hr].
  - apply parsed_shape_flag; simpl; auto.
  - destruct (String.eqb_spec key' "genres") as [->|Hg].
    + apply parsed_shape_setitem; [exact H2| |reflexivity].
      simpl. intros [E|[E|[E|[E|[]]]]]; discriminate.
    + apply parsed_shape_setitem; [exact H2|reflexivity|contradiction].
Qed.

Lemma start_shape :
  parsed_shape (port_record "" "" "" "" false false false []).
Proof.
  repeat split.
  - simpl. intros k [<-|[<-|[<-|[<-|[]]]]]; simpl; eauto.
  - simpl. eauto.
  - simpl. intros k [<-|[<-|[<-|[]]]]; reflexivity.
Qed.

Lemma parse_pairs_shape pairs :
  forall info, parsed_shape info -> parsed_shape (fold_left parse_pair pairs info).
Proof.
  induction pairs as [|kv rest IH]; intros info H; simpl; [exact H|].
  apply IH, parse_pair_shape, H.
Qed.

(** X2.  Whatever the line holds, the record [_parse_port_info] returns has
    its four text fields as strings, [genres] as a list and the three
    flags present: no key is ever removed and no text field changes
    type. *)
Theorem parse_port_info_shape (text : string) :
  parsed_shape (_parse_port_info text).
Proof.
  unfold _parse_port_info.
  generalize (findall (strip text)). intros pairs.
  apply parse_pairs_shape. exact start_shape.
Qed.

(** *** The names of the catalog *)

Lemma lower_char_idempotent c : lower_char (lower_char c) = lower_char c.
Proof. destruct c as [[] [] [] [] [] [] [] []]; reflexivity. Qed.

Lemma lower_idempotent s : lower (lower s) = lower s.
Proof.
  induction s as [|c s IH]; simpl; [reflexivity|].
  now rewrite lower_char_idempotent, IH.
Qed.

Lemma in_keys_setitem {A} (d : list (string * A)) k v k0 :
  In k0 (map fst (setitem d k v)) -> k0 = k \/ In k0 (map fst d).
Proof.
  induction d as [|[k' v'] d IH]; simpl.
  - intros [<-|[]]. now left.
  - destruct (k' =? k)%string eqn:E; simpl.
    + apply String.eqb_eq in E; subst k'. intros [<-|H]; auto.
    + intros [<-|H]; [auto|]. destruct (IH H); auto.
Qed.

Ltac named_split :=
  split; [|split; [|split; [|split; [|intros d' l' k' Hd' Hl' Hk'; simpl in Hd', Hl']]]];
  simpl; try assumption.

Lemma named_set_data st d key v :
  catalog_named st -> _data (self st) = Some (VDict d) -> lower key = key ->
  catalog_named (with_self (set_data (VDict (setitem d key v))) st).
Proof.
  intros (Hd & Hi & Hp & Hu & Hin) Hdata Hkey. named_split.
  - exists (setitem d key v). split; [reflexivity|].
    intros k Hk. apply in_keys_setitem in Hk as [->|Hk]; [exact Hkey|].
    destruct Hd as (d0 & E & Hall). rewrite Hdata in E. injection E as <-.
    now apply Hall.
  - injection Hd' as <-.
    destruct (Hin d l' k' Hdata Hl' Hk') as [Hk Hend].
    split; [now apply has_key_setitem | exact Hend].
Qed.

Lemma named_add_util st d l key :
  catalog_named st -> _data (self st) = Some (VDict d) ->
  utils (self st) = Some (VList l) ->
  has_key d key = true -> lower key = key -> endswith key ".squashfs" = true ->
  catalog_named (with_self (set_utils (VList (l ++ [VStr key]))) st).
Proof.
  intros (Hd & Hi & Hp & Hu & Hin) Hdata Hutils Hhas Hkey Hend. named_split.
  - exists (l ++ [VStr key])%list. split; [reflexivity|].
    intros x Hx. apply in_app_or in Hx as [Hx|[<-|[]]]; [|eauto].
    destruct Hu as (l0 & E & Hall). rewrite Hutils in E. injection E as <-.
    now apply Hall.
  - rewrite Hdata in Hd'. injection Hd' as <-. injection Hl' as <-.
    apply in_app_or in Hk' as [Hk'|[E|[]]].
    + exact (Hin d l k' Hdata Hutils Hk').
    + injection E as <-. now split.
Qed.

Lemma named_set_info st d key v :
  catalog_named st -> _info (self st) = Some (VDict d) -> lower key = key ->
  catalog_named (with_self (set_info (VDict (setitem d key v))) st).
Proof.
  intros (Hd & Hi & Hp & Hu & Hin) Hinfo Hkey. named_split.
  - exists (setitem d key v). split; [reflexivity|].
    intros k Hk. apply in_keys_setitem in Hk as [->|Hk]; [exact Hkey|].
    destruct Hi as (d0 & E & Hall). rewrite Hinfo in E. injection E as <-.
    now apply Hall.
  - exact (Hin d' l' k' Hd' Hl' Hk').
Qed.

Lemma named_add_port st l key :
  catalog_named st -> ports (self st) = Some (VList l) -> lower key = key ->
  catalog_named (with_self (set_ports (VList (l ++ [VStr key]))) st).
Proof.
  intros (Hd & Hi & Hp & Hu & Hin) Hports Hkey. named_split.
  - exists (l ++ [VStr key])%list. split; [reflexivity|].
    intros x Hx. apply in_app_or in Hx as [Hx|[<-|[]]]; [|eauto].
    destruct Hp as (l0 & E & Hall). rewrite Hports in E. injection E as <-.
    now apply Hall.
  - exact (Hin d' l' k' Hd' Hl' Hk').
Qed.

Lemma keeps_named_refl st : keeps_catalog_named st st.
Proof. intros H. exact H. Qed.

Lemma keeps_named_trans a b c :
  keeps_catalog_named a b -> keeps_catalog_named b c -> keeps_catalog_named a c.
Proof. unfold keeps_catalog_named. auto. Qed.

Lemma load_asset_named asset :
  respects keeps_catalog_named (load_asset asset).
Proof.
  intros st Hn. unfold load_asset, bindM, lift, attribute, modify.
  destruct (py_getitem asset "name") as [name|e]; [|exact Hn].
  destruct (py_getitem asset "size") as [size|e]; [|exact Hn].
  destruct (py_getitem asset "browser_download_url") as [url|e]; [|exact Hn].
  destruct name as [| | |name| |]; try exact Hn. simpl.
  pose proof Hn as (Hd & _ & _ & Hu & _).
  destruct Hd as (d & Hd & _). destruct Hu as (l & Hu & _).
  rewrite Hd. simpl.
  assert (H1 : catalog_named
                 (with_self (set_data (VDict (setitem d (lower name)
                    (VDict [("name", VStr name); ("size", size); ("url", url)])))) st))
    by (apply named_set_data; auto using lower_idempotent).
  destruct (endswith (lower name) ".squashfs") eqn:Hend; [|exact H1].
  simpl. rewrite Hu. simpl.
  apply (named_add_util _ (setitem d (lower name)
           (VDict [("name", VStr name); ("size", size); ("url", url)]))
           l (lower name) H1 eq_refl Hu);
    auto using lower_idempotent.
  unfold has_key. now rewrite get_setitem_same.
Qed.

(** A line of the metadata document cannot make [load_line] fail. *)
Lemma load_line_named line st :
  catalog_named st ->
  exists st', load_line line st = (st', Ok tt) /\ catalog_named st'.
Proof.
  intros Hn. unfold load_line.
  destruct (strip line =? "")%string; [now exists st|].
  assert (Hshape : parsed_shape (_parse_port_info (strip line)))
    by exact (parse_pairs_shape _ _ start_shape).
  destruct Hshape as (Hs & _ & _).
  destruct (Hs "file"%string) as [file Hfile]; [simpl; auto|].
  unfold bindM, lift, attribute, modify, getitem. rewrite Hfile. simpl.
  pose proof Hn as (_ & Hi & Hp & _ & _).
  destruct Hi as (d & Hi & _). destruct Hp as (l & Hp & _).
  rewrite Hi. simpl. rewrite Hp. simpl.
  eexists. split; [reflexivity|].
  apply (named_add_port _ l (lower file)); [|exact Hp|apply lower_idempotent].
  apply named_set_info; auto using lower_idempotent.
Qed.

Lemma for_each_load_line_named lines :
  forall st, catalog_named st ->
  exists st', for_each lines load_line st = (st', Ok tt) /\ catalog_named st'.
Proof.
  induction lines as [|line rest IH]; intros st Hn; simpl.
  - now exists st.
  - destruct (load_line_named line st Hn) as (st1 & H1 & Hn1).
    unfold bindM. rewrite H1. now apply IH.
Qed.

(** *** What [update] leaves behind *)

Lemma same_requests_refl st : same_requests st st.
Proof. reflexivity. Qed.

Lemma same_requests_trans a b c :
  same_requests a b -> same_requests b c -> same_requests a c.
Proof. unfold same_requests. congruence. Qed.

Lemma same_clock_refl st : same_clock st st.
Proof. split; reflexivity. Qed.

Lemma same_clock_trans a b c :
  same_clock a b -> same_clock b c -> same_clock a c.
Proof. unfold same_clock. intros [] []. split; congruence. Qed.

Lemma modify_self_same_requests f :
  respects same_requests (modify (with_self f)).
Proof. intros st. reflexivity. Qed.

Lemma modify_self_same_clock f : respects same_clock (modify (with_self f)).
Proof. intros st. split; reflexivity. Qed.

Lemma log_request_same_clock u :
  respects same_clock (modify (with_world (log_request u))).
Proof. intros st. split; reflexivity. Qed.

Lemma load_asset_same_requests asset : respects same_requests (load_asset asset).
Proof.
  unfold load_asset.
  respects_steps same_requests_refl same_requests_trans;
    apply modify_self_same_requests.
Qed.

Lemma load_line_same_requests line : respects same_requests (load_line line).
Proof.
  unfold load_line.
  respects_steps same_requests_refl same_requests_trans;
    apply modify_self_same_requests.
Qed.

Lemma request_same_clock url : respects same_clock (request url).
Proof.
  unfold request. destruct url;
    respects_steps same_clock_refl same_clock_trans;
    apply log_request_same_clock.
Qed.

Lemma load_asset_same_clock asset : respects same_clock (load_asset asset).
Proof.
  unfold load_asset.
  respects_steps same_clock_refl same_clock_trans; apply modify_self_same_clock.
Qed.

Lemma load_line_same_clock line : respects same_clock (load_line line).
Proof.
  unfold load_line.
  respects_steps same_clock_refl same_clock_trans; apply modify_self_same_clock.
Qed.

Lemma fetch_catalog_same_clock : respects same_clock fetch_catalog.
Proof.
  unfold fetch_catalog.
  respects_steps same_clock_refl same_clock_trans;
    first [ apply modify_self_same_clock | apply log_request_same_clock
          | apply request_same_clock | apply load_asset_same_clock ].
Qed.

Lemma fetch_infos_same_clock : respects same_clock fetch_infos.
Proof.
  unfold fetch_infos.
  respects_steps same_clock_refl same_clock_trans;
    first [ apply log_request_same_clock | apply request_same_clock
          | apply load_line_same_clock ].
Qed.

(** A [fetch_catalog] that runs to its end has made one request, for the
    URL of the source, and names the catalog in lower case. *)
Lemma fetch_catalog_done st st1 :
  fetch_catalog st = (st1, Ok tt) ->
  requested (world st1)
    = (requested (world st) ++ [cfg_url (_config (self st))])%list /\
  catalog_named st1.
Proof.
  unfold fetch_catalog, fetch_json, fetch, request.
  unfold bindM, gets, modify, lift, ret. simpl.
  destruct (http (world st) (cfg_url (_config (self st)))) as [r|e];
    [|discriminate].
  assert (Hreset : forall s0,
            catalog_named
              (with_self (fun s => set_utils (VList [])
                 (set_ports (VList []) (set_info (VDict []) (set_data (VDict []) s))))
                 s0)).
  { intros s0. split; [|split; [|split; [|split]]]; simpl.
    - exists []. split; [reflexivity | intros k []].
    - exists []. split; [reflexivity | intros k []].
    - exists []. split; [reflexivity | intros k []].
    - exists []. split; [reflexivity | intros k []].
    - intros d l k _ [= <-] []. }
  assert (Hloop : forall assets s0 s1,
            for_each assets load_asset s0 = (s1, Ok tt) ->
            catalog_named s0 ->
            requested (world s1) = requested (world s0) /\ catalog_named s1).
  { intros assets s0 s1 Hrun Hn.
    pose proof (respects_for_each _ same_requests_refl same_requests_trans
                  assets load_asset load_asset_same_requests s0) as Hr.
    pose proof (respects_for_each _ keeps_named_refl keeps_named_trans
                  assets load_asset load_asset_named s0 Hn) as Hk.
    rewrite Hrun in Hr, Hk. now split. }
  destruct (status_code r =? 200).
  - destruct (json r) as [data|e]; [|discriminate].
    destruct (py_getitem data "assets") as [assets|e]; [|discriminate].
    destruct (py_iter assets) as [assets'|e]; [|discriminate].
    intros Hrun. apply Hloop in Hrun; [|apply Hreset].
    destruct Hrun as [Hreq Hn]. now rewrite Hreq.
  - discriminate.
Qed.

(** A [fetch_infos] that runs to its end has made one request, for the
    URL the catalog gives for [ports.md]. *)
Lemma fetch_infos_done st1 st2 :
  fetch_infos st1 = (st2, Ok tt) ->
  catalog_named st1 ->
  exists catalog entry u,
    _data (self st1) = Some catalog /\
    py_getitem catalog "ports.md" = Ok entry /\
    py_getitem entry "url" = Ok (VStr u) /\
    requested (world st2) = (requested (world st1) ++ [u])%list /\
    catalog_named st2.
Proof.
  intros Hrun Hn. revert Hrun. unfold fetch_infos.
  unfold bindM at 1. unfold attribute at 1.
  destruct (_data (self st1)) as [catalog|] eqn:Hd; [|discriminate].
  unfold bindM at 1. unfold lift at 1.
  destruct (py_getitem catalog "ports.md") as [entry|e] eqn:He; [|discriminate].
  unfold bindM at 1. unfold lift at 1.
  destruct (py_getitem entry "url") as [url|e] eqn:Hu; [|discriminate].
  unfold bindM at 1.
  destruct url as [| | |u| |]; try discriminate.
  unfold fetch_text, fetch, request, bindM, gets, modify, lift, ret. simpl.
  destruct (http (world st1) u) as [r|e]; [|discriminate].
  destruct (status_code r =? 200); [|discriminate].
  match goal with
  | |- for_each ?lines load_line ?s = _ -> _ =>
      intros Hrun;
      pose proof (respects_for_each _ same_requests_refl same_requests_trans
                    lines load_line load_line_same_requests s) as Hr;
      destruct (for_each_load_line_named lines s Hn) as (s' & Hs' & Hn');
      rewrite Hrun in Hr, Hs'
  end.
  injection Hs' as <-.
  exists catalog, entry, u.
  split; [|split; [|split; [|split]]];
    first [reflexivity | assumption | exact Hr].
Qed.

(** [persist] on an object whose catalog attributes are set. *)
Lemma persist_done st2 p u i d :
  ports (self st2) = Some p -> utils (self st2) = Some u ->
  _info (self st2) = Some i -> _data (self st2) = Some d ->
  persist st2 =
    (with_world
       (set_documents
          (setitem (documents (world st2)) (_file_name (self st2))
             (stamp p u i d (clock (world st2) (ticks (world st2)))
                (_config (self st2)))))
       (with_self (fun s => set_config
                    (stamp p u i d (clock (world st2) (ticks (world st2)))
                       (_config s)) s)
          (with_world tick st2)),
     Ok tt).
Proof.
  intros Hp Hu Hi Hd.
  unfold persist, _save, bindM, attribute, now, modify.
  rewrite Hp, Hu, Hi, Hd. reflexivity.
Qed.

Lemma catalog_named_set st :
  catalog_named st ->
  exists d i p u,
    _data (self st) = Some (VDict d) /\ _info (self st) = Some (VDict i) /\
    ports (self st) = Some (VList p) /\ utils (self st) = Some (VList u).
Proof.
  intros ((d & Hd & _) & (i & Hi & _) & (p & Hp & _) & (u & Hu & _) & _).
  now exists d, i, p, u.
Qed.

(** X3.  Once the catalog is built and its [ports.md] is served, nothing can
    make [update] fail: whatever the lines of the metadata document hold,
    each is parsed and stored, and the document is persisted. *)
Theorem update_completes (st st1 : State) (catalog entry : value) (u : string)
  (r : Response) :
  fetch_catalog st = (st1, Ok tt) ->
  _data (self st1) = Some catalog ->
  py_getitem catalog "ports.md" = Ok entry ->
  py_getitem entry "url" = Ok (VStr u) ->
  http (world st) u = Ok r ->
  status_code r = 200 ->
  exists st', update st = (st', Ok tt).
Proof.
  intros Hc Hd He Hu Hr Hs.
  destruct (fetch_catalog_done st st1 Hc) as [_ Hn].
  pose proof (fetch_catalog_same st) as (_ & _ & Hhttp & _).
  rewrite Hc in Hhttp. simpl in Hhttp.
  unfold update. unfold bindM at 1 2. rewrite Hc.
  assert (Hinfos : exists st2, fetch_infos st1 = (st2, Ok tt) /\ catalog_named st2).
  { unfold fetch_infos, fetch_text, fetch, request, attribute, bindM, gets,
      modify, lift, ret.
    rewrite Hd, He, Hu. simpl. rewrite Hhttp, Hr, Hs. simpl.
    match goal with
    | |- context [for_each ?lines load_line ?s] =>
        destruct (for_each_load_line_named lines s Hn) as (s' & Hs' & Hn');
        rewrite Hs'
    end.
    now exists s'. }
  destruct Hinfos as (st2 & H2 & Hn2). rewrite H2.
  destruct (catalog_named_set st2 Hn2) as (d & i & p & l & Hd2 & Hi2 & Hp2 & Hu2).
  rewrite (persist_done st2 _ _ _ _ Hp2 Hu2 Hi2 Hd2). eauto.
Qed.

Lemma update_completes_witness :
  exists st', update refreshing = (st', Ok tt).
Proof.
  eapply (update_completes refreshing)
    with (u := "https://example.org/ports.md"%string);
    try (vm_compute; reflexivity).
Defined.

Lemma same_names_refl st : same_names st st.
Proof. split; reflexivity. Qed.

Lemma same_names_trans a b c :
  same_names a b -> same_names b c -> same_names a c.
Proof. unfold same_names. intros [] []. split; congruence. Qed.

Lemma modify_same_names f :
  (forall st, same_names st (f st)) -> respects same_names (modify f).
Proof. intros H st. apply H. Qed.

Ltac names_prims :=
  apply modify_same_names; intros ?; split; reflexivity.

Lemma request_same_names url : respects same_names (request url).
Proof.
  unfold request. destruct url;
    respects_steps same_names_refl same_names_trans; names_prims.
Qed.

Lemma load_asset_same_names asset : respects same_names (load_asset asset).
Proof.
  unfold load_asset.
  respects_steps same_names_refl same_names_trans; names_prims.
Qed.

Lemma load_line_same_names line : respects same_names (load_line line).
Proof.
  unfold load_line.
  respects_steps same_names_refl same_names_trans; names_prims.
Qed.

Lemma fetch_catalog_same_names : respects same_names fetch_catalog.
Proof.
  unfold fetch_catalog.
  respects_steps same_names_refl same_names_trans;
    first [ apply request_same_names | apply load_asset_same_names
          | names_prims ].
Qed.

Lemma fetch_infos_same_names : respects same_names fetch_infos.
Proof.
  unfold fetch_infos.
  respects_steps same_names_refl same_names_trans;
    first [ apply request_same_names | apply load_line_same_names
          | names_prims ].
Qed.

(** The state a successful [update] ends in, from the one ([st2]) in which
    the catalog was rebuilt. *)
Lemma update_done st st' :
  update st = (st', Ok tt) ->
  exists st2 p u i d ports_md,
    catalog_named st2 /\ same_document st st2 /\ same_clock st st2 /\
    requested (world st2)
      = (requested (world st) ++ [cfg_url (_config (self st)); ports_md])%list /\
    temp_dir (self st2) = temp_dir (self st) /\
    _file_name (self st2) = _file_name (self st) /\
    ports (self st2) = Some p /\ utils (self st2) = Some u /\
    _info (self st2) = Some i /\ _data (self st2) = Some d /\
    st' =
      with_world
        (set_documents
           (setitem (documents (world st2)) (_file_name (self st2))
              (stamp p u i d (clock (world st2) (ticks (world st2)))
                 (_config (self st2)))))
        (with_self (fun s => set_config
                     (stamp p u i d (clock (world st2) (ticks (world st2)))
                        (_config s)) s)
           (with_world tick st2)).
Proof.
  unfold update. unfold bindM at 1 2.
  destruct (fetch_catalog st) as [st1 [[]|e]] eqn:H1; [|discriminate].
  destruct (fetch_infos st1) as [st2 [[]|e]] eqn:H2; [|discriminate].
  intros H3.
  destruct (fetch_catalog_done st st1 H1) as [Hreq1 Hn1].
  destruct (fetch_infos_done st1 st2 H2 Hn1)
    as (catalog & entry & ports_md & _ & _ & _ & Hreq2 & Hn2).
  pose proof (fetch_catalog_same st) as Hs1. rewrite H1 in Hs1.
  pose proof (fetch_infos_same st1) as Hs2. rewrite H2 in Hs2.
  pose proof (fetch_catalog_same_clock st) as Hc1. rewrite H1 in Hc1.
  pose proof (fetch_infos_same_clock st1) as Hc2. rewrite H2 in Hc2.
  assert (Hnames : same_names st st2).
  { pose proof (fetch_catalog_same_names st) as Ha. rewrite H1 in Ha.
    pose proof (fetch_infos_same_names st1) as Hb. rewrite H2 in Hb.
    eapply same_names_trans; eassumption. }
  destruct Hnames as [Htemp Hfile].
  destruct (catalog_named_set st2 Hn2) as (d & i & p & u & Hd & Hi & Hp & Hu).
  rewrite (persist_done st2 _ _ _ _ Hp Hu Hi Hd) in H3. injection H3 as <-.
  exists st2, (VList p), (VList u), (VDict i), (VDict d), ports_md.
  simpl in Hs1, Hs2, Hc1, Hc2.
  repeat match goal with |- _ /\ _ => split end; try assumption; try reflexivity.
  - eapply same_document_trans; eassumption.
  - eapply same_clock_trans; eassumption.
  - rewrite Hreq2, Hreq1, <- app_assoc. reflexivity.
Qed.

(** What the round trip needs of a successful [update]. *)
Lemma update_persists_catalog_facts st st' :
  update st = (st', Ok tt) ->
  cfg_version (_config (self st')) = VERSION /\
  cfg_last_checked (_config (self st')) = Some (clock (world st) (ticks (world st))) /\
  get (cfg_data (_config (self st'))) "data" = _data (self st') /\
  get (cfg_data (_config (self st'))) "info" = _info (self st') /\
  get (cfg_data (_config (self st'))) "ports" = ports (self st') /\
  get (cfg_data (_config (self st'))) "utils" = utils (self st') /\
  exists d i p u,
    _data (self st') = Some d /\ _info (self st') = Some i /\
    ports (self st') = Some p /\ utils (self st') = Some u.
Proof.
  intros H.
  destruct (update_done st st' H)
    as (st2 & p & u & i & d & ports_md & _ & (Hcfg & _) & (Ht & Hc) & _ & _ & Hf
        & Hp & Hu & Hi & Hd & ->).
  simpl. rewrite Ht, Hc, Hp, Hu, Hi, Hd.
  repeat match goal with |- _ /\ _ => split end; try reflexivity;
    try (repeat first [ rewrite get_setitem_same
                      | rewrite get_setitem_other by discriminate ];
         reflexivity).
  - now exists d, i, p, u.
Qed.

(** X4.  A successful [update] leaves the document it keeps in memory written
    under the file name of the source, at the current schema version,
    stamped with the time read from the clock, and holding exactly the
    catalog the object now has. *)
Theorem update_persists_catalog (st st' : State) :
  update st = (st', Ok tt) ->
  get (documents (world st')) (_file_name (self st)) = Some (_config (self st')) /\
  cfg_version (_config (self st')) = VERSION /\
  cfg_last_checked (_config (self st')) = Some (clock (world st) (ticks (world st))) /\
  cfg_url (_config (self st')) = cfg_url (_config (self st)) /\
  get (cfg_data (_config (self st'))) "data" = _data (self st') /\
  get (cfg_data (_config (self st'))) "info" = _info (self st') /\
  get (cfg_data (_config (self st'))) "ports" = ports (self st') /\
  get (cfg_data (_config (self st'))) "utils" = utils (self st').
Proof.
  intros H.
  destruct (update_done st st' H)
    as (st2 & p & u & i & d & ports_md & _ & (Hcfg & _) & (Ht & Hc) & _ & _ & Hf
        & Hp & Hu & Hi & Hd & ->).
  simpl. rewrite Hf, get_setitem_same, Ht, Hc, Hcfg, Hp, Hu, Hi, Hd.
  repeat match goal with |- _ /\ _ => split end; try reflexivity;
    repeat first [ rewrite get_setitem_same
                 | rewrite get_setitem_other by discriminate ];
    reflexivity.
Qed.

Lemma same_data_refl st : same_data st st.
Proof. reflexivity. Qed.

Lemma same_data_trans a b c : same_data a b -> same_data b c -> same_data a c.
Proof. unfold same_data. congruence. Qed.

Lemma modify_same_data f :
  (forall st, same_data st (f st)) -> respects same_data (modify f).
Proof. intros H st. apply H. Qed.

Ltac data_prims := apply modify_same_data; intros ?; reflexivity.

Lemma request_same_data url : respects same_data (request url).
Proof.
  unfold request. destruct url;
    respects_steps same_data_refl same_data_trans; data_prims.
Qed.

Lemma load_line_same_data line : respects same_data (load_line line).
Proof.
  unfold load_line.
  respects_steps same_data_refl same_data_trans; data_prims.
Qed.

(** The metadata document is read without a change to the catalog index. *)
Lemma fetch_infos_same_data : respects same_data fetch_infos.
Proof.
  unfold fetch_infos, fetch_text, fetch.
  respects_steps same_data_refl same_data_trans;
    first [ apply request_same_data | apply load_line_same_data | data_prims ].
Qed.

(** X5.  A successful [update] makes exactly two requests: one for the URL of
    the source, then one for the URL that the catalog index it has built
    gives for [ports.md]. *)
Theorem update_makes_two_requests (st st' : State) :
  update st = (st', Ok tt) ->
  exists catalog entry ports_md,
    _data (self st') = Some catalog /\
    py_getitem catalog "ports.md" = Ok entry /\
    py_getitem entry "url" = Ok (VStr ports_md) /\
    requested (world st')
    = (requested (world st) ++ [cfg_url (_config (self st)); ports_md])%list.
Proof.
  unfold update. unfold bindM at 1 2.
  destruct (fetch_catalog st) as [st1 [[]|e]] eqn:H1; [|discriminate].
  destruct (fetch_infos st1) as [st2 [[]|e]] eqn:H2; [|discriminate].
  intros H3.
  destruct (fetch_catalog_done st st1 H1) as [Hreq1 Hn1].
  destruct (fetch_infos_done st1 st2 H2 Hn1)
    as (catalog & entry & url & Hcat & Hentry & Hurl & Hreq2 & Hn2).
  pose proof (fetch_infos_same_data st1) as Hsame. rewrite H2 in Hsame.
  unfold same_data in Hsame. simpl in Hsame.
  destruct (catalog_named_set st2 Hn2) as (d & i & p & u & Hd & Hi & Hp & Hu).
  rewrite (persist_done st2 _ _ _ _ Hp Hu Hi Hd) in H3. injection H3 as <-.
  exists catalog, entry, url. simpl.
  split; [congruence|]. split; [exact Hentry|]. split; [exact Hurl|].
  rewrite Hreq2, Hreq1, <- app_assoc. reflexivity.
Qed.

(** X6.  After a successful [update] every key of the catalog index and of the
    info index and every entry of [ports] and [utils] is in lower case,
    and every entry of [utils] is a key of the catalog index that ends in
    [.squashfs]. *)
Theorem update_names_in_lower_case (st st' : State) :
  update st = (st', Ok tt) -> catalog_named st'.
Proof.
  intros H.
  destruct (update_done st st' H)
    as (st2 & p & u & i & d & ports_md & Hn & _ & _ & _ & _ & _
        & _ & _ & _ & _ & ->).
  exact Hn.
Qed.

(** X7.  The catalog read back.  A source constructed from the document a
    successful [update] has written, at most the refresh threshold later,
    has the catalog that [update] built, and requests nothing. *)
Theorem update_then_init_round_trip (st st' : State) (w : World)
  (dir file : string) :
  update st = (st', Ok tt) ->
  0 <= clock w (ticks w) - clock (world st) (ticks (world st))
    <= UPDATE_FREQUENCY * 1000000 ->
  exists st3,
    __init__ {| world := w; self := new_source dir file (_config (self st')) |}
      = (st3, Ok tt) /\
    catalog_of (self st3) = catalog_of (self st') /\
    requested (world st3) = requested w.
Proof.
  intros H Hage.
  destruct (update_persists_catalog_facts st st' H)
    as (Hv & Hl & Hd & Hi & Hp & Hu & (d & i & p & u & Ed & Ei & Ep & Eu)).
  set (st0 := {| world := w; self := new_source dir file (_config (self st')) |}).
  rewrite (init_unfolded st0 _ Hv Hl).
  simpl ticks. simpl clock.
  rewrite datetime_compare_within_a_day
    by (unfold DAY_US, UPDATE_FREQUENCY in *; lia).
  assert (Hle : (clock w (ticks w) - clock (world st) (ticks (world st))) / 1000000
                <= UPDATE_FREQUENCY) by (apply Z.div_le_upper_bound; lia).
  destruct (_ >? _) eqn:E; [apply Z.gtb_lt in E; lia|].
  rewrite Ed in Hd. rewrite Ei in Hi. rewrite Ep in Hp. rewrite Eu in Hu.
  destruct (load_cache_loads (with_world tick st0) _ _ _ _ Hd Hi Hp Hu)
    as [Hok Hcat].
  exists (fst (load_cache (with_world tick st0))). split; [|split].
  - destruct (load_cache (with_world tick st0)); simpl in *. now subst.
  - rewrite Hcat. unfold catalog_of. now rewrite Ed, Ei, Ep, Eu.
  - apply (load_cache_requests_nothing (with_world tick st0)).
Qed.

Lemma refreshing_updates :
  update refreshing = (fst (update refreshing), Ok tt).
Proof. vm_compute. reflexivity. Qed.

Lemma update_persists_catalog_witness :
  get (documents (world (fst (update refreshing)))) "pm.source.json"
    = Some (_config (self (fst (update refreshing)))) /\
  cfg_version (_config (self (fst (update refreshing)))) = VERSION.
Proof.
  destruct (update_persists_catalog refreshing _ refreshing_updates)
    as (Hdoc & Hv & _).
  split; [exact Hdoc | exact Hv].
Defined.

Lemma update_makes_two_requests_witness :
  requested (world (fst (update refreshing)))
  = ["https://example.org/latest"; "https://example.org/ports.md"]%string.
Proof.
  destruct (update_makes_two_requests refreshing _ refreshing_updates)
    as (catalog & entry & ports_md & Hc & He & Hu & Hreq).
  rewrite Hreq. vm_compute in Hc. injection Hc as <-.
  vm_compute in He. injection He as <-.
  vm_compute in Hu. injection Hu as <-.
  reflexivity.
Defined.

Lemma update_names_in_lower_case_witness :
  catalog_named (fst (update refreshing)).
Proof.
  exact (update_names_in_lower_case refreshing _ refreshing_updates).
Defined.

Lemma update_then_init_round_trip_witness :
  exists st3,
    __init__ {| world := world_at nothing_served 3600000000;
                self := new_source "/tmp/hm" "pm.source.json"
                          (_config (self (fst (update refreshing)))) |}
      = (st3, Ok tt) /\
    catalog_of (self st3) = catalog_of (self (fst (update refreshing))) /\
    requested (world st3) = [].
Proof.
  apply (update_then_init_round_trip refreshing _
           (world_at nothing_served 3600000000) "/tmp/hm" "pm.source.json"
           refreshing_updates).
  vm_compute. split; congruence.
Defined.

(** *** What [download] leaves alone *)

Section DownloadFrame.
Variable md5_hexdigest : string -> string.
Variable int_of_str : string -> result Z.
Variable locate : string -> string.
Variable progress_bar : Z -> Z -> result unit.















(** X10.  When the checksum file is not served with status 200, [download]
    returns [None] after that one request: the archive is not asked for
    and no file is created.  When the checksum file is served but the
    archive is not, it returns [None] after the two requests, again with
    no file created. *)
Theorem download_gives_up_on_failed_fetch
  (st : State) (port_name : string) (catalog md5_entry : value)
  (md5_url : string) (md5_response : Response) :
  _data (self st) = Some catalog ->
  py_getitem catalog (port_name ++ ".md5") = Ok md5_entry ->
  py_getitem md5_entry "url" = Ok (VStr md5_url) ->
  http (world st) md5_url = Ok md5_response ->
  (status_code md5_response <> 200 ->
   download md5_hexdigest int_of_str locate progress_bar port_name st
   = (with_world (log_request md5_url) st, Ok None)) /\
  (forall entry url response,
     status_code md5_response = 200 ->
     py_getitem catalog port_name = Ok entry ->
     py_getitem entry "url" = Ok (VStr url) ->
     http (world st) url = Ok response ->
     status_code response <> 200 ->
     download md5_hexdigest int_of_str locate progress_bar port_name st
     = (with_world (log_request url) (with_world (log_request md5_url) st),
        Ok None)).
Proof.
  intros Hd Hme Hmu Hmr. split.
  - intros Hs. apply Z.eqb_neq in Hs.
    unfold download, fetch_text, fetch, request, bindM, gets, attribute,
      modify, lift, ret.
    rewrite Hd, Hme, Hmu. simpl. rewrite Hmr, Hs. reflexivity.
  - intros entry url response Hs He Hu Hr Hs2. apply Z.eqb_neq in Hs2.
    unfold download, fetch_text, fetch, request, bindM, gets, attribute,
      modify, lift, ret.
    rewrite Hd, Hme, Hmu. simpl. rewrite Hmr, Hs. simpl.
    rewrite He, Hu. simpl. rewrite Hr, Hs2. reflexivity.
Qed.
End DownloadFrame.

Lemma download_gives_up_on_failed_fetch_witness :
  download (fun bytes => bytes) (fun _ => Ok 3) (fun path => path)
    (fun _ _ => Ok tt) "doom.zip" (loaded nothing_served 0)
  = (with_world (log_request "https://example.org/doom.zip.md5")
       (loaded nothing_served 0), Ok None).
Proof.
  apply (proj1 (download_gives_up_on_failed_fetch (fun bytes => bytes) (fun _ => Ok 3)
                  (fun path => path) (fun _ _ => Ok tt)
                  (loaded nothing_served 0) "doom.zip" doom_catalog
                  (VDict [ ("name", VStr "doom.zip.md5"); ("size", VInt 4);
                           ("url", VStr "https://example.org/doom.zip.md5") ])
                  "https://example.org/doom.zip.md5" (respond 404 "" None [])
                  eq_refl eq_refl eq_refl eq_refl)).
  discriminate.
Defined.

(** *** [portmd] read back by [_parse_port_info] *)

Local Open Scope string_scope.

Lemma word_is_not_space c : is_word c = true -> is_space c = false.
Proof.
  destruct c as [[] [] [] [] [] [] [] []]; vm_compute; intros; congruence.
Qed.

Lemma span_every p key c rest :
  every p key = true -> p c = false ->
  span p (key ++ String c rest) = (key, String c rest).
Proof.
  intros Hk Hc. induction key as [|k key IH]; simpl in *.
  - now rewrite Hc.
  - apply andb_true_iff in Hk as [Hk1 Hk2]. now rewrite Hk1, IH.
Qed.

Lemma lazy_value_step value c q rest :
  Ascii.eqb c newline = false ->
  lazy_value value (String c (String q rest))
  = if Ascii.eqb q quote && lookahead rest
    then Some (value ++ String c "", rest)
    else lazy_value (value ++ String c "") (String q rest).
Proof. intros H. cbn [lazy_value]. now rewrite H. Qed.

Lemma lazy_value_plain v :
  forall value rest,
    v <> "" -> unquoted v = true -> lookahead rest = true ->
    lazy_value value (v ++ String quote rest) = Some (value ++ v, rest).
Proof.
  induction v as [|c v IH]; intros value rest Hne Hq Hl; [contradiction|].
  simpl in Hq. apply andb_true_iff in Hq as [Hc Hq].
  apply andb_true_iff in Hc as [Hc1 Hc2].
  apply negb_true_iff in Hc1, Hc2.
  destruct v as [|c' v'].
  - change (String c "" ++ String quote rest) with (String c (String quote rest)).
    rewrite lazy_value_step by exact Hc2.
    replace (Ascii.eqb quote quote) with true by (symmetry; apply Ascii.eqb_refl).
    now rewrite Hl.
  - assert (Hc' : Ascii.eqb c' quote = false).
    { simpl in Hq. apply andb_true_iff in Hq as [Hq _].
      apply andb_true_iff in Hq as [Hq _]. now apply negb_true_iff in Hq. }
    change (String c (String c' v') ++ String quote rest)
      with (String c (String c' (v' ++ String quote rest))).
    rewrite lazy_value_step by exact Hc2. rewrite Hc'. cbn [andb].
    change (String c' (v' ++ String quote rest))
      with (String c' v' ++ String quote rest).
    rewrite IH by (auto; discriminate).
    rewrite HarbourMasterSpec.append_assoc. reflexivity.
Qed.

Lemma key_value_pair_text key v rest :
  every is_word key = true -> key <> "" ->
  v <> "" -> unquoted v = true -> lookahead rest = true ->
  key_value (pair_text key v rest) = Some (key, v, rest).
Proof.
  intros Hk Hne Hv Hq Hl. unfold key_value, pair_text.
  rewrite (span_every is_word key "=" _ Hk eq_refl).
  destruct (key =? "") eqn:E; [apply String.eqb_eq in E; contradiction|].
  change (Ascii.eqb "=" "=" && Ascii.eqb quote quote) with true. cbv iota.
  now rewrite (lazy_value_plain v "" rest Hv Hq Hl).
Qed.

Lemma lookahead_pair_text key v rest :
  every is_word key = true -> key <> "" ->
  lookahead (String " " (pair_text key v rest)) = true.
Proof.
  intros Hk Hne. unfold lookahead, pair_text.
  destruct key as [|c key]; [contradiction|].
  simpl in Hk. apply andb_true_iff in Hk as [Hc Hk].
  change (span is_space (String " " (String c key ++ _)))
    with (let (run, rest0) := span is_space (String c key ++ String "=" (String quote (v ++ String quote rest)))
          in (String " " run, rest0)).
  simpl span at 1. rewrite (word_is_not_space c Hc).
  change (String c (key ++ String "=" (String quote (v ++ String quote rest))))
    with (String c key ++ String "=" (String quote (v ++ String quote rest))).
  rewrite (span_every is_word (String c key) "=" _); [reflexivity| |reflexivity].
  simpl. now rewrite Hc, Hk.
Qed.

Lemma findall_from_S fuel at_start s :
  findall_from (S fuel) at_start s =
    match match_here at_start s with
    | Some (key, value, rest) => (key, value) :: findall_from fuel false rest
    | None =>
        match s with
        | EmptyString => []
        | String _ s' => findall_from fuel false s'
        end
    end.
Proof. reflexivity. Qed.

Lemma findall_from_match at_start s key value rest :
  match_here at_start s = Some (key, value, rest) ->
  findall_from (S (String.length s)) at_start s
  = (key, value) :: findall_from (S (String.length rest)) false rest.
Proof.
  intros H. rewrite (findall_from_S (String.length s) at_start s), H. f_equal.
  apply match_here_shorter in H.
  apply findall_from_enough; lia.
Qed.

Lemma findall_from_space s key value rest :
  key_value s = Some (key, value, rest) ->
  findall_from (S (String.length (String " " s))) false (String " " s)
  = (key, value) :: findall_from (S (String.length rest)) false rest.
Proof.
  intros H. apply findall_from_match. unfold match_here.
  change (is_space " ") with true. cbv iota. exact H.
Qed.

Lemma solid_cons c s : solid s -> solid (String c s).
Proof.
  intros [Hr Hne]. split; [|discriminate].
  simpl. rewrite Hr. destruct s; [contradiction|reflexivity].
Qed.

Lemma solid_app a s : solid s -> solid (a ++ s).
Proof.
  intros H. induction a as [|c a IH]; [exact H|].
  simpl. now apply solid_cons.
Qed.

Lemma solid_quote : solid (String quote "").
Proof. split; [reflexivity | discriminate]. Qed.

Lemma solid_pair key v rest :
  solid (String quote rest) -> solid (pair_text key v rest).
Proof.
  intros H. unfold pair_text.
  apply solid_app, solid_cons, solid_cons, solid_app, H.
Qed.

Lemma solid_next key v rest :
  solid (String quote rest) ->
  solid (String quote (String " " (pair_text key v rest))).
Proof. intros H. now apply solid_cons, solid_cons, solid_pair. Qed.

Lemma drop_last2_app s a b : drop_last2 (s ++ String a (String b "")) = s.
Proof.
  induction s as [|c s IH]; [reflexivity|].
  destruct s as [|c1 [|c2 s]].
  - reflexivity.
  - reflexivity.
  - change (drop_last2 (String c (String c1 (String c2 s)) ++ String a (String b "")))
      with (String c (drop_last2 (String c1 (String c2 s) ++ String a (String b "")))).
    now rewrite IH.
Qed.

Lemma prefix_char a c s :
  prefix (String a "") (String c s) = Ascii.eqb a c.
Proof.
  simpl. destruct (ascii_dec a c) as [->|Hne].
  - rewrite Ascii.eqb_refl. now destruct s.
  - symmetry. now apply Ascii.eqb_neq.
Qed.

Lemma replace_char_step a b c s :
  replace (String a "") (String b "") (String c s)
  = String (if Ascii.eqb a c then b else c) (replace (String a "") (String b "") s).
Proof.
  unfold replace. cbn [replace_from]. rewrite prefix_char.
  destruct (Ascii.eqb a c); reflexivity.
Qed.

Lemma contains_char_step a c s :
  contains (String a "") (String c s)
  = Ascii.eqb a c || contains (String a "") s.
Proof. cbn [contains]. now rewrite prefix_char. Qed.

(** The underscores [portmd] puts for the spaces come back as spaces. *)
Lemma title_back t :
  contains "_" t = false -> replace "_" " " (replace " " "_" t) = t.
Proof.
  induction t as [|c t IH]; [reflexivity|].
  rewrite contains_char_step. intros H.
  apply orb_false_iff in H as [Hc Ht].
  rewrite replace_char_step.
  destruct (Ascii.eqb " " c) eqn:E.
  - apply Ascii.eqb_eq in E. subst c.
    rewrite replace_char_step. simpl Ascii.eqb. cbv iota. now rewrite IH.
  - rewrite replace_char_step, Hc. now rewrite IH.
Qed.

Lemma unquoted_replace a b t :
  Ascii.eqb b quote = false -> Ascii.eqb b newline = false ->
  unquoted t = true -> unquoted (replace (String a "") (String b "") t) = true.
Proof.
  intros Hb1 Hb2. induction t as [|c t IH]; [reflexivity|].
  rewrite replace_char_step. simpl. intros H.
  apply andb_true_iff in H as [Hc Ht].
  rewrite IH by exact Ht.
  destruct (Ascii.eqb a c); [now rewrite Hb1, Hb2 | now rewrite Hc].
Qed.

Lemma unquoted_app a b : unquoted a = true -> unquoted b = true -> unquoted (a ++ b) = true.
Proof.
  intros Ha Hb. induction a as [|c a IH]; [exact Hb|].
  simpl in *. apply andb_true_iff in Ha as [Hc Ha]. now rewrite Hc, IH.
Qed.

Lemma app_not_empty a b : b <> "" -> a ++ b <> "".
Proof. destruct a; [auto | discriminate]. Qed.

Lemma match_here_start s m :
  key_value s = Some m -> match_here true s = Some m.
Proof. intros H. unfold match_here. now rewrite H. Qed.

(** The text [render] produces, with its pieces nested to the right. *)
Lemma join_spaces_pairs head title desc porter file (rtr : bool) :
  join_spaces
    ([ quoted head title; quoted "Desc" desc; quoted "porter" porter;
       quoted "locat" file ]
     ++ (if rtr then [ quoted "runtype" "rtr" ] else []))%list
  = pair_text head title
      (String " " (pair_text "Desc" desc
         (String " " (pair_text "porter" porter
            (String " " (pair_text "locat" file
               (if rtr then String " " (pair_text "runtype" "rtr" "") else ""))))))).
Proof.
  unfold quoted, pair_text, dq.
  destruct rtr; cbn [app join_spaces];
    repeat rewrite HarbourMasterSpec.append_assoc; reflexivity.
Qed.

Lemma findall_pairs head title desc porter file (rtr : bool) :
  every is_word head = true -> head <> "" ->
  title <> "" -> unquoted title = true ->
  desc <> "" -> unquoted desc = true ->
  porter <> "" -> unquoted porter = true ->
  file <> "" -> unquoted file = true ->
  findall
    (strip
       (pair_text head title
          (String " " (pair_text "Desc" desc
             (String " " (pair_text "porter" porter
                (String " " (pair_text "locat" file
                   (if rtr then String " " (pair_text "runtype" "rtr" "") else "")))))))))
  = ([ (head, title); ("Desc", desc); ("porter", porter); ("locat", file) ]
     ++ (if rtr then [ ("runtype", "rtr") ] else []))%list.
Proof.
  intros Hh Hhne Ht Htq Hd Hdq Hp Hpq Hf Hfq.
  set (tail := if rtr then String " " (pair_text "runtype" "rtr" "") else "").
  assert (Htail : lookahead tail = true) by (subst tail; now destruct rtr).
  assert (Hstrip : forall s, s = pair_text head title
            (String " " (pair_text "Desc" desc
               (String " " (pair_text "porter" porter
                  (String " " (pair_text "locat" file tail)))))) -> strip s = s).
  { intros s ->. unfold strip.
    assert (Hl : forall x, lstrip (pair_text head title x) = pair_text head title x).
    { intros x. unfold pair_text. destruct head as [|c head]; [contradiction|].
      cbn [append lstrip]. simpl in Hh. apply andb_true_iff in Hh as [Hc _].
      now rewrite (word_is_not_space c Hc). }
    rewrite Hl.
    assert (Hsolid : solid (String quote tail)).
    { subst tail. destruct rtr; [|apply solid_quote].
      split; [vm_compute; reflexivity | discriminate]. }
    apply solid_pair, solid_next, solid_next, solid_next, Hsolid. }
  rewrite Hstrip by reflexivity.
  unfold findall.
  erewrite (findall_from_match true);
    [|apply match_here_start, key_value_pair_text; auto;
      now apply lookahead_pair_text].
  erewrite findall_from_space;
    [|apply key_value_pair_text; auto; try discriminate;
      now apply lookahead_pair_text].
  erewrite findall_from_space;
    [|apply key_value_pair_text; auto; try discriminate;
      now apply lookahead_pair_text].
  erewrite findall_from_space;
    [|apply key_value_pair_text; auto; discriminate].
  subst tail. destruct rtr.
  - erewrite findall_from_space;
      [|apply key_value_pair_text; auto; discriminate].
    reflexivity.
  - reflexivity.
Qed.

Lemma parse_pair_desc info d :
  contains "%20" d = false ->
  parse_pair info ("Desc", d) = setitem info "desc" (VStr d).
Proof. intros H. unfold parse_pair. simpl. now rewrite H. Qed.

Lemma parse_pair_porter info p :
  contains "%20" p = false ->
  parse_pair info ("porter", p) = setitem info "porter" (VStr p).
Proof. intros H. unfold parse_pair. simpl. now rewrite H. Qed.

Lemma parse_pair_locat info f :
  contains "%20" f = false ->
  parse_pair info ("locat", f) = setitem info "file" (VStr f).
Proof. intros H. unfold parse_pair. simpl. now rewrite H. Qed.

Lemma parse_pair_runtype info :
  parse_pair info ("runtype", "rtr") = setitem info "rtr" (VBool true).
Proof. reflexivity. Qed.

Lemma title_value t :
  contains "_" t = false ->
  replace "_" " " (drop_last2 (replace " " "_" t ++ " .")) = t.
Proof. intros H. now rewrite drop_last2_app, title_back. Qed.

Lemma parse_pair_title info t :
  contains "_" t = false -> contains "%20" t = false ->
  parse_pair info ("Title", replace " " "_" t ++ " .") = setitem info "title" (VStr t).
Proof.
  intros H1 H2. unfold parse_pair.
  change (lower "Title" =? "title_f") with false.
  change (lower "Title" =? "title_p") with false.
  change (get_default keys (lower "Title") (lower "Title")) with "title".
  change ("title" =? "title") with true. cbv iota beta zeta.
  rewrite (title_value t H1), H2. reflexivity.
Qed.

Lemma parse_pair_title_f info t :
  contains "_" t = false -> contains "%20" t = false ->
  parse_pair info ("Title_F", replace " " "_" t ++ " .")
  = setitem (setitem info "opengl" (VBool true)) "title" (VStr t).
Proof.
  intros H1 H2. unfold parse_pair.
  change (lower "Title_F" =? "title_f") with true.
  change (lower "Title_F" =? "title_p") with false.
  change (get_default keys (lower "Title_F") (lower "Title_F")) with "title".
  change ("title" =? "title") with true. cbv iota beta zeta.
  rewrite (title_value t H1), H2. reflexivity.
Qed.

Lemma parse_pair_title_p info t :
  contains "_" t = false -> contains "%20" t = false ->
  parse_pair info ("Title_P", replace " " "_" t ++ " .")
  = setitem (setitem info "power" (VBool true)) "title" (VStr t).
Proof.
  intros H1 H2. unfold parse_pair.
  change (lower "Title_P" =? "title_f") with false.
  change (lower "Title_P" =? "title_p") with true.
  change (get_default keys (lower "Title_P") (lower "Title_P")) with "title".
  change ("title" =? "title") with true. cbv iota beta zeta.
  rewrite (title_value t H1), H2. reflexivity.
Qed.

Lemma printable_facts s :
  printable s = true -> s <> "" /\ unquoted s = true /\ contains "%20" s = false.
Proof.
  unfold printable. intros H.
  apply andb_true_iff in H as [H H3]. apply andb_true_iff in H as [H1 H2].
  apply negb_true_iff in H1, H3. apply String.eqb_neq in H1. auto.
Qed.

Lemma printable_title_facts t :
  printable_title t = true ->
  unquoted t = true /\ contains "%20" t = false /\ contains "_" t = false.
Proof.
  unfold printable_title. intros H.
  apply andb_true_iff in H as [H H3]. apply andb_true_iff in H as [H1 H2].
  apply negb_true_iff in H2, H3. auto.
Qed.

Lemma title_printed t :
  unquoted t = true ->
  replace " " "_" t ++ " ." <> "" /\ unquoted (replace " " "_" t ++ " .") = true.
Proof.
  intros H. split; [apply app_not_empty; discriminate|].
  apply unquoted_app; [|reflexivity].
  now apply (unquoted_replace " " "_").
Qed.

(** What [render] prints for a record of [_parse_port_info], and what the
    parser reads in it. *)
Lemma render_parsed format t d f p (og pw rt : bool) gs :
  printable_title t = true -> printable d = true ->
  printable f = true -> printable p = true ->
  exists text,
    render format (VDict (port_record t d f p og pw rt gs)) = Ok text /\
    _parse_port_info text = port_record t d f p (negb og && pw) og rt [].
Proof.
  intros Ht Hd Hf Hp.
  apply printable_title_facts in Ht as (Htq & Ht20 & Htu).
  apply printable_facts in Hd as (Hdne & Hdq & Hd20).
  apply printable_facts in Hf as (Hfne & Hfq & Hf20).
  apply printable_facts in Hp as (Hpne & Hpq & Hp20).
  destruct (title_printed t Htq) as [Htne Htq'].
  set (head := if og then "Title_P" else if pw then "Title_F" else "Title").
  exists (join_spaces
            ([ quoted head (replace " " "_" t ++ " ."); quoted "Desc" d;
               quoted "porter" p; quoted "locat" f ]
             ++ (if rt then [ quoted "runtype" "rtr" ] else []))%list).
  split.
  - subst head. destruct og, pw, rt; reflexivity.
  - unfold _parse_port_info.
    rewrite join_spaces_pairs, findall_pairs; auto;
      [|subst head; destruct og, pw; reflexivity
       |subst head; destruct og, pw; discriminate].
    subst head.
    destruct og, pw, rt; cbn [app fold_left];
      rewrite ?parse_pair_title, ?parse_pair_title_f, ?parse_pair_title_p,
        ?parse_pair_desc, ?parse_pair_porter, ?parse_pair_locat,
        ?parse_pair_runtype by assumption;
      reflexivity.
Qed.

(** X11.  [portmd] followed by [_parse_port_info] gives back the title, the
    description, the file, the porter and the runtime flag of a listed
    port whose fields are printable; the flag [opengl] comes back as
    [power], [power] comes back as [opengl] only when [opengl] was not set,
    and the genres are lost. *)
Theorem portmd_parse_round_trip format name st st' t d f p (og pw rt : bool) gs :
  port_info name st = (st', Ok (VDict (port_record t d f p og pw rt gs))) ->
  printable_title t = true -> printable d = true ->
  printable f = true -> printable p = true ->
  exists text,
    portmd format name st = (st', Ok text) /\
    _parse_port_info text = port_record t d f p (negb og && pw) og rt [].
Proof.
  intros Hinfo Ht Hd Hf Hp.
  destruct (render_parsed format t d f p og pw rt gs Ht Hd Hf Hp)
    as (text & Hr & Hparse).
  exists text. split; [|exact Hparse].
  unfold portmd, bindM. rewrite Hinfo. unfold lift. now rewrite Hr.
Qed.

Lemma portmd_parse_round_trip_witness :
  exists text,
    portmd (fun _ => "") "doom.zip"
      (listing "doom.zip"
         (port_record "Doom 3" "A shooter" "doom.zip" "someone" true true true
            [VStr "fps"]))
    = (listing "doom.zip"
         (port_record "Doom 3" "A shooter" "doom.zip" "someone" true true true
            [VStr "fps"]), Ok text) /\
    _parse_port_info text
    = port_record "Doom 3" "A shooter" "doom.zip" "someone" false true true [].
Proof.
  apply (portmd_parse_round_trip (fun _ => "") "doom.zip" _ _
           "Doom 3" "A shooter" "doom.zip" "someone" true true true [VStr "fps"]);
    vm_compute; reflexivity.
Defined.

(** *** [update] followed by [port_info] *)

Lemma existsb_eq_str l key :
  In (VStr key) l -> existsb (fun x => eq_str x key) l = true.
Proof.
  intros H. apply existsb_exists. exists (VStr key). split; [exact H|].
  simpl. apply String.eqb_refl.
Qed.

(** X8.  After an [update] that returned, [port_info] finds a record for every
    name listed in [ports], and leaves the object as it is. *)
Theorem update_then_port_info st st' l key :
  update st = (st', Ok tt) ->
  ports (self st') = Some (VList l) -> In (VStr key) l ->
  exists info, port_info key st' = (st', Ok info).
Proof.
  intros Hu Hl Hin.
  destruct (update_ports_have_info st st' Hu) as (l' & d & Hl' & Hd & Hk).
  rewrite Hl in Hl'. injection Hl' as <-.
  destruct (DictFacts.has_key_get d key (Hk key Hin)) as [info Hinfo].
  exists info. unfold port_info, bindM, attribute, lift. rewrite Hl.
  cbn [py_in]. rewrite (existsb_eq_str l key Hin). cbn [negb].
  rewrite Hd. unfold py_getitem, getitem. now rewrite Hinfo.
Qed.

Lemma update_then_port_info_witness :
  exists info,
    port_info "halflife.zip" (fst (update refreshing))
    = (fst (update refreshing), Ok info).
Proof.
  apply (update_then_port_info refreshing _ [VStr "halflife.zip"] "halflife.zip"
           refreshing_updates).
  - vm_compute. reflexivity.
  - now left.
Defined.

End HarbourMasterMore.

(** ** Port metadata: further properties *)

Module InfoMore.
Import Py Info DictFacts InfoSpec.
Local Open Scope string_scope.
Local Open Scope list_scope.

(** *** [port_info_merge] adds and removes no field *)

Lemma fields_setitem (d : dict) k v w :
  get d k = Some w -> fields (setitem d k v) = fields d.
Proof.
  unfold fields. induction d as [|[k' v'] d IH]; simpl; [discriminate|].
  destruct (k' =? k) eqn:E.
  - apply String.eqb_eq in E. subst k'. reflexivity.
  - intros H. simpl. now rewrite IH.
Qed.

Lemma same_fields_refl p : same_fields p p.
Proof. split; [reflexivity | eauto]. Qed.

Lemma same_fields_trans p q r :
  same_fields p q -> same_fields q r -> same_fields p r.
Proof.
  intros [H1 H2] [H3 H4]. split; [congruence|].
  intros a Ha. destruct (H2 a Ha) as (a' & Ha' & Hf).
  destruct (H4 a' Ha') as (a'' & Ha'' & Hf').
  exists a''. split; [exact Ha'' | congruence].
Qed.

Lemma same_fields_root p k v w :
  k <> "attr" -> get p k = Some w -> same_fields p (setitem p k v).
Proof.
  intros Hk Hw. split; [now apply fields_setitem with w|].
  intros a Ha. exists a. split; [|reflexivity].
  rewrite get_setitem_other by congruence. exact Ha.
Qed.

Lemma same_fields_attr p a k v w :
  get p "attr" = Some (VDict a) -> get a k = Some w ->
  same_fields p (setitem p "attr" (VDict (setitem a k v))).
Proof.
  intros Ha Hw. split; [now apply fields_setitem with (VDict a)|].
  intros a0 Ha0. rewrite Ha in Ha0. injection Ha0 as <-.
  exists (setitem a k v). split; [apply get_setitem_same|].
  now apply fields_setitem with w.
Qed.

Lemma merge_root_same_fields attrs other p :
  same_fields p (fst (merge_root attrs other p)).
Proof.
  revert p. induction attrs as [|[attr attr_default] rest IH]; intros p; simpl.
  - apply same_fields_refl.
  - destruct (attr =? "attr") eqn:E; [apply same_fields_refl|].
    apply String.eqb_neq in E.
    destruct (get p attr) as [value_a|] eqn:Ha; [|apply same_fields_refl].
    destruct (get (deref other p) attr) as [value_b|]; [|apply same_fields_refl].
    destruct (merge_root_value value_a value_b) as [v|]; [|apply IH].
    eapply same_fields_trans; [|apply IH].
    now apply same_fields_root with value_a.
Qed.

Lemma merge_attr_step_same_fields key_b value_b p :
  same_fields p (fst (merge_attr_step key_b value_b p)).
Proof.
  unfold merge_attr_step.
  destruct (get p "attr") as [[| | | | |port_attr]|] eqn:Ha;
    try apply same_fields_refl.
  destruct (get port_attr key_b) as [value_a|] eqn:Hk; [|apply same_fields_refl].
  destruct (merge_attr_value value_a value_b); [|apply same_fields_refl].
  now apply same_fields_attr with value_a.
Qed.

Lemma merge_attr_same_fields other items p :
  same_fields p (fst (merge_attr other items p)).
Proof.
  revert p. induction items as [|[key_b stored] rest IH]; intros p; simpl.
  - apply same_fields_refl.
  - pose proof (merge_attr_step_same_fields key_b
                  (item_value other key_b stored p) p) as Hs.
    destruct (merge_attr_step key_b (item_value other key_b stored p) p)
      as [q [[]|e]]; simpl in *; [|exact Hs].
    eapply same_fields_trans; [exact Hs | apply IH].
Qed.

(** X12.  However [port_info_merge] ends, [port_info] has the fields it had, in
    the same order, at the root and in [attr]: a field only [other] has is
    never added, and none is removed. *)
Theorem merge_same_fields (port_info : dict) (other : other_ref) :
  same_fields port_info (fst (port_info_merge port_info other)).
Proof.
  unfold port_info_merge.
  pose proof (merge_root_same_fields PORT_INFO_ROOT_ATTRS other port_info) as Hr.
  destruct (merge_root PORT_INFO_ROOT_ATTRS other port_info) as [p [[]|e]];
    simpl in *; [|exact Hr].
  destruct (get (deref other p) "attr") as [[| | | | |other_attr]|];
    simpl; try exact Hr.
  eapply same_fields_trans; [exact Hr | apply merge_attr_same_fields].
Qed.

(** *** What [port_info_merge] copies from [other] *)

Lemma merge_root_value_other a b v : merge_root_value a b = Some v -> v = b.
Proof.
  unfold merge_root_value.
  repeat match goal with |- context [if ?c then _ else _] => destruct c end;
    congruence.
Qed.

Lemma merge_attr_value_other a b v : merge_attr_value a b = Some v -> v = b.
Proof.
  unfold merge_attr_value.
  repeat match goal with |- context [if ?c then _ else _] => destruct c end;
    congruence.
Qed.

Lemma merged_keys_no_attr attrs : ~ In "attr" (merged_keys attrs).
Proof.
  induction attrs as [|[attr d] rest IH]; simpl; [tauto|].
  destruct (attr =? "attr") eqn:E; simpl; [tauto|].
  apply String.eqb_neq in E. intros [H|H]; [congruence | tauto].
Qed.

Lemma merged_keys_ROOT :
  merged_keys PORT_INFO_ROOT_ATTRS = ["version"; "name"; "items"; "items_opt"].
Proof. reflexivity. Qed.

Lemma NoDup_merged_ROOT : NoDup (merged_keys PORT_INFO_ROOT_ATTRS).
Proof.
  rewrite merged_keys_ROOT.
  repeat constructor; simpl; intuition discriminate.
Qed.

(** The state the first loop ends in, field by field. *)
Lemma merge_root_result attrs o :
  NoDup (merged_keys attrs) ->
  forall p p',
    merge_root attrs (Distinct o) p = (p', Ok tt) ->
    forall f, In f (merged_keys attrs) ->
      exists a b, get p f = Some a /\ get o f = Some b /\
        get p' f = Some (match merge_root_value a b with
                         | Some v => v
                         | None => a
                         end).
Proof.
  induction attrs as [|[attr d] rest IH]; simpl; intros Hnd p p' Hm f Hf;
    [contradiction|].
  destruct (attr =? "attr") eqn:E; [contradiction|].
  simpl in Hf. inversion Hnd as [|? ? Hnotin Hnd']; subst.
  destruct (get p attr) as [va|] eqn:Ha; [|discriminate].
  destruct (get o attr) as [vb|] eqn:Hb; [|discriminate].
  match type of Hm with merge_root rest _ ?q = _ => set (p1 := q) in Hm end.
  assert (H1 : get p1 attr
               = Some (match merge_root_value va vb with Some v => v | None => va end)).
  { subst p1. destruct (merge_root_value va vb);
      [apply get_setitem_same | exact Ha]. }
  assert (H2 : forall k, k <> attr -> get p1 k = get p k).
  { intros k Hk. subst p1. destruct (merge_root_value va vb); [|reflexivity].
    now apply get_setitem_other. }
  destruct Hf as [<-|Hf].
  - exists va, vb. split; [exact Ha|]. split; [exact Hb|].
    pose proof (merge_root_frame rest (Distinct o) p1 attr Hnotin) as Hfr.
    rewrite Hm in Hfr. simpl in Hfr. now rewrite Hfr.
  - destruct (IH Hnd' p1 p' Hm f Hf) as (a & b & Hpa & Hob & Hres).
    exists a, b. split; [|split; assumption].
    rewrite <- H2; [exact Hpa|]. intros ->. contradiction.
Qed.

(** The first loop changes nothing in a state where no rule has anything
    left to copy. *)
Lemma merge_root_settled attrs o q :
  (forall f, In f (merged_keys attrs) ->
     exists a b, get q f = Some a /\ get o f = Some b /\
                 forall v, merge_root_value a b = Some v -> v = a) ->
  merge_root attrs (Distinct o) q = (q, Ok tt).
Proof.
  induction attrs as [|[attr d] rest IH]; simpl; intros H; [reflexivity|].
  destruct (attr =? "attr") eqn:E; [reflexivity|].
  destruct (H attr (or_introl eq_refl)) as (a & b & Ha & Hb & Hv).
  rewrite Ha, Hb.
  assert (Hrest : merge_root rest (Distinct o) q = (q, Ok tt))
    by (apply IH; intros f Hf; apply H; now right).
  destruct (merge_root_value a b) as [v|]; [|exact Hrest].
  rewrite (Hv v eq_refl), (setitem_unchanged q attr a Ha). exact Hrest.
Qed.

Lemma setitem_setitem {A} (d : list (string * A)) k v w :
  setitem (setitem d k v) k w = setitem d k w.
Proof.
  induction d as [|[k' v'] d IH]; simpl.
  - now rewrite String.eqb_refl.
  - destruct (k' =? k) eqn:E; simpl.
    + now rewrite String.eqb_refl.
    + now rewrite E, IH.
Qed.

Lemma get_setitem_none {A} (d : list (string * A)) k k' v :
  get d k = None -> k <> k' -> get (setitem d k' v) k = None.
Proof. intros H Hne. now rewrite get_setitem_other. Qed.

Lemma get_In {A} (d : list (string * A)) k v : get d k = Some v -> In (k, v) d.
Proof.
  induction d as [|[k' v'] d IH]; simpl; [discriminate|].
  destruct (k' =? k) eqn:E.
  - apply String.eqb_eq in E. subst k'. intros [= ->]. now left.
  - intros H. right. now apply IH.
Qed.

Lemma In_fields {A} (d : list (string * A)) k v : In (k, v) d -> In k (map fst d).
Proof. intros H. change k with (fst (k, v)). now apply in_map. Qed.

(** The state the second loop ends in when [attr] is a dictionary, field
    by field. *)
Lemma merge_attr_result o items :
  NoDup (map fst items) ->
  forall p p' A,
    merge_attr (Distinct o) items p = (p', Ok tt) ->
    get p "attr" = Some (VDict A) ->
    exists A',
      p' = setitem p "attr" (VDict A') /\
      (forall k, get A k = None -> get A' k = None) /\
      (forall k b a, In (k, b) items -> get A k = Some a ->
         get A' k = Some (match merge_attr_value a b with
                          | Some v => v
                          | None => a
                          end)).
Proof.
  induction items as [|[key_b stored] rest IH]; simpl; intros Hnd p p' A Hm HA.
  - injection Hm as <-. exists A. split; [|split].
    + symmetry. now apply setitem_unchanged.
    + auto.
    + contradiction.
  - inversion Hnd as [|? ? Hnotin Hnd']; subst.
    unfold merge_attr_step in Hm. rewrite HA in Hm.
    set (A1 := match get A key_b with
               | Some a => match merge_attr_value a stored with
                           | Some v => setitem A key_b v
                           | None => A
                           end
               | None => A
               end).
    assert (Hm1 : merge_attr (Distinct o) rest (setitem p "attr" (VDict A1))
                  = (p', Ok tt)).
    { subst A1. destruct (get A key_b) as [a|].
      - destruct (merge_attr_value a stored); [exact Hm|].
        now rewrite (setitem_unchanged p "attr" (VDict A) HA).
      - now rewrite (setitem_unchanged p "attr" (VDict A) HA). }
    destruct (IH Hnd' _ p' A1 Hm1 (get_setitem_same p "attr" (VDict A1)))
      as (A' & Hp' & Hnone & Hsome).
    exists A'. split; [|split].
    + rewrite Hp'. apply setitem_setitem.
    + intros k Hk. apply Hnone. subst A1.
      destruct (get A key_b) as [a|] eqn:Ha; [|exact Hk].
      destruct (merge_attr_value a stored); [|exact Hk].
      apply get_setitem_none; [exact Hk | congruence].
    + intros k b a [Heq|Hin] Ha.
      * injection Heq as -> ->.
        assert (H1 : get A1 k
                     = Some (match merge_attr_value a b with Some v => v | None => a end)).
        { subst A1. rewrite Ha. destruct (merge_attr_value a b);
            [apply get_setitem_same | exact Ha]. }
        (* the later items have other keys *)
        clear - H1 Hnotin Hm1 IH Hnd' Hp' Hnone Hsome.
        revert H1. generalize (match merge_attr_value a b with Some v => v | None => a end).
        intros r H1.
        assert (Hkeep : forall items0 q q' B,
                  ~ In k (map fst items0) ->
                  merge_attr (Distinct o) items0 q = (q', Ok tt) ->
                  get q "attr" = Some (VDict B) ->
                  exists B', get q' "attr" = Some (VDict B') /\ get B' k = get B k).
        { clear. induction items0 as [|[kb st] rs IHr]; simpl; intros q q' B Hn Hq HB.
          - injection Hq as <-. eauto.
          - unfold merge_attr_step in Hq. rewrite HB in Hq.
            assert (Hk : kb <> k) by tauto.
            assert (Hn' : ~ In k (map fst rs)) by tauto.
            destruct (get B kb) as [a0|] eqn:Ha0; [|now apply (IHr q q' B)].
            destruct (merge_attr_value a0 st) as [v|]; [|now apply (IHr q q' B)].
            destruct (IHr _ q' (setitem B kb v) Hn' Hq
                        (get_setitem_same q "attr" _)) as (B' & HB' & Hg).
            exists B'. split; [exact HB'|].
            rewrite Hg. apply get_setitem_other. congruence. }
        destruct (Hkeep rest _ p' A1 Hnotin Hm1 (get_setitem_same p "attr" (VDict A1)))
          as (B' & HB' & Hg).
        rewrite Hp', get_setitem_same in HB'. injection HB' as <-.
        now rewrite Hg.
      * assert (Hk : k <> key_b).
        { intros ->. apply Hnotin. now apply In_fields with b. }
        apply (Hsome k b a Hin). subst A1.
        destruct (get A key_b) as [a0|]; [|exact Ha].
        destruct (merge_attr_value a0 stored); [|exact Ha].
        now rewrite get_setitem_other.
Qed.

Lemma merge_root_keeps_attr attrs other p :
  get (fst (merge_root attrs other p)) "attr" = get p "attr".
Proof. apply merge_root_frame, merged_keys_no_attr. Qed.

Lemma In_merged_not_attr attrs f : In f (merged_keys attrs) -> f <> "attr".
Proof. intros H ->. now apply (merged_keys_no_attr attrs). Qed.

(** The two loops of a call that returns. *)
Lemma merge_returns p o p' :
  port_info_merge p (Distinct o) = (p', Ok tt) ->
  exists p1 oa,
    merge_root PORT_INFO_ROOT_ATTRS (Distinct o) p = (p1, Ok tt) /\
    get o "attr" = Some (VDict oa) /\
    merge_attr (Distinct o) oa p1 = (p', Ok tt).
Proof.
  unfold port_info_merge. intros H.
  destruct (merge_root PORT_INFO_ROOT_ATTRS (Distinct o) p) as [p1 [[]|e]];
    [|discriminate].
  simpl in H.
  destruct (get o "attr") as [[| | | | |oa]|]; try discriminate.
  exists p1, oa. auto.
Qed.

(** X13.  When [port_info_merge] returns, a root field among [version],
    [name], [items], [items_opt] that was null, the empty string or the empty
    list in [port_info] holds the value [other] has for it, whatever that
    value is. *)
Theorem merge_fills_unset_root_field (p o p' : dict) f a b :
  port_info_merge p (Distinct o) = (p', Ok tt) ->
  In f ["version"; "name"; "items"; "items_opt"] ->
  get p f = Some a -> unset a = true -> get o f = Some b ->
  get p' f = Some b.
Proof.
  intros Hm Hf Ha Hu Hb.
  destruct (merge_returns p o p' Hm) as (p1 & oa & Hroot & _ & Hattr).
  rewrite <- merged_keys_ROOT in Hf.
  destruct (merge_root_result _ o NoDup_merged_ROOT p p1 Hroot f Hf)
    as (a' & b' & Ha' & Hb' & Hres).
  rewrite Ha in Ha'. injection Ha' as <-.
  rewrite Hb in Hb'. injection Hb' as <-.
  pose proof (merge_attr_frame (Distinct o) oa p1 f (In_merged_not_attr _ f Hf)) as Hfr.
  rewrite Hattr in Hfr. simpl in Hfr. rewrite Hfr, Hres.
  unfold merge_root_value. unfold unset in Hu. now rewrite Hu.
Qed.

Lemma merge_fills_unset_root_field_witness :
  get (fst (port_info_merge blank_record (Distinct (record_with_rtr true)))) "name"
  = Some (VStr "doom.zip").
Proof.
  apply (merge_fills_unset_root_field blank_record (record_with_rtr true) _
           "name" VNone (VStr "doom.zip")).
  - vm_compute. reflexivity.
  - simpl. auto.
  - reflexivity.
  - reflexivity.
  - reflexivity.
Defined.

(** X14.  When [port_info_merge] returns, a field of [attr] that was null in
    [port_info] holds the value [other] has for it, provided that value is a
    boolean, a string, a list or a dictionary. *)
Theorem merge_fills_null_attr_field (p o p' oa : dict) f b :
  port_info_merge p (Distinct o) = (p', Ok tt) ->
  get o "attr" = Some (VDict oa) -> NoDup (fields oa) ->
  attr_field p f = Some VNone -> get oa f = Some b -> copied b = true ->
  attr_field p' f = Some b.
Proof.
  intros Hm Hoa Hnd Hf Hb Hc.
  destruct (merge_returns p o p' Hm) as (p1 & oa' & Hroot & Hoa' & Hattr).
  rewrite Hoa in Hoa'. injection Hoa' as <-.
  unfold attr_field in Hf.
  destruct (get p "attr") as [[| | | | |A]|] eqn:HA; try discriminate.
  assert (HA1 : get p1 "attr" = Some (VDict A)).
  { pose proof (merge_root_keeps_attr PORT_INFO_ROOT_ATTRS (Distinct o) p) as H.
    rewrite Hroot in H. simpl in H. congruence. }
  destruct (merge_attr_result o oa Hnd p1 p' A Hattr HA1) as (A' & Hp' & _ & Hsome).
  unfold attr_field. rewrite Hp', get_setitem_same.
  rewrite (Hsome f b VNone (get_In oa f b Hb) Hf).
  unfold merge_attr_value.
  change (in_true_false_none VNone) with true.
  change (in_str_none VNone) with true.
  change (in_list_none VNone) with true.
  change (in_dict_none VNone) with true.
  rewrite !andb_true_r.
  unfold copied in Hc.
  destruct (in_true_false b); [reflexivity|].
  destruct (is_str b); [reflexivity|].
  destruct (is_list b); [reflexivity|].
  destruct (is_dict b); [reflexivity | discriminate].
Qed.

Lemma merge_fills_null_attr_field_witness :
  attr_field (fst (port_info_merge blank_record (Distinct (record_with_rtr true))))
    "title" = Some (VStr "Doom").
Proof.
  apply (merge_fills_null_attr_field blank_record (record_with_rtr true) _
           [ ("title", VStr "Doom"); ("desc", VStr ""); ("inst", VStr "");
             ("genres", VList []); ("porter", VStr ""); ("image", VDict []);
             ("rtr", VBool true); ("runtime", VNone); ("reqs", VList []) ]
           "title" (VStr "Doom")).
  - vm_compute. reflexivity.
  - reflexivity.
  - unfold fields. simpl. repeat constructor; simpl; intuition discriminate.
  - reflexivity.
  - reflexivity.
  - reflexivity.
Defined.

(** *** Merging the same record again *)

Lemma merge_attr_step_no_dict key_b value_b p :
  (forall A, get p "attr" <> Some (VDict A)) ->
  fst (merge_attr_step key_b value_b p) = p.
Proof.
  intros H. unfold merge_attr_step.
  destruct (get p "attr") as [[| | | | |A]|] eqn:E; try reflexivity.
  now destruct (H A).
Qed.

Lemma merge_attr_no_dict other items p :
  (forall A, get p "attr" <> Some (VDict A)) ->
  fst (merge_attr other items p) = p.
Proof.
  intros H. induction items as [|[key_b stored] rest IH]; simpl; [reflexivity|].
  pose proof (merge_attr_step_no_dict key_b (item_value other key_b stored p) p H) as Hs.
  destruct (merge_attr_step key_b (item_value other key_b stored p) p)
    as [q [[]|e]]; simpl in *; subst q; [exact IH | reflexivity].
Qed.

(** The second loop changes nothing in a state where no rule has
    anything left to copy. *)
Lemma merge_attr_settled o items q A :
  get q "attr" = Some (VDict A) ->
  (forall k b a v, In (k, b) items -> get A k = Some a ->
                   merge_attr_value a b = Some v -> v = a) ->
  merge_attr (Distinct o) items q = (q, Ok tt).
Proof.
  intros HA. induction items as [|[key_b stored] rest IH]; simpl; intros H;
    [reflexivity|].
  assert (Hrest : merge_attr (Distinct o) rest q = (q, Ok tt)).
  { apply IH. intros k b a v Hin. apply H. now right. }
  unfold merge_attr_step. rewrite HA.
  destruct (get A key_b) as [a|] eqn:Ha; [|exact Hrest].
  destruct (merge_attr_value a stored) as [v|] eqn:Hv; [|exact Hrest].
  rewrite (H key_b stored a v (or_introl eq_refl) Ha Hv).
  now rewrite (setitem_unchanged A key_b a Ha), (setitem_unchanged q "attr" (VDict A) HA).
Qed.

(** X15.  Merging the same [other] a second time changes nothing: the record
    [port_info_merge] returns is the one a second call with the same [other]
    returns. *)
Theorem merge_again_changes_nothing (p o p' oa : dict) :
  get o "attr" = Some (VDict oa) -> NoDup (fields oa) ->
  port_info_merge p (Distinct o) = (p', Ok tt) ->
  port_info_merge p' (Distinct o) = (p', Ok tt).
Proof.
  intros Hoa Hnd Hm.
  destruct (merge_returns p o p' Hm) as (p1 & oa' & Hroot & Hoa' & Hattr).
  rewrite Hoa in Hoa'. injection Hoa' as <-.
  assert (Hroot' : merge_root PORT_INFO_ROOT_ATTRS (Distinct o) p' = (p', Ok tt)).
  { apply merge_root_settled. intros f Hf.
    destruct (merge_root_result _ o NoDup_merged_ROOT p p1 Hroot f Hf)
      as (a & b & Ha & Hb & Hres).
    pose proof (merge_attr_frame (Distinct o) oa p1 f (In_merged_not_attr _ f Hf)) as Hfr.
    rewrite Hattr in Hfr. simpl in Hfr.
    exists (match merge_root_value a b with Some v => v | None => a end), b.
    split; [congruence|]. split; [exact Hb|].
    intros v Hv. destruct (merge_root_value a b) as [w|] eqn:Hw.
    - apply merge_root_value_other in Hw. subst w.
      now apply merge_root_value_self.
    - congruence. }
  unfold port_info_merge. rewrite Hroot'. simpl. rewrite Hoa.
  destruct (get p1 "attr") as [[| | | | |A]|] eqn:HA.
  6: { destruct (merge_attr_result o oa Hnd p1 p' A Hattr HA)
         as (A' & Hp' & Hnone & Hsome).
       apply merge_attr_settled with A'.
       - rewrite Hp'. apply get_setitem_same.
       - intros k b a' v Hin Ha' Hv.
         destruct (get A k) as [a|] eqn:Ha.
         + rewrite (Hsome k b a Hin Ha) in Ha'. injection Ha' as <-.
           destruct (merge_attr_value a b) as [w|] eqn:Hw.
           * apply merge_attr_value_other in Hw. subst w.
             now apply merge_attr_value_self.
           * congruence.
         + rewrite (Hnone k Ha) in Ha'. discriminate. }
  all: assert (Hp' : p' = p1)
         by (pose proof (merge_attr_no_dict (Distinct o) oa p1) as Hn;
             rewrite Hattr in Hn; simpl in Hn; apply Hn;
             intros A0; rewrite HA; discriminate).
  all: rewrite Hp'; congruence.
Qed.

Lemma merge_again_changes_nothing_witness :
  port_info_merge
    (fst (port_info_merge blank_record (Distinct (record_with_rtr true))))
    (Distinct (record_with_rtr true))
  = (fst (port_info_merge blank_record (Distinct (record_with_rtr true))), Ok tt).
Proof.
  apply (merge_again_changes_nothing blank_record (record_with_rtr true) _
           [ ("title", VStr "Doom"); ("desc", VStr ""); ("inst", VStr "");
             ("genres", VList []); ("porter", VStr ""); ("image", VDict []);
             ("rtr", VBool true); ("runtime", VNone); ("reqs", VList []) ]).
  - reflexivity.
  - unfold fields. simpl. repeat constructor; simpl; intuition discriminate.
  - vm_compute. reflexivity.
Defined.

(** *** What [port_info_load] returns *)

Lemma fill_root_ROOT (info : dict) :
  fill_root PORT_INFO_ROOT_ATTRS info []
  = [ ("version", get_default info "version" (VInt 2));
      ("name", get_default info "name" VNone);
      ("items", get_default info "items" VNone);
      ("items_opt", get_default info "items_opt" VNone);
      ("attr", get_default info "attr" (VDict []));
      ("status", get_default info "status" VNone);
      ("files", get_default info "files" VNone) ].
Proof. reflexivity. Qed.

Lemma has_key_set {A} (d : list (string * A)) k v : has_key (setitem d k v) k = true.
Proof. unfold has_key. now rewrite get_setitem_same. Qed.

Lemma has_key_kept {A} (d : list (string * A)) k k' v :
  has_key d k = true -> has_key (setitem d k' v) k = true.
Proof.
  unfold has_key. intros H.
  destruct (String.eqb_spec k k') as [->|Hne].
  - now rewrite get_setitem_same.
  - now rewrite get_setitem_other.
Qed.

Lemma fill_attr_has attrs has_attr :
  forall a k,
    In k (fields attrs) \/ has_key a k = true ->
    has_key (fill_attr attrs has_attr a) k = true.
Proof.
  induction attrs as [|[attr d] rest IH]; simpl; intros a k H.
  - destruct H as [[]|H]; exact H.
  - apply IH. destruct H as [[<-|H]|H].
    + right. apply has_key_set.
    + now left.
    + right. now apply has_key_kept.
Qed.

Lemma get_delitem_other {A} (d : list (string * A)) k k' :
  k <> k' -> get (delitem d k') k = get d k.
Proof.
  intros Hne. induction d as [|[k0 v0] d IH]; simpl; [reflexivity|].
  destruct (k0 =? k') eqn:E.
  - apply String.eqb_eq in E. subst k0.
    destruct (k' =? k) eqn:E'; [apply String.eqb_eq in E'; congruence | reflexivity].
  - simpl. now rewrite IH.
Qed.

Lemma attr_set_frame info key v info' k :
  attr_set info key v = Ok info' -> k <> "attr" -> get info' k = get info k.
Proof.
  unfold attr_set. intros H Hk.
  destruct (get info "attr") as [[| | | | |a]|]; try discriminate.
  injection H as <-. now apply get_setitem_other.
Qed.

(** The migration and the rewriting of [reqs] leave [items] and
    [items_opt] alone. *)
Lemma migrate_frame info info' k :
  migrate info = Ok info' -> In k ["items"; "items_opt"] ->
  get info' k = get info k.
Proof.
  unfold migrate. intros H Hk.
  assert (Hne : k <> "name" /\ k <> "source" /\ k <> "version" /\ k <> "status"
                /\ k <> "md5" /\ k <> "attr")
    by (simpl in Hk; destruct Hk as [<-|[<-|[]]]; repeat split; discriminate).
  destruct Hne as (H1 & H2 & H3 & H4 & H5 & H6).
  destruct ((match get info "version" with Some v => eq_int v 1 | None => false end)
            || has_key info "source"); [|now injection H as <-].
  destruct (get info "source") as [[| | |source| |]|]; try discriminate.
  match type of H with bind (attr_get ?i _) _ = _ => set (i1 := i) in H end.
  assert (Hi1 : get i1 k = get info k).
  { subst i1.
    destruct (get (setitem (delitem (setitem info "name" _) "source") "version" _) "md5")
      as [[| | | | |]|];
      repeat first [ rewrite get_delitem_other by assumption
                   | rewrite get_setitem_other by assumption ];
      reflexivity. }
  destruct (attr_get i1 "runtime") as [runtime|]; [|discriminate].
  simpl in H. destruct (eq_str runtime "blank").
  - rewrite (attr_set_frame _ _ _ _ k H H6). exact Hi1.
  - injection H as <-. exact Hi1.
Qed.

Lemma reqs_keys_frame info info' k :
  reqs_keys info = Ok info' -> k <> "attr" -> get info' k = get info k.
Proof.
  unfold reqs_keys. intros H Hk.
  destruct (attr_get info "reqs") as [reqs|]; [|discriminate].
  simpl in H.
  destruct reqs; try (now injection H as <-).
  now apply (attr_set_frame _ _ _ _ k H).
Qed.

Lemma clean_items_result p q :
  clean_items p = Ok q ->
  fields q = fields p /\ (forall k, k <> "items" -> get q k = get p k).
Proof.
  unfold clean_items. intros H.
  destruct (get p "items") as [[| | | |items|]|] eqn:E;
    try (injection H as <-; split; [reflexivity | auto]).
  destruct (sanitize items 0) as [items'|]; [|discriminate].
  injection H as <-. split.
  - now apply fields_setitem with (VList items).
  - intros k Hk. now apply get_setitem_other.
Qed.

Lemma clean_items_opt_result p q :
  clean_items_opt p = Ok q ->
  fields q = fields p /\ (forall k, k <> "items_opt" -> get q k = get p k).
Proof.
  unfold clean_items_opt. intros H.
  destruct (get p "items_opt") as [[| | | |items|]|] eqn:E;
    try (injection H as <-; split; [reflexivity | auto]).
  destruct (sanitize items 0) as [items'|]; [|discriminate].
  injection H as <-. split.
  - now apply fields_setitem with (VList items).
  - intros k Hk. now apply get_setitem_other.
Qed.

Lemma clean_items_list p items kept :
  get p "items" = Some (VList items) -> sanitize items 0 = Ok kept ->
  clean_items p = Ok (setitem p "items" (VList kept)).
Proof. intros Hg Hs. unfold clean_items. now rewrite Hg, Hs. Qed.

Lemma clean_items_opt_list p items kept :
  get p "items_opt" = Some (VList items) -> sanitize items 0 = Ok kept ->
  clean_items_opt p
  = Ok (setitem p "items_opt" (match kept with [] => VNone | _ => VList kept end)).
Proof.
  intros Hg Hs. unfold clean_items_opt. rewrite Hg, Hs. simpl.
  now destruct kept.
Qed.

(** A root field the input has is read from it. *)
Lemma fill_root_get info k v :
  In k (fields PORT_INFO_ROOT_ATTRS) -> get info k = Some v ->
  get (fill_root PORT_INFO_ROOT_ATTRS info []) k = Some v.
Proof.
  intros Hk Hv. rewrite fill_root_ROOT.
  simpl in Hk.
  destruct Hk as [<-|[<-|[<-|[<-|[<-|[<-|[<-|[]]]]]]]];
    unfold get_default; simpl; rewrite Hv; reflexivity.
Qed.

Lemma migrate_version info i1 :
  migrate info = Ok i1 ->
  forall v, get i1 "version" = Some v -> eq_int v 1 = false.
Proof.
  unfold migrate. intros H v Hv.
  destruct ((match get info "version" with Some v => eq_int v 1 | None => false end)
            || has_key info "source") eqn:C.
  - destruct (get info "source") as [[| | |source| |]|]; try discriminate.
    match type of H with bind (attr_get ?i _) _ = _ => set (i0 := i) in H end.
    assert (Hi0 : get i0 "version" = Some (VInt 2)).
    { subst i0.
      destruct (get (setitem (delitem (setitem info "name" _) "source") "version" _) "md5")
        as [[| | | | |]|];
        repeat first [ rewrite get_delitem_other by discriminate
                     | rewrite get_setitem_other by discriminate ];
        apply get_setitem_same. }
    destruct (attr_get i0 "runtime") as [runtime|]; [|discriminate].
    cbn [bind] in H. destruct (eq_str runtime "blank").
    + rewrite (attr_set_frame _ _ _ _ "version" H) in Hv by discriminate.
      rewrite Hi0 in Hv. now injection Hv as <-.
    + injection H as <-. rewrite Hi0 in Hv. now injection Hv as <-.
  - injection H as <-. rewrite Hv in C.
    now apply orb_false_iff in C as [C _].
Qed.

Lemma reqs_keys_done i1 i2 a :
  reqs_keys i1 = Ok i2 -> get i2 "attr" = Some (VDict a) ->
  is_dict (get_default a "reqs" VNone) = false.
Proof.
  unfold reqs_keys, attr_get, attr_set. intros H Ha.
  destruct (get i1 "attr") as [[| | | | |a1]|] eqn:E; cbn [bind] in H;
    try discriminate.
  - destruct (get_default a1 "reqs" VNone) as [| | | | |rd] eqn:R;
      try (injection H as <-; rewrite E in Ha; injection Ha as <-; now rewrite R).
    injection H as <-. rewrite get_setitem_same in Ha. injection Ha as <-.
    unfold get_default. now rewrite get_setitem_same.
  - injection H as <-. congruence.
Qed.

Lemma fill_attr_reqs has_attr a :
  get (fill_attr PORT_INFO_ATTR_ATTRS has_attr a) "reqs"
  = Some (get_default (if has_attr then a else []) "reqs" (VList [])).
Proof.
  cbn [fill_attr PORT_INFO_ATTR_ATTRS]. rewrite get_setitem_same.
  destruct has_attr; [|reflexivity].
  unfold get_default at 1.
  repeat rewrite get_setitem_other by discriminate. reflexivity.
Qed.

Lemma fill_root_same (r : dict) :
  fields r = fields PORT_INFO_ROOT_ATTRS ->
  fill_root PORT_INFO_ROOT_ATTRS r [] = r.
Proof.
  unfold fields. intros H.
  destruct r as [|[k1 v1] [|[k2 v2] [|[k3 v3] [|[k4 v4] [|[k5 v5]
    [|[k6 v6] [|[k7 v7] [|]]]]]]]]; try discriminate.
  simpl in H. injection H as -> -> -> -> -> -> ->. reflexivity.
Qed.

Lemma fill_attr_same attrs a :
  (forall k, In k (fields attrs) -> has_key a k = true) ->
  fill_attr attrs true a = a.
Proof.
  induction attrs as [|[attr d] rest IH]; simpl; intros H; [reflexivity|].
  destruct (has_key_get a attr (H attr (or_introl eq_refl))) as [v Hv].
  unfold get_default. rewrite Hv, (setitem_unchanged a attr v Hv).
  apply IH. intros k Hk. apply H. now right.
Qed.

Lemma clean_items_opt_not_empty p q :
  clean_items_opt p = Ok q -> get q "items_opt" <> Some (VList []).
Proof.
  unfold clean_items_opt. intros H.
  destruct (get p "items_opt") as [[| | | |items|]|] eqn:E;
    try (injection H as <-; rewrite E; discriminate).
  destruct (sanitize items 0) as [[|x items']|]; try discriminate;
    cbn [bind eq_empty_list] in H; injection H as <-;
    rewrite get_setitem_same; discriminate.
Qed.

Lemma safe_is_nonempty items :
  forallb safe_item items = true ->
  forallb nonempty_str items = true /\ filter safe_item items = items.
Proof.
  induction items as [|x rest IH]; simpl; [auto|].
  intros H. apply andb_true_iff in H as [Hx Hrest].
  destruct (IH Hrest) as [H1 H2]. rewrite Hx, H1, H2. split; [|reflexivity].
  rewrite andb_true_r.
  destruct x as [| | |s| |]; try discriminate. simpl in *.
  unfold safe_path in Hx. apply negb_true_iff in Hx.
  apply orb_false_iff in Hx as [_ Hx]. now rewrite Hx.
Qed.

Lemma clean_items_tidy r :
  tidy r -> clean_items r = Ok r.
Proof.
  intros Ht. unfold clean_items.
  destruct (get r "items") as [[| | | |items|]|] eqn:E; try reflexivity.
  destruct (safe_is_nonempty items (Ht "items" items (or_introl eq_refl) E))
    as [Hne Hf].
  rewrite (sanitize_without_empty items Hne), Hf. cbn [bind].
  now rewrite (setitem_unchanged r "items" (VList items) E).
Qed.

Lemma clean_items_opt_tidy r :
  tidy r -> get r "items_opt" <> Some (VList []) -> clean_items_opt r = Ok r.
Proof.
  intros Ht Hn. unfold clean_items_opt.
  destruct (get r "items_opt") as [[| | | |items|]|] eqn:E; try reflexivity.
  destruct (safe_is_nonempty items
              (Ht "items_opt" items (or_intror (or_introl eq_refl)) E))
    as [Hne Hf].
  rewrite (sanitize_without_empty items Hne), Hf. cbn [bind].
  destruct items as [|x items]; [congruence|]. cbn [eq_empty_list].
  now rewrite (setitem_unchanged r "items_opt" (VList (x :: items)) E).
Qed.

Section LoadMore.
Variable HM_GENRES : list string.
Variable read_json : string -> result value.

Lemma filter_genres_known genres :
  forall kept out,
    filter_genres HM_GENRES genres kept = Ok out ->
    (forall x, In x kept -> known HM_GENRES x) ->
    forall x, In x out -> known HM_GENRES x.
Proof.
  induction genres as [|g rest IH]; simpl; intros kept out H Hk.
  - now injection H as <-.
  - destruct g as [| | |genre| |]; try discriminate.
    destruct (existsb (String.eqb (casefold genre)) HM_GENRES) eqn:E.
    + apply (IH _ _ H). intros x Hx. apply in_app_or in Hx as [Hx|[<-|[]]].
      * now apply Hk.
      * apply existsb_exists in E as (s & Hs & Heq).
        apply String.eqb_eq in Heq. exists (casefold genre). split; [reflexivity|].
        now rewrite Heq.
    + now apply (IH _ _ H).
Qed.

Lemma clean_genres_result p q :
  clean_genres HM_GENRES p = Ok q ->
  fields q = fields p /\ (forall k, k <> "attr" -> get q k = get p k) /\
  exists a a',
    get p "attr" = Some (VDict a) /\ get q "attr" = Some (VDict a') /\
    (forall k, has_key a k = true -> has_key a' k = true) /\
    (forall l, get a' "genres" = Some (VList l) -> forall x, In x l -> known HM_GENRES x).
Proof.
  unfold clean_genres. intros H.
  destruct (get p "attr") as [[| | | | |a]|] eqn:Ha; try discriminate.
  assert (Hsame : get a "genres" <> None ->
                  (forall l, get a "genres" <> Some (VList l)) ->
                  q = p ->
                  fields q = fields p /\ (forall k, k <> "attr" -> get q k = get p k) /\
                  exists a0 a',
                    Some (VDict a) = Some (VDict a0) /\ get q "attr" = Some (VDict a') /\
                    (forall k, has_key a0 k = true -> has_key a' k = true) /\
                    (forall l, get a' "genres" = Some (VList l) ->
                               forall x, In x l -> known HM_GENRES x)).
  { intros _ Hl ->. split; [reflexivity|]. split; [auto|].
    exists a, a. repeat split; auto.
    intros l Hg. now destruct (Hl l). }
  destruct (get a "genres") as [[| | | |genres|]|] eqn:Hg;
    try (injection H as <-; split; [reflexivity|]; split; [auto|];
         exists a, a; repeat split; auto; intros l Hl; rewrite Hg in Hl; discriminate).
  clear Hsame.
  destruct (filter_genres HM_GENRES genres []) as [kept|] eqn:Hf; [|discriminate].
  injection H as <-. split; [now apply fields_setitem with (VDict a)|].
  split; [intros k Hk; now apply get_setitem_other|].
  exists a, (setitem a "genres" (VList kept)).
  split; [reflexivity|]. split; [apply get_setitem_same|].
  split; [intros k Hk; now apply has_key_kept|].
  intros l Hl. rewrite get_setitem_same in Hl. injection Hl as <-.
  apply (filter_genres_known genres [] kept Hf). intros x [].
Qed.

(** The steps of a normalisation that returns. *)
Lemma normalize_steps info r :
  normalize HM_GENRES info = Ok r ->
  exists i1 i2 a p2 p3,
    migrate info = Ok i1 /\ reqs_keys i1 = Ok i2 /\
    get_default i2 "attr" (VDict []) = VDict a /\
    clean_items
      (setitem (fill_root PORT_INFO_ROOT_ATTRS i2 []) "attr"
         (VDict (fill_attr PORT_INFO_ATTR_ATTRS (has_key i2 "attr") a))) = Ok p2 /\
    clean_items_opt p2 = Ok p3 /\
    clean_genres HM_GENRES p3 = Ok r.
Proof.
  unfold normalize. intros H.
  destruct (migrate info) as [i1|] eqn:H1; [|discriminate].
  cbn [bind] in H.
  destruct (reqs_keys i1) as [i2|] eqn:H2; [|discriminate].
  cbn [bind] in H. cbv zeta in H.
  assert (Hattr : get (fill_root PORT_INFO_ROOT_ATTRS i2 []) "attr"
                  = Some (get_default i2 "attr" (VDict [])))
    by (rewrite fill_root_ROOT; reflexivity).
  rewrite Hattr in H.
  destruct (get_default i2 "attr" (VDict [])) as [| | | | |a] eqn:Ha; try discriminate.
  match type of H with bind (clean_items ?p) _ = _ =>
    destruct (clean_items p) as [p2|] eqn:H3; [|discriminate] end.
  cbn [bind] in H.
  destruct (clean_items_opt p2) as [p3|] eqn:H4; [|discriminate].
  cbn [bind] in H.
  exists i1, i2, a, p2, p3. auto 10.
Qed.

Lemma load_normalizes raw do_default r :
  port_info_load HM_GENRES read_json raw do_default = Ok (Some r) ->
  exists info,
    decode read_json raw do_default = Ok (Some info) /\
    normalize HM_GENRES info = Ok r.
Proof.
  unfold port_info_load. intros H.
  destruct (decode read_json raw do_default) as [[info|]|]; try discriminate.
  simpl in H. exists info. split; [reflexivity|].
  destruct (normalize HM_GENRES info); [|discriminate].
  simpl in H. congruence.
Qed.

(** X16.  A record [port_info_load] returns has exactly the seven root fields
    of the schema, in the schema's order, whatever fields the input had; its
    [attr] is a dictionary that has the nine attr fields of the schema; and
    a [genres] list in it holds allowed genre tags only. *)
Theorem load_gives_schema_fields raw do_default r :
  port_info_load HM_GENRES read_json raw do_default = Ok (Some r) ->
  fields r = fields PORT_INFO_ROOT_ATTRS /\
  exists a,
    get r "attr" = Some (VDict a) /\
    (forall k, In k (fields PORT_INFO_ATTR_ATTRS) -> has_key a k = true) /\
    (forall l, get a "genres" = Some (VList l) ->
               forall x, In x l -> exists g, x = VStr g /\ In g HM_GENRES).
Proof.
  intros H. destruct (load_normalizes _ _ _ H) as (info & _ & Hn).
  destruct (normalize_steps info r Hn)
    as (i1 & i2 & a & p2 & p3 & _ & _ & Ha & H3 & H4 & H5).
  destruct (clean_items_result _ _ H3) as [Hf3 Hg3].
  destruct (clean_items_opt_result _ _ H4) as [Hf4 Hg4].
  destruct (clean_genres_result _ _ H5) as (Hf5 & _ & a3 & a' & Ha3 & Ha' & Hk & Hknown).
  split.
  - rewrite Hf5, Hf4, Hf3.
    rewrite (fields_setitem _ "attr" _ (get_default i2 "attr" (VDict [])));
      [|rewrite fill_root_ROOT; reflexivity].
    now rewrite fill_root_ROOT.
  - exists a'. split; [exact Ha'|]. split; [|exact Hknown].
    intros k Hin. apply Hk.
    rewrite Hg4, Hg3, get_setitem_same in Ha3 by discriminate.
    assert (Ha3' : a3 = fill_attr PORT_INFO_ATTR_ATTRS (has_key i2 "attr") a)
      by congruence.
    rewrite Ha3'. apply fill_attr_has. now left.
Qed.

(** X17.  Of an [items] list in which no entry is the empty string,
    [port_info_load] keeps exactly the entries that are relative paths
    without a [..] step, in their order. *)
Theorem load_keeps_safe_items d do_default r items :
  port_info_load HM_GENRES read_json (RawDict d) do_default = Ok (Some r) ->
  get d "items" = Some (VList items) ->
  forallb nonempty_str items = true ->
  get r "items" = Some (VList (filter safe_item items)).
Proof.
  intros H Hitems Hne. destruct (load_normalizes _ _ _ H) as (info & Hd & Hn).
  simpl in Hd. injection Hd as <-.
  destruct (normalize_steps d r Hn)
    as (i1 & i2 & a & p2 & p3 & H1 & H2 & Ha & H3 & H4 & H5).
  destruct (clean_items_opt_result _ _ H4) as [_ Hg4].
  destruct (clean_genres_result _ _ H5) as (_ & Hg5 & _).
  rewrite Hg5, Hg4 by discriminate.
  assert (Hi2 : get i2 "items" = Some (VList items)).
  { rewrite (reqs_keys_frame _ _ "items" H2) by discriminate.
    rewrite (migrate_frame _ _ "items" H1) by (simpl; auto). exact Hitems. }
  rewrite (clean_items_list _ items (filter safe_item items)) in H3.
  - assert (Hp2 : p2 = setitem
        (setitem (fill_root PORT_INFO_ROOT_ATTRS i2 []) "attr"
           (VDict (fill_attr PORT_INFO_ATTR_ATTRS (has_key i2 "attr") a)))
        "items" (VList (filter safe_item items))) by congruence.
    rewrite Hp2. apply get_setitem_same.
  - rewrite get_setitem_other by discriminate.
    apply fill_root_get; [simpl; auto 10 | exact Hi2].
  - now apply sanitize_without_empty.
Qed.

(** X18.  Of an [items_opt] list in which no entry is the empty string,
    [port_info_load] keeps exactly the entries that are relative paths
    without a [..] step; when none is left, [items_opt] is null. *)
Theorem load_keeps_safe_items_opt d do_default r items :
  port_info_load HM_GENRES read_json (RawDict d) do_default = Ok (Some r) ->
  get d "items_opt" = Some (VList items) ->
  forallb nonempty_str items = true ->
  get r "items_opt"
  = Some (match filter safe_item items with
          | [] => VNone
          | kept => VList kept
          end).
Proof.
  intros H Hitems Hne. destruct (load_normalizes _ _ _ H) as (info & Hd & Hn).
  simpl in Hd. injection Hd as <-.
  destruct (normalize_steps d r Hn)
    as (i1 & i2 & a & p2 & p3 & H1 & H2 & Ha & H3 & H4 & H5).
  destruct (clean_items_result _ _ H3) as [_ Hg3].
  destruct (clean_genres_result _ _ H5) as (_ & Hg5 & _).
  rewrite Hg5 by discriminate.
  assert (Hi2 : get i2 "items_opt" = Some (VList items)).
  { rewrite (reqs_keys_frame _ _ "items_opt" H2) by discriminate.
    rewrite (migrate_frame _ _ "items_opt" H1) by (simpl; auto). exact Hitems. }
  rewrite (clean_items_opt_list _ items (filter safe_item items)) in H4.
  - injection H4 as <-. rewrite get_setitem_same.
    now destruct (filter safe_item items).
  - rewrite Hg3, get_setitem_other by discriminate.
    apply fill_root_get; [simpl; auto 10 | exact Hi2].
  - now apply sanitize_without_empty.
Qed.
Lemma filter_genres_settled genres :
  forall kept out,
    filter_genres HM_GENRES genres kept = Ok out ->
    (forall x, In x kept -> settled HM_GENRES x) ->
    forall x, In x out -> settled HM_GENRES x.
Proof.
  induction genres as [|g rest IH]; simpl; intros kept out H Hk.
  - now injection H as <-.
  - destruct g as [| | |genre| |]; try discriminate.
    destruct (existsb (String.eqb (casefold genre)) HM_GENRES) eqn:E.
    + apply (IH _ _ H). intros x Hx. apply in_app_or in Hx as [Hx|[<-|[]]].
      * now apply Hk.
      * exists (casefold genre). split; [reflexivity|]. split; [|exact E].
        apply HarbourMasterMore.lower_idempotent.
    + now apply (IH _ _ H).
Qed.

Lemma filter_genres_again l :
  (forall x, In x l -> settled HM_GENRES x) ->
  forall kept, filter_genres HM_GENRES l kept = Ok (kept ++ l).
Proof.
  induction l as [|x rest IH]; intros H kept; simpl.
  - now rewrite app_nil_r.
  - destruct (H x (or_introl eq_refl)) as (g & -> & Hc & He).
    rewrite Hc, He. rewrite IH by (intros y Hy; apply H; now right).
    now rewrite <- app_assoc.
Qed.

(** The two ways [clean_genres] returns. *)
Lemma clean_genres_cases p q :
  clean_genres HM_GENRES p = Ok q ->
  exists a,
    get p "attr" = Some (VDict a) /\
    ((q = p /\ forall l, get a "genres" <> Some (VList l)) \/
     exists genres kept,
       get a "genres" = Some (VList genres) /\
       filter_genres HM_GENRES genres [] = Ok kept /\
       q = setitem p "attr" (VDict (setitem a "genres" (VList kept)))).
Proof.
  unfold clean_genres. intros H.
  destruct (get p "attr") as [[| | | | |a]|] eqn:Ha; try discriminate.
  exists a. split; [reflexivity|].
  destruct (get a "genres") as [[| | | |genres|]|] eqn:Hg;
    try (left; injection H as <-; split; [reflexivity | intros l; discriminate]).
  right. destruct (filter_genres HM_GENRES genres []) as [kept|] eqn:Hf;
    [|discriminate].
  injection H as <-. exists genres, kept. auto.
Qed.

(** Every record the normalisation returns is in normal form. *)
Lemma normalize_normal info r :
  normalize HM_GENRES info = Ok r -> normal HM_GENRES r.
Proof.
  intros Hn.
  destruct (normalize_steps info r Hn)
    as (i1 & i2 & a & p2 & p3 & H1 & H2 & Ha & H3 & H4 & H5).
  destruct (clean_items_result _ _ H3) as [Hf3 Hg3].
  destruct (clean_items_opt_result _ _ H4) as [Hf4 Hg4].
  destruct (clean_genres_result _ _ H5) as (Hf5 & Hg5 & _).
  set (a3 := fill_attr PORT_INFO_ATTR_ATTRS (has_key i2 "attr") a) in *.
  assert (Ha3 : get p3 "attr" = Some (VDict a3)).
  { rewrite Hg4, Hg3 by discriminate. apply get_setitem_same. }
  assert (Hreqs : forall v, get a3 "reqs" = Some v -> is_dict v = false).
  { intros v Hv. subst a3. rewrite fill_attr_reqs in Hv. injection Hv as <-.
    unfold has_key, get_default in *.
    destruct (get i2 "attr") as [w|] eqn:Hw; [|reflexivity].
    subst w. pose proof (reqs_keys_done i1 i2 a H2 Hw) as Hd.
    unfold get_default in Hd. now destruct (get a "reqs"). }
  split; [|split; [|split]].
  - rewrite Hf5, Hf4, Hf3.
    rewrite (fields_setitem _ "attr" _ (get_default i2 "attr" (VDict [])));
      [|rewrite fill_root_ROOT; reflexivity].
    now rewrite fill_root_ROOT.
  - intros v Hv.
    rewrite Hg5, Hg4, Hg3, get_setitem_other in Hv by discriminate.
    rewrite fill_root_ROOT in Hv.
    change (get _ "version") with (Some (get_default i2 "version" (VInt 2))) in Hv.
    injection Hv as <-. unfold get_default.
    destruct (get i2 "version") as [v0|] eqn:Hv0; [|reflexivity].
    rewrite (reqs_keys_frame _ _ "version" H2) in Hv0 by discriminate.
    exact (migrate_version info i1 H1 v0 Hv0).
  - rewrite Hg5 by discriminate. exact (clean_items_opt_not_empty _ _ H4).
  - destruct (clean_genres_cases _ _ H5) as (a0 & Ha0 & Hcases).
    rewrite Ha3 in Ha0. injection Ha0 as <-.
    destruct Hcases as [[-> Hnl]|(genres & kept & Hg & Hf & ->)].
    + exists a3. split; [exact Ha3|]. split; [|split].
      * intros k Hk. subst a3. apply fill_attr_has. now left.
      * unfold get_default. destruct (get a3 "reqs") as [v|] eqn:Hv;
          [now apply Hreqs | reflexivity].
      * intros l Hl. now destruct (Hnl l).
    + exists (setitem a3 "genres" (VList kept)).
      split; [apply get_setitem_same|]. split; [|split].
      * intros k Hk. apply has_key_kept. subst a3. apply fill_attr_has. now left.
      * unfold get_default. rewrite get_setitem_other by discriminate.
        destruct (get a3 "reqs") as [v|] eqn:Hv; [now apply Hreqs | reflexivity].
      * intros l Hl. rewrite get_setitem_same in Hl. injection Hl as <-.
        apply (filter_genres_settled genres [] kept Hf). intros x [].
Qed.

(** A tidy record in normal form is normalised to itself. *)
Lemma normalize_settled r :
  normal HM_GENRES r -> tidy r -> normalize HM_GENRES r = Ok r.
Proof.
  intros (Hf & Hv & Hopt & a & Ha & Hkeys & Hreqs & Hgen) Ht.
  assert (Hsrc : has_key r "source" = false).
  { unfold has_key. destruct (get r "source") as [v|] eqn:E; [|reflexivity].
    apply get_In, In_fields in E. unfold fields in Hf. rewrite Hf in E.
    simpl in E. intuition discriminate. }
  assert (Hm : migrate r = Ok r).
  { unfold migrate. rewrite Hsrc, orb_false_r.
    destruct (get r "version") as [v|] eqn:E; [|reflexivity].
    now rewrite (Hv v eq_refl). }
  assert (Hr : reqs_keys r = Ok r).
  { unfold reqs_keys, attr_get. rewrite Ha. cbn [bind].
    now destruct (get_default a "reqs" VNone). }
  assert (Hg : clean_genres HM_GENRES r = Ok r).
  { unfold clean_genres. rewrite Ha.
    destruct (get a "genres") as [[| | | |l|]|] eqn:E; try reflexivity.
    rewrite (filter_genres_again l (Hgen l eq_refl) []). cbn [bind app].
    now rewrite (setitem_unchanged a "genres" (VList l) E),
      (setitem_unchanged r "attr" (VDict a) Ha). }
  unfold normalize. rewrite Hm. cbn [bind]. rewrite Hr. cbn [bind]. cbv zeta.
  rewrite (fill_root_same r Hf), Ha.
  assert (Hk : has_key r "attr" = true) by (unfold has_key; now rewrite Ha).
  rewrite Hk, (fill_attr_same _ a Hkeys), (setitem_unchanged r "attr" (VDict a) Ha).
  rewrite (clean_items_tidy r Ht). cbn [bind].
  rewrite (clean_items_opt_tidy r Ht Hopt). cbn [bind].
  exact Hg.
Qed.

(** X19.  Loading a record [port_info_load] has returned gives the same record
    again, provided its [items] and [items_opt] hold relative paths without
    a [..] step only (which is so whenever the lists first loaded had no
    empty string in them). *)
Theorem load_again_gives_the_same raw do_default again r :
  port_info_load HM_GENRES read_json raw do_default = Ok (Some r) ->
  tidy r ->
  port_info_load HM_GENRES read_json (RawDict r) again = Ok (Some r).
Proof.
  intros H Ht. destruct (load_normalizes _ _ _ H) as (info & _ & Hn).
  unfold port_info_load. cbn [decode bind].
  now rewrite (normalize_settled r (normalize_normal info r Hn) Ht).
Qed.
End LoadMore.

Lemma load_gives_schema_fields_witness :
  exists r,
    port_info_load ["action"; "rpg"] (fun _ => Ok VNone)
      (RawDict untidy_record) false = Ok (Some r) /\
    fields r = ["version"; "name"; "items"; "items_opt"; "attr"; "status"; "files"] /\
    attr_field r "genres" = Some (VList [VStr "rpg"]).
Proof.
  eexists. split; [vm_compute; reflexivity|].
  split; [|vm_compute; reflexivity].
  apply (load_gives_schema_fields ["action"; "rpg"] (fun _ => Ok VNone)
           (RawDict untidy_record) false).
  vm_compute. reflexivity.
Defined.

Lemma load_keeps_safe_items_witness :
  exists r,
    port_info_load ["action"; "rpg"] (fun _ => Ok VNone)
      (RawDict untidy_record) false = Ok (Some r) /\
    get r "items" = Some (VList [VStr "doom/"]).
Proof.
  eexists. split; [vm_compute; reflexivity|].
  apply (load_keeps_safe_items ["action"; "rpg"] (fun _ => Ok VNone)
           untidy_record false _
           [VStr "doom/"; VStr "/etc/passwd"; VStr "../x"]).
  - vm_compute. reflexivity.
  - reflexivity.
  - reflexivity.
Defined.

Lemma load_keeps_safe_items_opt_witness :
  exists r,
    port_info_load ["action"; "rpg"] (fun _ => Ok VNone)
      (RawDict untidy_record) false = Ok (Some r) /\
    get r "items_opt" = Some VNone.
Proof.
  eexists. split; [vm_compute; reflexivity|].
  apply (load_keeps_safe_items_opt ["action"; "rpg"] (fun _ => Ok VNone)
           untidy_record false _ [VStr "/abs"]).
  - vm_compute. reflexivity.
  - reflexivity.
  - reflexivity.
Defined.

Lemma load_again_gives_the_same_witness :
  exists r,
    port_info_load ["action"; "rpg"] (fun _ => Ok VNone)
      (RawDict untidy_record) false = Ok (Some r) /\
    port_info_load ["action"; "rpg"] (fun _ => Ok VNone) (RawDict r) false
    = Ok (Some r).
Proof.
  eexists. split; [vm_compute; reflexivity|].
  apply (load_again_gives_the_same ["action"; "rpg"] (fun _ => Ok VNone)
           (RawDict untidy_record) false false).
  - vm_compute. reflexivity.
  - intros k items [<-|[<-|[]]] Hg; vm_compute in Hg.
    + injection Hg as <-. reflexivity.
    + discriminate.
Defined.

(** *** Merging loaded records *)

Lemma merge_root_returns attrs o :
  (forall k, In k (merged_keys attrs) -> has_key o k = true) ->
  forall p,
    (forall k, In k (merged_keys attrs) -> has_key p k = true) ->
    exists p1, merge_root attrs (Distinct o) p = (p1, Ok tt).
Proof.
  induction attrs as [|[attr d] rest IH]; simpl; intros Ho p Hp; [eauto|].
  destruct (attr =? "attr"); [eauto|].
  destruct (has_key_get p attr (Hp attr (or_introl eq_refl))) as [va Hva].
  destruct (has_key_get o attr (Ho attr (or_introl eq_refl))) as [vb Hvb].
  rewrite Hva, Hvb. apply IH.
  - intros k Hk. apply Ho. now right.
  - intros k Hk. destruct (merge_root_value va vb).
    + apply has_key_kept, Hp. now right.
    + apply Hp. now right.
Qed.

Lemma merge_attr_returns o items :
  forall p A,
    get p "attr" = Some (VDict A) ->
    exists p', merge_attr (Distinct o) items p = (p', Ok tt).
Proof.
  induction items as [|[key_b stored] rest IH]; simpl; intros p A HA; [eauto|].
  unfold merge_attr_step. rewrite HA.
  destruct (get A key_b) as [a|]; [|now apply (IH p A)].
  destruct (merge_attr_value a stored) as [v|]; [|now apply (IH p A)].
  apply (IH _ (setitem A key_b v)). apply get_setitem_same.
Qed.

Lemma has_key_of_fields (r : dict) k : In k (fields r) -> has_key r k = true.
Proof.
  unfold fields, has_key. induction r as [|[k' v'] r IH]; simpl; [contradiction|].
  destruct (k' =? k) eqn:E; [reflexivity|].
  intros [->|H]; [now rewrite String.eqb_refl in E | now apply IH].
Qed.

Section MergeLoaded.
Variable HM_GENRES : list string.
Variable read_json : string -> result value.

(** X20.  [port_info_merge] returns, and raises nothing, on any two records
    that [port_info_load] has returned. *)
Theorem merge_of_loaded_records_returns raw raw' do_default do_default' r r' :
  port_info_load HM_GENRES read_json raw do_default = Ok (Some r) ->
  port_info_load HM_GENRES read_json raw' do_default' = Ok (Some r') ->
  exists merged, port_info_merge r (Distinct r') = (merged, Ok tt).
Proof.
  intros H H'.
  destruct (load_normalizes HM_GENRES read_json _ _ _ H) as (info & _ & Hn).
  destruct (load_normalizes HM_GENRES read_json _ _ _ H') as (info' & _ & Hn').
  destruct (normalize_normal HM_GENRES info r Hn) as (Hf & _ & _ & a & Ha & _).
  destruct (normalize_normal HM_GENRES info' r' Hn') as (Hf' & _ & _ & a' & Ha' & _).
  assert (Hkeys : forall (q : dict), fields q = fields PORT_INFO_ROOT_ATTRS ->
            forall k, In k (merged_keys PORT_INFO_ROOT_ATTRS) -> has_key q k = true).
  { intros q Hq k Hk. apply has_key_of_fields. rewrite Hq.
    rewrite merged_keys_ROOT in Hk. simpl in *. tauto. }
  destruct (merge_root_returns PORT_INFO_ROOT_ATTRS r' (Hkeys r' Hf') r (Hkeys r Hf))
    as [p1 Hroot].
  unfold port_info_merge. rewrite Hroot. cbn [deref]. rewrite Ha'.
  apply merge_attr_returns with a.
  pose proof (merge_root_keeps_attr PORT_INFO_ROOT_ATTRS (Distinct r') r) as Hk.
  rewrite Hroot in Hk. simpl in Hk. congruence.
Qed.
End MergeLoaded.

Lemma merge_of_loaded_records_returns_witness :
  exists r r' merged,
    port_info_load ["action"; "rpg"] (fun _ => Ok VNone)
      (RawDict untidy_record) false = Ok (Some r) /\
    port_info_load ["action"; "rpg"] (fun _ => Ok VNone)
      (RawDict quake_v1) false = Ok (Some r') /\
    port_info_merge r (Distinct r') = (merged, Ok tt).
Proof.
  eexists. eexists.
  destruct (merge_of_loaded_records_returns ["action"; "rpg"] (fun _ => Ok VNone)
              (RawDict untidy_record) (RawDict quake_v1) false false _ _
              ltac:(vm_compute; reflexivity) ltac:(vm_compute; reflexivity))
    as [merged Hm].
  exists merged. split; [vm_compute; reflexivity|].
  split; [vm_compute; reflexivity | exact Hm].
Defined.

(** *** Populated fields and booleans *)

Lemma merge_root_value_boolean a b :
  in_true_false a = true -> in_true_false b = true ->
  merge_root_value a b = Some b.
Proof.
  intros Ha Hb. unfold merge_root_value, in_true_false_none.
  destruct (is_none a || eq_str a "" || eq_empty_list a); [reflexivity|].
  now rewrite Ha, Hb.
Qed.

Lemma merge_attr_value_boolean a b :
  in_true_false a = true -> in_true_false b = true ->
  merge_attr_value a b = Some b.
Proof.
  intros Ha Hb. unfold merge_attr_value, in_true_false_none.
  now rewrite Ha, Hb.
Qed.

(** A merged root field after a call that returns. *)
Lemma merge_root_field_result (p o p' : dict) f a b :
  port_info_merge p (Distinct o) = (p', Ok tt) ->
  In f ["version"; "name"; "items"; "items_opt"] ->
  get p f = Some a -> get o f = Some b ->
  get p' f = Some (match merge_root_value a b with Some v => v | None => a end).
Proof.
  intros Hm Hf Ha Hb.
  destruct (merge_returns p o p' Hm) as (p1 & oa & Hroot & _ & Hattr).
  rewrite <- merged_keys_ROOT in Hf.
  destruct (merge_root_result _ o NoDup_merged_ROOT p p1 Hroot f Hf)
    as (a' & b' & Ha' & Hb' & Hres).
  rewrite Ha in Ha'. injection Ha' as <-.
  rewrite Hb in Hb'. injection Hb' as <-.
  pose proof (merge_attr_frame (Distinct o) oa p1 f (In_merged_not_attr _ f Hf)) as Hfr.
  rewrite Hattr in Hfr. simpl in Hfr. now rewrite Hfr.
Qed.

(** A field of [attr] after a call that returns. *)
Lemma merge_attr_field_result (p o p' oa : dict) f a b :
  port_info_merge p (Distinct o) = (p', Ok tt) ->
  get o "attr" = Some (VDict oa) -> NoDup (fields oa) ->
  attr_field p f = Some a -> get oa f = Some b ->
  attr_field p' f
  = Some (match merge_attr_value a b with Some v => v | None => a end).
Proof.
  intros Hm Hoa Hnd Hf Hb.
  destruct (merge_returns p o p' Hm) as (p1 & oa' & Hroot & Hoa' & Hattr).
  rewrite Hoa in Hoa'. injection Hoa' as <-.
  unfold attr_field in Hf.
  destruct (get p "attr") as [[| | | | |A]|] eqn:HA; try discriminate.
  assert (HA1 : get p1 "attr" = Some (VDict A)).
  { pose proof (merge_root_keeps_attr PORT_INFO_ROOT_ATTRS (Distinct o) p) as H.
    rewrite Hroot in H. simpl in H. congruence. }
  destruct (merge_attr_result o oa Hnd p1 p' A Hattr HA1) as (A' & Hp' & _ & Hsome).
  unfold attr_field. rewrite Hp', get_setitem_same.
  exact (Hsome f b a (get_In oa f b Hb) Hf).
Qed.

(** C2, as the code has it.  Kept: a field of [port_info], root or attr,
    that holds a populated value other than a boolean (not null, not an
    empty string, sequence or record, and not equal to [True] or [False])
    holds the same value after [port_info_merge], whatever [other] holds
    and however the call ends.  Overwritten: when the call returns, a
    boolean held in one of the merged root fields ([version], [name],
    [items], [items_opt]) or in a field of [attr] has been replaced by the
    boolean [other] holds for that field. *)
Theorem merge_keeps_populated_overwrites_boolean
  (port_info : dict) (f : string) (v : value) :
  (sticky v = true ->
   forall other : other_ref,
     (f <> "attr" -> get port_info f = Some v ->
      get (fst (port_info_merge port_info other)) f = Some v) /\
     (attr_field port_info f = Some v ->
      attr_field (fst (port_info_merge port_info other)) f = Some v)) /\
  (in_true_false v = true ->
   forall (other merged : dict) (b : value),
     port_info_merge port_info (Distinct other) = (merged, Ok tt) ->
     in_true_false b = true ->
     (In f ["version"; "name"; "items"; "items_opt"] ->
      get port_info f = Some v -> get other f = Some b ->
      get merged f = Some b) /\
     (forall other_attr,
        get other "attr" = Some (VDict other_attr) -> NoDup (fields other_attr) ->
        attr_field port_info f = Some v -> get other_attr f = Some b ->
        attr_field merged f = Some b)).
Proof.
  split.
  - intros Hv other. exact (merge_keeps_populated_fields port_info other f v Hv).
  - intros Hv other merged b Hm Hb. split.
    + intros Hf Hget Hother.
      rewrite (merge_root_field_result port_info other merged f v b Hm Hf Hget Hother).
      now rewrite (merge_root_value_boolean v b Hv Hb).
    + intros other_attr Hoa Hnd Hget Hother.
      rewrite (merge_attr_field_result port_info other merged other_attr f v b
                 Hm Hoa Hnd Hget Hother).
      now rewrite (merge_attr_value_boolean v b Hv Hb).
Qed.

Lemma merge_keeps_populated_overwrites_boolean_witness :
  get (fst (port_info_merge (record_with_rtr true)
              (Distinct (record_with_rtr false)))) "name"
    = Some (VStr "doom.zip") /\
  attr_field (fst (port_info_merge (record_with_rtr true)
                     (Distinct (record_with_rtr false)))) "rtr"
    = Some (VBool false) /\
  get (fst (port_info_merge (setitem (record_with_rtr true) "items" (VBool true))
              (Distinct (setitem (record_with_rtr false) "items" (VBool false)))))
    "items"
    = Some (VBool false).
Proof.
  split; [|split].
  - apply (proj1 (merge_keeps_populated_overwrites_boolean
                    (record_with_rtr true) "name" (VStr "doom.zip")) eq_refl
             (Distinct (record_with_rtr false)));
      [discriminate | reflexivity].
  - apply (proj2 (merge_keeps_populated_overwrites_boolean
                    (record_with_rtr true) "rtr" (VBool true)) eq_refl
             (record_with_rtr false) _ (VBool false))
      with (other_attr :=
              [ ("title", VStr "Doom"); ("desc", VStr ""); ("inst", VStr "");
                ("genres", VList []); ("porter", VStr ""); ("image", VDict []);
                ("rtr", VBool false); ("runtime", VNone); ("reqs", VList []) ]).
    + vm_compute. reflexivity.
    + reflexivity.
    + reflexivity.
    + unfold fields. simpl. repeat constructor; simpl; intuition discriminate.
    + reflexivity.
    + reflexivity.
  - apply (proj2 (merge_keeps_populated_overwrites_boolean
                    (setitem (record_with_rtr true) "items" (VBool true))
                    "items" (VBool true)) eq_refl
             (setitem (record_with_rtr false) "items" (VBool false)) _ (VBool false)).
    + vm_compute. reflexivity.
    + reflexivity.
    + simpl. auto.
    + reflexivity.
    + reflexivity.
Defined.

End InfoMore.
